(** * MemeCut: grid geometry, line editing, history and compositor

    A shallow embedding of the two source files of the repository,
    [src/App.tsx] and [src/unnamed/part_000] (a later revision of the same
    component: it adds localisation, pointer events and nudge buttons).
    Functions whose text is the same in both files are embedded once; where
    the two files differ, the embedding of [src/App.tsx] lives in
    [Module AppTsx] and the one of [src/unnamed/part_000] in
    [Module Part000].

    Numbers.  A JavaScript [number] is modelled by an exact rational
    ([Qc], canonical rationals, so that structural equality is Leibniz
    equality).  [NaN], infinities, [undefined] array slots and IEEE rounding
    are outside the model: a read outside an array, which JavaScript answers
    with [undefined] (and arithmetic then turns into [NaN]), makes the
    embedded function answer [None].  The one place where the platform
    turns a number into an integer, the size of a canvas, is modelled (see
    [canvas_dimension]). *)

From Stdlib Require Import ZArith QArith Qcanon Qround Lqa Lia String.
From stdpp Require Import base option numbers list sorting strings relations
  gmap pretty.

Local Open Scope string_scope.
Local Open Scope list_scope.
Local Open Scope Qc_scope.

(** ** JavaScript numbers *)

Definition num (q : Q) : Qc := Q2Qc q.

Definition Math_max (a b : Qc) : Qc := if decide (a ≤ b) then b else a.
Definition Math_min (a b : Qc) : Qc := if decide (a ≤ b) then a else b.

(** [Number(x.toFixed(2))]: [toFixed] drops the sign, picks the integer [n]
    with [n / 100] closest to the magnitude (the larger one on a tie) and
    puts the sign back. *)
Definition Number_toFixed2 (x : Qc) : Qc :=
  if decide (0 ≤ x)
  then Q2Qc (inject_Z (Qfloor (x * 100 + 1 / 2)) / 100)
  else - Q2Qc (inject_Z (Qfloor (- x * 100 + 1 / 2)) / 100).

(** [arr.sort((a, b) => a - b)] on an array of numbers. *)
Definition sort_numeric (arr : list Qc) : list Qc := merge_sort Qcle arr.

(** [next[index] = v] for an index inside the array.  Outside, JavaScript
    grows the array and leaves holes, which the model does not represent. *)
Definition array_set (arr : list Qc) (index : nat) (v : Qc) : option (list Qc) :=
  if decide (index < length arr)%nat then Some (<[index := v]> arr) else None.

(** [arr.slice(0, e)]. *)
Definition slice0 {A} (arr : list A) (e : Z) : list A :=
  if decide (0 ≤ e)%Z then take (Z.to_nat e) arr
  else take (Z.to_nat (Z.of_nat (length arr) + e)) arr.

(** ** Types *)

Record Rect := { x : Qc; y : Qc; w : Qc; h : Qc }.
Record Margins := { top : Qc; bottom : Qc; left : Qc; right : Qc }.
Record Offset := { ox : Qc; oy : Qc }.

Inductive Format := png | gif.
Inductive OutputSize := auto | size (n : Qc).

(** [HistoryState]; the fields carry the prefix [hs_] because the component
    state below has hooks of the same names. *)
Record HistoryState := {
  hs_rows : Z;
  hs_cols : Z;
  hs_rowPositions : list Qc;
  hs_colPositions : list Qc
}.

Global Instance Rect_eq_dec : EqDecision Rect.
Proof. solve_decision. Defined.
Global Instance Margins_eq_dec : EqDecision Margins.
Proof. solve_decision. Defined.
Global Instance Offset_eq_dec : EqDecision Offset.
Proof. solve_decision. Defined.
Global Instance Format_eq_dec : EqDecision Format.
Proof. solve_decision. Defined.
Global Instance OutputSize_eq_dec : EqDecision OutputSize.
Proof. solve_decision. Defined.
Global Instance HistoryState_eq_dec : EqDecision HistoryState.
Proof. solve_decision. Defined.

(** ** Geometry *)

(** [generatePositions]: the loop [for (i = 0; i <= count; i++)] pushes one
    value per [i] in [0 .. count]. *)
Definition generatePositions (count : Z) : list Qc :=
  if decide (count < 1)%Z then [0; Qc_of_Z 100]
  else
    let step := Qc_of_Z 100 / Qc_of_Z count in
    (λ i : Z, Number_toFixed2 (Qc_of_Z i * step)) <$> seqZ 0 (count + 1).

(** The body of the inner loop of [handleSplit] that derives the rectangle
    of cell [(r, c)] (the spec calls it [cellRect]). *)
Definition cellRect (sortedRows sortedCols : list Qc) (r c : nat)
    (iw ih paddingX paddingY : Qc) : option Rect :=
  row1 ← sortedRows !! r;
  row2 ← sortedRows !! (r + 1)%nat;
  col1 ← sortedCols !! c;
  col2 ← sortedCols !! (c + 1)%nat;
  let y1 := (row1 / Qc_of_Z 100) * ih in
  let y2 := (row2 / Qc_of_Z 100) * ih in
  let x1 := (col1 / Qc_of_Z 100) * iw in
  let x2 := (col2 / Qc_of_Z 100) * iw in
  let contentX := x1 + paddingX in
  let contentY := y1 + paddingY in
  let contentW := Math_max 1 ((x2 - x1) - (paddingX * 2)) in
  let contentH := Math_max 1 ((y2 - y1) - (paddingY * 2)) in
  Some {| x := contentX; y := contentY; w := contentW; h := contentH |}.

(** ** The platform: canvases, blobs, alerts

    The DOM objects the component touches are kept in an explicit store.  A
    canvas records its size, as the browser keeps it after an assignment
    (see [canvas_dimension]), and the drawing calls made on its 2D context,
    in order, with the arguments the code passes.  Canvases are referred to
    by their position in the store, in creation order. *)

Inductive DrawOp :=
  | fillRect (fillStyle : string) (rx ry rw rh : Qc)
  | clearRect (rx ry rw rh : Qc)
  (** [ctx.drawImage(image, sx, sy, sw, sh, dx, dy, dw, dh)] *)
  | drawImage (sx sy sw sh dx dy dw dh : Qc)
  (** [fCtx.drawImage(canvas, dx, dy, dw, dh)], [canvas] given by its id *)
  | drawCanvas (src : nat) (dx dy dw dh : Qc).

Record Canvas := { width : Qc; height : Qc; ops : list DrawOp }.

(** An encoded buffer: the PNG encoding of a canvas is kept symbolic. *)
Inductive Blob :=
  | PngBlob (c : Canvas)
  | GifBlob (bytes : list Z).

Record Image := { naturalWidth : Qc; naturalHeight : Qc }.

Global Instance DrawOp_eq_dec : EqDecision DrawOp.
Proof. solve_decision. Defined.
Global Instance Canvas_eq_dec : EqDecision Canvas.
Proof. solve_decision. Defined.
Global Instance Blob_eq_dec : EqDecision Blob.
Proof. solve_decision. Defined.
Global Instance Image_eq_dec : EqDecision Image.
Proof. solve_decision. Defined.

(** The exports of the GIF library; a missing export is [None], a call that
    throws answers [None].  [GIFEncoder] stands for the sequence
    [new GIFEncoder(); writeFrame(index, w, h, opts); finish(); bytes()],
    with [opts = { palette, transparent, delay: 0, repeat: 0 }]. *)
Record GifModule := {
  GIFEncoder :
    option (list Z → Qc → Qc → list (list Z) → option Z → option (list Z));
  quantize : option (list Z → Z → option (list (list Z)));
  applyPalette : option (list Z → list (list Z) → option (list Z))
}.

(** What the browser answers; fixed during one run. *)
Record Platform := {
  (** does [getContext('2d')] of the canvas with this id give a context *)
  getContext_2d : nat → bool;
  (** does [toBlob(cb, 'image/png')] hand a blob (not [null]) to [cb] *)
  toBlob_png : Canvas → bool;
  (** [getImageData(0, 0, w, h).data]; [None] when the call throws *)
  getImageData : Canvas → option (list Z);
  (** [await import('gifenc')]; [None] when the import is rejected *)
  import_gifenc : option GifModule;
  (** [await import('https://esm.sh/gifenc@1.0.3')] (part_000 only) *)
  import_esm_gifenc : option GifModule
}.

Record World := {
  canvases : list Canvas;
  objectURLs : nat;
  alerts : list string;
  console_error : list string
}.

(** A computation that may throw (an [async] function: resolve or reject). *)
Inductive Result (A : Type) :=
  | Ok (a : A)
  | Throw (e : string).
Global Arguments Ok {A} a.
Global Arguments Throw {A} e.

Definition M (A : Type) : Type := World → Result A * World.

Definition ret {A} (a : A) : M A := λ wd, (Ok a, wd).
Definition throw {A} (e : string) : M A := λ wd, (Throw e, wd).
Definition bind {A B} (m : M A) (k : A → M B) : M B :=
  λ wd, match m wd with
        | (Ok a, wd') => k a wd'
        | (Throw e, wd') => (Throw e, wd')
        end.
Definition try_catch {A} (body : M A) (handler : string → M A) : M A :=
  λ wd, match body wd with
        | (Ok a, wd') => (Ok a, wd')
        | (Throw e, wd') => handler e wd'
        end.

Notation "'let!' x ':=' m 'in' k" := (bind m (λ x, k))
  (at level 10, x name, m at level 100, k at level 200).
Notation "m ';;' k" := (bind m (λ _, k))
  (at level 100, k at level 200, right associativity).

Definition alert (msg : string) : M unit := λ wd,
  (Ok (), {| canvases := canvases wd; objectURLs := objectURLs wd;
             alerts := alerts wd ++ [msg]; console_error := console_error wd |}).

Definition console_error_log (msg : string) : M unit := λ wd,
  (Ok (), {| canvases := canvases wd; objectURLs := objectURLs wd;
             alerts := alerts wd; console_error := console_error wd ++ [msg] |}).

(** [document.createElement('canvas')]: a new canvas of the default size. *)
Definition createElement_canvas : M nat := λ wd,
  (Ok (length (canvases wd)),
   {| canvases := canvases wd ++ [{| width := Qc_of_Z 300; height := Qc_of_Z 150; ops := [] |}];
      objectURLs := objectURLs wd; alerts := alerts wd;
      console_error := console_error wd |}).

Definition update_canvas (id : nat) (f : Canvas → Canvas) : M unit := λ wd,
  (Ok (), {| canvases := alter f id (canvases wd); objectURLs := objectURLs wd;
             alerts := alerts wd; console_error := console_error wd |}).

(** [canvas.width] and [canvas.height] are [unsigned long] attributes that
    reflect a content attribute.  The number assigned is first converted:
    truncated towards zero and reduced modulo 2^32; a result above
    2147483647 is then replaced by the attribute's default, 300 for the
    width and 150 for the height.  So 250.25 is kept as 250, and a negative
    size gives the default. *)
Definition truncate (v : Qc) : Z := (Qnum v ÷ Zpos (Qden v))%Z.

Definition unsigned_long (v : Qc) : Z := (truncate v mod 2 ^ 32)%Z.

Definition canvas_dimension (default : Z) (v : Qc) : Qc :=
  let u := unsigned_long v in
  Qc_of_Z (if decide (u ≤ 2147483647)%Z then u else default).

(** Assigning [canvas.width] or [canvas.height] also clears the canvas. *)
Definition set_width (id : nat) (v : Qc) : M unit :=
  update_canvas id
    (λ c, {| width := canvas_dimension 300 v; height := height c; ops := [] |}).
Definition set_height (id : nat) (v : Qc) : M unit :=
  update_canvas id
    (λ c, {| width := width c; height := canvas_dimension 150 v; ops := [] |}).

Definition draw (id : nat) (op : DrawOp) : M unit :=
  update_canvas id (λ c, {| width := width c; height := height c; ops := ops c ++ [op] |}).

(** Reading a canvas of the store (ids come from [createElement_canvas]). *)
Definition read_canvas (id : nat) : M Canvas := λ wd,
  match canvases wd !! id with
  | Some c => (Ok c, wd)
  | None => (Throw "no such canvas", wd)
  end.

(** [URL.createObjectURL(blob)]: a fresh URL, numbered; a [TypeError] when
    the argument is [null]. *)
Definition createObjectURL (blob : option Blob) : M nat := λ wd,
  match blob with
  | Some _ =>
      (Ok (objectURLs wd),
       {| canvases := canvases wd; objectURLs := S (objectURLs wd);
          alerts := alerts wd; console_error := console_error wd |})
  | None => (Throw "TypeError: createObjectURL", wd)
  end.

(** An empty page: no canvas, no URL, nothing shown or logged. *)
Definition emptyWorld : World :=
  {| canvases := []; objectURLs := 0; alerts := []; console_error := [] |}.

(** ** Compositor: [generateImageBlob] *)

(** The part of [generateImageBlob] up to the choice of [finalCanvas]; its
    text is the same in both files.  The result is the id of [finalCanvas]. *)
Definition composeCanvas (p : Platform) (image : Image) (rect : Rect)
    (margins : Margins) (offset : Offset) (isSquare : bool) (bgColor : string)
    (outputSize : OutputSize) : M nat :=
  let canvasWidth0 := w rect + left margins + right margins in
  let canvasHeight0 := h rect + top margins + bottom margins in
  let canvasWidth :=
    if isSquare then Math_max canvasWidth0 canvasHeight0 else canvasWidth0 in
  let canvasHeight :=
    if isSquare then Math_max canvasWidth0 canvasHeight0 else canvasHeight0 in
  let! canvas := createElement_canvas in
  set_width canvas canvasWidth;;
  set_height canvas canvasHeight;;
  if negb (getContext_2d p canvas) then throw "Context creation failed"
  else
    (if decide (bgColor = "white")
     then draw canvas (fillRect "#ffffff" 0 0 canvasWidth canvasHeight)
     else draw canvas (clearRect 0 0 canvasWidth canvasHeight));;
    let contentW := w rect + left margins + right margins in
    let contentH := h rect + top margins + bottom margins in
    let startX := (canvasWidth - contentW) / 2 + left margins + ox offset in
    let startY := (canvasHeight - contentH) / 2 + top margins + oy offset in
    draw canvas (drawImage (x rect) (y rect) (w rect) (h rect)
                           startX startY (w rect) (h rect));;
    match outputSize with
    | size n =>
        if decide (canvasWidth ≠ n ∨ canvasHeight ≠ n) then
          let! finalCanvas := createElement_canvas in
          set_width finalCanvas n;;
          set_height finalCanvas n;;
          (if getContext_2d p finalCanvas then
             (if decide (bgColor = "white")
              then draw finalCanvas (fillRect "#ffffff" 0 0 n n)
              else ret ());;
             draw finalCanvas (drawCanvas canvas 0 0 n n)
           else ret ());;
          ret finalCanvas
        else ret canvas
    | auto => ret canvas
    end.

(** [finalCanvas.toBlob(cb, 'image/png')]: the value handed to [cb]. *)
Definition toBlob (p : Platform) (finalCanvas : nat) : M (option Blob) :=
  let! c := read_canvas finalCanvas in
  ret (if toBlob_png p c then Some (PngBlob c) else None).

(** The [png] branch: resolve with the blob, reject on [null]. *)
Definition encodePng (p : Platform) (finalCanvas : nat) : M (option Blob) :=
  let! blob := toBlob p finalCanvas in
  match blob with
  | Some b => ret (Some b)
  | None => throw "Canvas to Blob failed"
  end.

(** From [const data = ...] to [return new Blob([encoder.bytes()], ...)]:
    the same statements, once in [src/App.tsx] and twice in part_000 (there
    the second copy uses the names [Q], [AP], [GE]).  Calling a missing
    export is a [TypeError]. *)
Definition encodeGifFrame (p : Platform)
    (quantize_ : option (list Z → Z → option (list (list Z))))
    (applyPalette_ : option (list Z → list (list Z) → option (list Z)))
    (encoder : list Z → Qc → Qc → list (list Z) → option Z → option (list Z))
    (finalCanvas : nat) (bgColor : string) : M (option Blob) :=
  let! c := read_canvas finalCanvas in
  if negb (getContext_2d p finalCanvas) then throw "No image data"
  else
    match getImageData p c with
    | None => throw "getImageData failed"
    | Some data =>
        match quantize_ with
        | None => throw "TypeError: quantize is not a function"
        | Some q =>
            match q data 256%Z with
            | None => throw "quantize failed"
            | Some palette =>
                match applyPalette_ with
                | None => throw "TypeError: applyPalette is not a function"
                | Some ap =>
                    match ap data palette with
                    | None => throw "applyPalette failed"
                    | Some index =>
                        let transparent :=
                          if decide (bgColor ≠ "white") then Some 0%Z else None in
                        match encoder index (width c) (height c) palette transparent with
                        | None => throw "GIFEncoder failed"
                        | Some bytes => ret (Some (GifBlob bytes))
                        end
                    end
                end
            end
        end
    end.

(** The [catch] block of the [gif] branch; its text is the same in both
    files.  The promise resolves with whatever [toBlob] hands over. *)
Definition gifFallback (p : Platform) (finalCanvas : nat) (e : string)
    : M (option Blob) :=
  console_error_log ("GIF generation error: " +:+ e);;
  let! b := toBlob p finalCanvas in
  alert "GIF generation failed, falling back to PNG.";;
  ret b.

(** The end of [generateImageBlob], from [if (format === 'png')] on, for a
    given [try] block; both files instantiate it with their own. *)
Definition encodeStage (gifTry : Platform → nat → string → M (option Blob))
    (p : Platform) (finalCanvas : nat) (bgColor : string) (format : Format)
    : M (option Blob) :=
  match format with
  | png => encodePng p finalCanvas
  | gif => try_catch (gifTry p finalCanvas bgColor) (gifFallback p finalCanvas)
  end.

(** ** Component state

    The [useState] hooks and the [isUndoRedo] ref of [App].  A handler is a
    function from the state at the time of the event to the state after it:
    the values a handler closes over are those of the last render, and the
    [rowPositionsRef]/[colPositionsRef] refs are kept equal to the hooks by
    their effects.  The one handler that outlives the render it was made in
    while the lines change is the key listener of part_000; it takes that
    render as a second state (see [Part000.handleKeyDown]). *)

(** [SplitResult]; the fields carry the prefix [sr_]. *)
Record SplitResult := {
  sr_id : Z;
  sr_dataUrl : nat;
  sr_blob : Blob;
  sr_extension : Format;
  sr_originalRect : Rect;
  sr_margins : option Margins;
  sr_offset : option Offset;
  sr_isSquare : option bool;
  sr_bgColor : option string;
  sr_outputSize : option OutputSize
}.

Global Instance SplitResult_eq_dec : EqDecision SplitResult.
Proof. solve_decision. Defined.

(** The [extra: any] argument of [handleSaveSingle]: an object holding any
    of the keys of a [SplitResult]; [{ ...r, ...extra }] takes from [extra]
    the keys it has. *)
Record Extra := {
  ex_id : option Z;
  ex_dataUrl : option nat;
  ex_blob : option Blob;
  ex_extension : option Format;
  ex_originalRect : option Rect;
  ex_margins : option Margins;
  ex_offset : option Offset;
  ex_isSquare : option bool;
  ex_bgColor : option string;
  ex_outputSize : option OutputSize
}.

Definition spread (r : SplitResult) (extra : Extra) : SplitResult :=
  {| sr_id := default (sr_id r) (ex_id extra);
     sr_dataUrl := default (sr_dataUrl r) (ex_dataUrl extra);
     sr_blob := default (sr_blob r) (ex_blob extra);
     sr_extension := default (sr_extension r) (ex_extension extra);
     sr_originalRect := default (sr_originalRect r) (ex_originalRect extra);
     sr_margins := from_option Some (sr_margins r) (ex_margins extra);
     sr_offset := from_option Some (sr_offset r) (ex_offset extra);
     sr_isSquare := from_option Some (sr_isSquare r) (ex_isSquare extra);
     sr_bgColor := from_option Some (sr_bgColor r) (ex_bgColor extra);
     sr_outputSize := from_option Some (sr_outputSize r) (ex_outputSize extra) |}.

Inductive LineType := row | col.
Inductive Dir := dir_up | dir_down | dir_left | dir_right.
Inductive Action := action_close | action_stay.

Global Instance LineType_eq_dec : EqDecision LineType.
Proof. solve_decision. Defined.
Global Instance Dir_eq_dec : EqDecision Dir.
Proof. solve_decision. Defined.

Record AppState := {
  imageElement : option Image;
  rows : Z;
  cols : Z;
  rowPositions : list Qc;
  colPositions : list Qc;
  paddingX : Qc;
  paddingY : Qc;
  format : Format;
  outputSize : OutputSize;
  isProcessing : bool;
  selectedLine : option (LineType * nat);
  results : option (list SplitResult);
  editingResult : option SplitResult;
  history : list HistoryState;
  historyIndex : Z;
  isUndoRedo : bool
}.

Definition setImageElement (v : option Image) (st : AppState) : AppState :=
  {| imageElement := v; rows := rows st; cols := cols st;
     rowPositions := rowPositions st; colPositions := colPositions st;
     paddingX := paddingX st; paddingY := paddingY st; format := format st;
     outputSize := outputSize st; isProcessing := isProcessing st;
     selectedLine := selectedLine st; results := results st;
     editingResult := editingResult st; history := history st;
     historyIndex := historyIndex st; isUndoRedo := isUndoRedo st |}.

Definition setRows (v : Z) (st : AppState) : AppState :=
  {| imageElement := imageElement st; rows := v; cols := cols st;
     rowPositions := rowPositions st; colPositions := colPositions st;
     paddingX := paddingX st; paddingY := paddingY st; format := format st;
     outputSize := outputSize st; isProcessing := isProcessing st;
     selectedLine := selectedLine st; results := results st;
     editingResult := editingResult st; history := history st;
     historyIndex := historyIndex st; isUndoRedo := isUndoRedo st |}.

Definition setCols (v : Z) (st : AppState) : AppState :=
  {| imageElement := imageElement st; rows := rows st; cols := v;
     rowPositions := rowPositions st; colPositions := colPositions st;
     paddingX := paddingX st; paddingY := paddingY st; format := format st;
     outputSize := outputSize st; isProcessing := isProcessing st;
     selectedLine := selectedLine st; results := results st;
     editingResult := editingResult st; history := history st;
     historyIndex := historyIndex st; isUndoRedo := isUndoRedo st |}.

Definition setRowPositions (v : list Qc) (st : AppState) : AppState :=
  {| imageElement := imageElement st; rows := rows st; cols := cols st;
     rowPositions := v; colPositions := colPositions st;
     paddingX := paddingX st; paddingY := paddingY st; format := format st;
     outputSize := outputSize st; isProcessing := isProcessing st;
     selectedLine := selectedLine st; results := results st;
     editingResult := editingResult st; history := history st;
     historyIndex := historyIndex st; isUndoRedo := isUndoRedo st |}.

Definition setColPositions (v : list Qc) (st : AppState) : AppState :=
  {| imageElement := imageElement st; rows := rows st; cols := cols st;
     rowPositions := rowPositions st; colPositions := v;
     paddingX := paddingX st; paddingY := paddingY st; format := format st;
     outputSize := outputSize st; isProcessing := isProcessing st;
     selectedLine := selectedLine st; results := results st;
     editingResult := editingResult st; history := history st;
     historyIndex := historyIndex st; isUndoRedo := isUndoRedo st |}.

Definition setIsProcessing (v : bool) (st : AppState) : AppState :=
  {| imageElement := imageElement st; rows := rows st; cols := cols st;
     rowPositions := rowPositions st; colPositions := colPositions st;
     paddingX := paddingX st; paddingY := paddingY st; format := format st;
     outputSize := outputSize st; isProcessing := v;
     selectedLine := selectedLine st; results := results st;
     editingResult := editingResult st; history := history st;
     historyIndex := historyIndex st; isUndoRedo := isUndoRedo st |}.

Definition setResults (v : option (list SplitResult)) (st : AppState) : AppState :=
  {| imageElement := imageElement st; rows := rows st; cols := cols st;
     rowPositions := rowPositions st; colPositions := colPositions st;
     paddingX := paddingX st; paddingY := paddingY st; format := format st;
     outputSize := outputSize st; isProcessing := isProcessing st;
     selectedLine := selectedLine st; results := v;
     editingResult := editingResult st; history := history st;
     historyIndex := historyIndex st; isUndoRedo := isUndoRedo st |}.

Definition setEditingResult (v : option SplitResult) (st : AppState) : AppState :=
  {| imageElement := imageElement st; rows := rows st; cols := cols st;
     rowPositions := rowPositions st; colPositions := colPositions st;
     paddingX := paddingX st; paddingY := paddingY st; format := format st;
     outputSize := outputSize st; isProcessing := isProcessing st;
     selectedLine := selectedLine st; results := results st;
     editingResult := v; history := history st;
     historyIndex := historyIndex st; isUndoRedo := isUndoRedo st |}.

Definition setHistory (v : list HistoryState) (st : AppState) : AppState :=
  {| imageElement := imageElement st; rows := rows st; cols := cols st;
     rowPositions := rowPositions st; colPositions := colPositions st;
     paddingX := paddingX st; paddingY := paddingY st; format := format st;
     outputSize := outputSize st; isProcessing := isProcessing st;
     selectedLine := selectedLine st; results := results st;
     editingResult := editingResult st; history := v;
     historyIndex := historyIndex st; isUndoRedo := isUndoRedo st |}.

Definition setHistoryIndex (v : Z) (st : AppState) : AppState :=
  {| imageElement := imageElement st; rows := rows st; cols := cols st;
     rowPositions := rowPositions st; colPositions := colPositions st;
     paddingX := paddingX st; paddingY := paddingY st; format := format st;
     outputSize := outputSize st; isProcessing := isProcessing st;
     selectedLine := selectedLine st; results := results st;
     editingResult := editingResult st; history := history st;
     historyIndex := v; isUndoRedo := isUndoRedo st |}.

(** [isUndoRedo.current = v] *)
Definition setIsUndoRedo (v : bool) (st : AppState) : AppState :=
  {| imageElement := imageElement st; rows := rows st; cols := cols st;
     rowPositions := rowPositions st; colPositions := colPositions st;
     paddingX := paddingX st; paddingY := paddingY st; format := format st;
     outputSize := outputSize st; isProcessing := isProcessing st;
     selectedLine := selectedLine st; results := results st;
     editingResult := editingResult st; history := history st;
     historyIndex := historyIndex st; isUndoRedo := v |}.

(** The values of the hooks when [App] is first rendered. *)
Definition initialState : AppState :=
  {| imageElement := None; rows := 4; cols := 4;
     rowPositions := Qc_of_Z <$> [0; 25; 50; 75; 100]%Z;
     colPositions := Qc_of_Z <$> [0; 25; 50; 75; 100]%Z;
     paddingX := 0; paddingY := 0; format := png; outputSize := auto;
     isProcessing := false; selectedLine := None; results := None;
     editingResult := None; history := []; historyIndex := (-1)%Z;
     isUndoRedo := false |}.

(** [setSelectedLine] *)
Definition setSelectedLine (v : option (LineType * nat)) (st : AppState) : AppState :=
  {| imageElement := imageElement st; rows := rows st; cols := cols st;
     rowPositions := rowPositions st; colPositions := colPositions st;
     paddingX := paddingX st; paddingY := paddingY st; format := format st;
     outputSize := outputSize st; isProcessing := isProcessing st;
     selectedLine := v; results := results st;
     editingResult := editingResult st; history := history st;
     historyIndex := historyIndex st; isUndoRedo := isUndoRedo st |}.

(** The snapshot [{ rows, cols, rowPositions, colPositions }] of the live
    grid. *)
Definition snapshot (st : AppState) : HistoryState :=
  {| hs_rows := rows st; hs_cols := cols st;
     hs_rowPositions := rowPositions st; hs_colPositions := colPositions st |}.

(** ** Grid history (same text in both files) *)

(** [JSON.stringify(last) === JSON.stringify(newState)] is structural
    equality here: both objects list the same keys in the same order. *)
Definition addToHistory (newState : HistoryState) (st : AppState) : AppState :=
  if isUndoRedo st then st
  else
    let current := slice0 (history st) (historyIndex st + 1) in
    match last current with
    | Some l =>
        if decide (l = newState) then setHistory current st
        else
          let next := (current ++ [newState])%list in
          setHistoryIndex (Z.of_nat (length next) - 1) (setHistory next st)
    | None =>
        let next := (current ++ [newState])%list in
        setHistoryIndex (Z.of_nat (length next) - 1) (setHistory next st)
    end.

(** Applying a snapshot: [setRows], [setCols], [setRowPositions],
    [setColPositions]. *)
Definition applySnapshot (s : HistoryState) (st : AppState) : AppState :=
  setColPositions (hs_colPositions s)
    (setRowPositions (hs_rowPositions s)
       (setCols (hs_cols s) (setRows (hs_rows s) st))).

Definition handleUndo (st : AppState) : AppState :=
  if decide (historyIndex st > 0)%Z then
    match history st !! Z.to_nat (historyIndex st - 1) with
    | Some prev =>
        setHistoryIndex (historyIndex st - 1)
          (applySnapshot prev (setIsUndoRedo true st))
    | None => setIsUndoRedo true st   (* [prev.rows] throws on [undefined] *)
    end
  else st.

Definition handleRedo (st : AppState) : AppState :=
  if decide (historyIndex st < Z.of_nat (length (history st)) - 1)%Z then
    match history st !! Z.to_nat (historyIndex st + 1) with
    | Some next =>
        setHistoryIndex (historyIndex st + 1)
          (applySnapshot next (setIsUndoRedo true st))
    | None => setIsUndoRedo true st   (* [next.rows] throws on [undefined] *)
    end
  else st.

(** The callback of [setTimeout(() => isUndoRedo.current = false, 0)]. *)
Definition undoRedoTimeout (st : AppState) : AppState := setIsUndoRedo false st.

(** [img.onload] inside [handleUpload]. *)
Definition handleUpload (img : Image) (st : AppState) : AppState :=
  let initR := generatePositions 4 in
  let initC := generatePositions 4 in
  setHistoryIndex 0
    (setHistory [{| hs_rows := 4; hs_cols := 4;
                    hs_rowPositions := initR; hs_colPositions := initC |}]
       (setColPositions initC (setRowPositions initR
          (setImageElement (Some img) st)))).

Definition handleRowChange (n : Z) (st : AppState) : AppState :=
  let rp := generatePositions n in
  addToHistory {| hs_rows := n; hs_cols := cols st;
                  hs_rowPositions := rp; hs_colPositions := colPositions st |}
    (setRowPositions rp (setRows n st)).

Definition handleColChange (n : Z) (st : AppState) : AppState :=
  let cp := generatePositions n in
  addToHistory {| hs_rows := rows st; hs_cols := cols st;
                  hs_rowPositions := rowPositions st; hs_colPositions := cp |}
    (setColPositions cp (setCols n st)).

(** ** Line drag and nudge *)

Inductive Key := ArrowUp | ArrowDown | ArrowLeft | ArrowRight | KeyZ | OtherKey.

Global Instance Key_eq_dec : EqDecision Key.
Proof. solve_decision. Defined.

(** The fields of a keyboard event the handlers read; [ctrlOrMeta] is
    [e.ctrlKey || e.metaKey]. *)
Record KeyboardEvent := {
  targetIsInput : bool;
  ctrlOrMeta : bool;
  shiftKey : bool;
  key : Key
}.

Record PointerEvent := { clientX : Qc; clientY : Qc }.
Record DOMRect := { rect_top : Qc; rect_left : Qc; rect_width : Qc; rect_height : Qc }.

(** [((clientPos - startPos) / dimension) * 100]; a zero [dimension] gives
    [NaN] or an infinity, which is outside the model. *)
Definition dragPct (type : LineType) (rect : DOMRect) (ev : PointerEvent)
    : option Qc :=
  let isRow := bool_decide (type = row) in
  let clientPos := if isRow then clientY ev else clientX ev in
  let startPos := if isRow then rect_top rect else rect_left rect in
  let dimension := if isRow then rect_height rect else rect_width rect in
  if decide (dimension = 0) then None
  else Some (((clientPos - startPos) / dimension) * Qc_of_Z 100).

(** ** Batch split and fine-tune save

    [handleSplit] and [handleSaveSingle] have the same text in both files;
    they call the [generateImageBlob] of their own file. *)

Section Batch.

Variable generateImageBlob :
  Platform → Image → Rect → Margins → Offset → bool → string →
  OutputSize → Format → M (option Blob).

(** The pairs [(r, c)] the two nested [for] loops visit, in order. *)
Definition cells (sortedRows sortedCols : list Qc) : list (nat * nat) :=
  r ← seq 0 (length sortedRows - 1);
  c ← seq 0 (length sortedCols - 1);
  [(r, c)].

(** The loop body, iterated over the cells still to visit; [newResults]
    and [idCounter] are the loop's variables. *)
Fixpoint splitLoop (p : Platform) (st : AppState) (image : Image)
    (sortedRows sortedCols : list Qc) (todo : list (nat * nat))
    (newResults : list SplitResult) (idCounter : Z)
    : M (list SplitResult) :=
  match todo with
  | [] => ret newResults
  | (r, c) :: todo' =>
      match cellRect sortedRows sortedCols r c
              (naturalWidth image) (naturalHeight image)
              (paddingX st) (paddingY st) with
      | None => throw "cell outside the grid"   (* not reached, see [cells] *)
      | Some rect =>
          let! blob :=
            generateImageBlob p image rect
              {| top := 0; bottom := 0; left := 0; right := 0 |}
              {| ox := 0; oy := 0 |} false "transparent"
              (outputSize st) (format st) in
          let! url := createObjectURL blob in
          match blob with
          | None => throw "TypeError: createObjectURL"
          | Some b =>
              splitLoop p st image sortedRows sortedCols todo'
                (newResults ++
                 [{| sr_id := idCounter; sr_dataUrl := url; sr_blob := b;
                     sr_extension := format st; sr_originalRect := rect;
                     sr_margins := None; sr_offset := None;
                     sr_isSquare := None; sr_bgColor := None;
                     sr_outputSize := Some (outputSize st) |}])%list
                (idCounter + 1)%Z
          end
      end
  end.

(** [finally] runs on both exits; nothing escapes the [catch]. *)
Definition handleSplit (p : Platform) (st : AppState) : M AppState :=
  match imageElement st with
  | None => ret st
  | Some image =>
      let st1 := setIsProcessing true st in
      let sortedRows := sort_numeric (rowPositions st) in
      let sortedCols := sort_numeric (colPositions st) in
      let! st2 :=
        try_catch
          (let! newResults :=
             splitLoop p st image sortedRows sortedCols
               (cells sortedRows sortedCols) [] 0%Z in
           ret (setResults (Some newResults) st1))
          (λ error,
             console_error_log error;;
             alert "Error splitting image";;
             ret st1) in
      ret (setIsProcessing false st2)
  end.

(** [newBlob] is what [generateImageBlob] resolved with. *)
Definition handleSaveSingle (newBlob : option Blob) (extra : Extra)
    (action : Action) (st : AppState) : M AppState :=
  match editingResult st, results st with
  | Some editing, Some rs =>
      let! newUrl := createObjectURL newBlob in
      match newBlob with
      | None => throw "TypeError: createObjectURL"
      | Some b =>
          let newResults :=
            (λ r, if decide (sr_id r = sr_id editing)
                  then spread
                         {| sr_id := sr_id r; sr_dataUrl := newUrl;
                            sr_blob := b; sr_extension := sr_extension r;
                            sr_originalRect := sr_originalRect r;
                            sr_margins := sr_margins r;
                            sr_offset := sr_offset r;
                            sr_isSquare := sr_isSquare r;
                            sr_bgColor := sr_bgColor r;
                            sr_outputSize := sr_outputSize r |}
                         extra
                  else r) <$> rs in
          let st1 := setResults (Some newResults) st in
          ret (match action with
               | action_close => setEditingResult None st1
               | action_stay => st1
               end)
      end
  | _, _ => ret st
  end.

End Batch.

(** [onResetGrid], the inline handler passed to the sidebar. *)
Definition onResetGrid (st : AppState) : AppState :=
  let p := generatePositions (rows st) in
  addToHistory {| hs_rows := rows st; hs_cols := cols st;
                  hs_rowPositions := p; hs_colPositions := p |}
    (setColPositions p (setRowPositions p st)).

(** ** The two files

    What differs between them: the [try] block of the [gif] branch, the
    drag and nudge handlers, and, through [generateImageBlob], the batch
    split. *)

Module AppTsx.

(** The [try] block of the [gif] branch in [src/App.tsx]. *)
Definition gifTry (p : Platform) (finalCanvas : nat) (bgColor : string)
    : M (option Blob) :=
  match import_gifenc p with
  | None => throw "import failed"
  | Some gifModule =>
      match GIFEncoder gifModule with
      | None => throw "GIF Library exports not found"
      | Some enc =>
          encodeGifFrame p (quantize gifModule) (applyPalette gifModule) enc
            finalCanvas bgColor
      end
  end.

Definition generateImageBlob (p : Platform) (image : Image) (rect : Rect)
    (margins : Margins) (offset : Offset) (isSquare : bool)
    (bgColor : string) (outputSize : OutputSize) (format : Format)
    : M (option Blob) :=
  let! finalCanvas :=
    composeCanvas p image rect margins offset isSquare bgColor outputSize in
  match format with
  | png => encodePng p finalCanvas
  | gif => try_catch (gifTry p finalCanvas bgColor) (gifFallback p finalCanvas)
  end.

(** [handleMove] of [onLineDragStart] in [src/App.tsx]. *)
Definition handleMove (type : LineType) (index : nat) (rect : DOMRect)
    (ev : PointerEvent) (st : AppState) : option AppState :=
  pct0 ← dragPct type rect ev;
  let pct := Math_max 0 (Math_min (Qc_of_Z 100) pct0) in
  match type with
  | row =>
      next ← array_set (rowPositions st) index pct;
      Some (setRowPositions (sort_numeric next) st)
  | col =>
      next ← array_set (colPositions st) index pct;
      Some (setColPositions (sort_numeric next) st)
  end.

(** The block of [handleKeyDown] that moves line [idx] of one axis; it is
    written out twice in the source, for [newRP] and for [newCP].  The
    result is the array and the flag [changed]. *)
Definition nudgeArray (arr : list Qc) (idx : nat) (k : Key) (step : Qc)
    : option (list Qc * bool) :=
  cur ← arr !! idx;
  if bool_decide (k = ArrowUp ∨ k = ArrowLeft) then
    limit ← (if decide (0 < idx)%nat then arr !! (idx - 1)%nat
             else Some (- Qc_of_Z 10));
    let newVal := Math_max (limit + num 0.1) (cur - step) in
    if decide (newVal ≠ cur)
    then Some (<[idx := Number_toFixed2 newVal]> arr, true)
    else Some (arr, false)
  else
    limit ← (if decide (idx < length arr - 1)%nat then arr !! (idx + 1)%nat
             else Some (Qc_of_Z 110));
    let newVal := Math_min (limit - num 0.1) (cur + step) in
    if decide (newVal ≠ cur)
    then Some (<[idx := Number_toFixed2 newVal]> arr, true)
    else Some (arr, false).

Definition handleKeyDown (e : KeyboardEvent) (st : AppState) : option AppState :=
  if targetIsInput e then Some st
  else if ctrlOrMeta e && bool_decide (key e = KeyZ) then
    Some (if shiftKey e then handleRedo st else handleUndo st)
  else
    match selectedLine st with
    | Some (type, idx) =>
        if bool_decide (key e ∈ [ArrowUp; ArrowDown; ArrowLeft; ArrowRight]) then
          let step := if shiftKey e then 2 else num 0.2 in
          '(newRP, newCP, changed) ←
            match type with
            | row =>
                r ← nudgeArray (rowPositions st) idx (key e) step;
                Some (r.1, colPositions st, r.2)
            | col =>
                r ← nudgeArray (colPositions st) idx (key e) step;
                Some (rowPositions st, r.1, r.2)
            end;
          if (changed : bool) then
            Some (addToHistory
                    {| hs_rows := rows st; hs_cols := cols st;
                       hs_rowPositions := newRP; hs_colPositions := newCP |}
                    (setColPositions newCP (setRowPositions newRP st)))
          else Some st
        else Some st
    | None => Some st
    end.

Definition handleSplit := handleSplit generateImageBlob.

End AppTsx.

Module Part000.

(** The [try] block of the [gif] branch in part_000: when an export is
    missing, the library is imported a second time from the CDN. *)
Definition gifTry (p : Platform) (finalCanvas : nat) (bgColor : string)
    : M (option Blob) :=
  match import_gifenc p with
  | None => throw "import failed"
  | Some gifModule =>
      match GIFEncoder gifModule, quantize gifModule, applyPalette gifModule with
      | Some enc, Some q, Some ap =>
          encodeGifFrame p (Some q) (Some ap) enc finalCanvas bgColor
      | _, _, _ =>
          match import_esm_gifenc p with
          | None => throw "import failed"
          | Some esm =>
              match GIFEncoder esm with
              | None => throw "GIF Library exports not found in fallback"
              | Some GE =>
                  encodeGifFrame p (quantize esm) (applyPalette esm) GE
                    finalCanvas bgColor
              end
          end
      end
  end.

Definition generateImageBlob (p : Platform) (image : Image) (rect : Rect)
    (margins : Margins) (offset : Offset) (isSquare : bool)
    (bgColor : string) (outputSize : OutputSize) (format : Format)
    : M (option Blob) :=
  let! finalCanvas :=
    composeCanvas p image rect margins offset isSquare bgColor outputSize in
  match format with
  | png => encodePng p finalCanvas
  | gif => try_catch (gifTry p finalCanvas bgColor) (gifFallback p finalCanvas)
  end.

Definition updateLinePosition (type : LineType) (index : nat) (newPct : Qc)
    (st : AppState) : option AppState :=
  let pct := Math_max 0 (Math_min (Qc_of_Z 100) newPct) in
  match type with
  | row =>
      next ← array_set (rowPositions st) index (Number_toFixed2 pct);
      Some (setRowPositions (sort_numeric next) st)
  | col =>
      next ← array_set (colPositions st) index (Number_toFixed2 pct);
      Some (setColPositions (sort_numeric next) st)
  end.

(** [handleMove] of [onLineDragStart] in part_000. *)
Definition handleMove (type : LineType) (index : nat) (rect : DOMRect)
    (ev : PointerEvent) (st : AppState) : option AppState :=
  pct ← dragPct type rect ev;
  updateLinePosition type index pct st.

(** [handleNudge] closes over the [rowPositions] and [colPositions] of the
    render that defined it, and reads the line's value there;
    [updateLinePosition] then goes through [setRowPositions(prev => ...)]
    and so writes into the array of the moment.  [render] is the state of
    the render the function belongs to, [st] the state when it is called.
    The nudge buttons call the [handleNudge] of the render on screen
    ([render = st]); the key listener calls the one of the render in which
    the listener was installed.  A line index outside the array that is
    read gives [undefined], then [NaN], which is written at that index:
    that is outside the model. *)
Definition handleNudge (dir : Dir) (fast : bool) (line : LineType * nat)
    (render st : AppState) : option AppState :=
  let step := if fast then num 2.0 else num 0.2 in
  let currentArr :=
    match line.1 with row => rowPositions render | col => colPositions render end in
  currentVal ← currentArr !! line.2;
  let newVal :=
    match line.1 with
    | row =>
        let v := if decide (dir = dir_up) then currentVal - step else currentVal in
        if decide (dir = dir_down) then v + step else v
    | col =>
        let v := if decide (dir = dir_left) then currentVal - step else currentVal in
        if decide (dir = dir_right) then v + step else v
    end in
  updateLinePosition line.1 line.2 newVal st.

(** [dirMap[e.key]] *)
Definition dirMap (k : Key) : option Dir :=
  match k with
  | ArrowUp => Some dir_up
  | ArrowDown => Some dir_down
  | ArrowLeft => Some dir_left
  | ArrowRight => Some dir_right
  | _ => None
  end.

(** The [keydown] listener.  Its effect has the dependency list
    [[selectedLine, history, historyIndex, rows, cols]]: the listener is
    replaced when one of these changes, so what it reads of them is what
    [st] holds.  The line arrays are not in the list: the [handleNudge] the
    listener calls is the one of [render], the render in which the listener
    was installed, and a drag or an earlier nudge may have moved the lines
    since. *)
Definition handleKeyDown (e : KeyboardEvent) (render st : AppState)
    : option AppState :=
  if targetIsInput e then Some st
  else if ctrlOrMeta e && bool_decide (key e = KeyZ) then
    Some (if shiftKey e then handleRedo st else handleUndo st)
  else
    match selectedLine st with
    | Some line =>
        if bool_decide (key e ∈ [ArrowUp; ArrowDown; ArrowLeft; ArrowRight]) then
          match dirMap (key e) with
          | Some dir => handleNudge dir (shiftKey e) line render st
          | None => Some st
          end
        else Some st
    | None => Some st
    end.

(** [handleUp] of [onLineDragStart]: the snapshot is taken from the
    position refs; [rows] and [cols] are those of the render in which the
    drag began, which no handler changes while the pointer is down. *)
Definition handleUp (st : AppState) : AppState := addToHistory (snapshot st) st.

Definition handleSplit := handleSplit generateImageBlob.

End Part000.

(** ** Predicates used in the statements *)

Definition strictly_increasing (l : list Qc) : Prop :=
  ∀ (i j : nat) (a b : Qc),
    (i < j)%nat → l !! i = Some a → l !! j = Some b → a < b.

Definition non_decreasing (l : list Qc) : Prop :=
  ∀ (i j : nat) (a b : Qc),
    (i < j)%nat → l !! i = Some a → l !! j = Some b → a ≤ b.

(** A value with at most two decimals: a whole number of hundredths. *)
Definition two_decimals (v : Qc) : Prop :=
  ∃ k : Z, v = Q2Qc (inject_Z k / 100).

(** A percentage, and an array of percentages. *)
Definition percentage (v : Qc) : Prop := 0 ≤ v ∧ v ≤ Qc_of_Z 100.
Definition percentages (l : list Qc) : Prop := Forall percentage l.

(** The line array of one axis, and of the other one. *)
Definition axis (type : LineType) (st : AppState) : list Qc :=
  match type with row => rowPositions st | col => colPositions st end.
Definition other_axis (type : LineType) (st : AppState) : list Qc :=
  match type with row => colPositions st | col => rowPositions st end.

(** The history pointer is [-1] (nothing recorded) or points into the stack. *)
Definition history_wf (st : AppState) : Prop :=
  (-1 ≤ historyIndex st < Z.of_nat (length (history st)))%Z.

(** The entry the history pointer designates. *)
Definition history_top (st : AppState) : option HistoryState :=
  if decide (0 ≤ historyIndex st)%Z
  then history st !! Z.to_nat (historyIndex st) else None.

(** The direction a nudge moves a line of the given axis: rows answer to
    up and down, columns to left and right. *)
Definition nudge_sign (type : LineType) (dir : Dir) : Z :=
  match type, dir with
  | row, dir_up | col, dir_left => (-1)%Z
  | row, dir_down | col, dir_right => 1%Z
  | _, _ => 0%Z
  end.

(** The arrow keys that move a line towards the start of its axis. *)
Definition towards_start (k : Key) : bool :=
  bool_decide (k = ArrowUp ∨ k = ArrowLeft).

(** The bound the key handler of [src/App.tsx] keeps a line away from: the
    neighbouring line in the direction of travel, [-10] before the first
    line and [110] after the last. *)
Definition neighbour_limit (arr : list Qc) (idx : nat) (k : Key) : option Qc :=
  if towards_start k then
    (if decide (0 < idx)%nat then arr !! (idx - 1)%nat else Some (- Qc_of_Z 10))
  else
    (if decide (idx < length arr - 1)%nat then arr !! (idx + 1)%nat
     else Some (Qc_of_Z 110)).

Global Instance percentage_dec (v : Qc) : Decision (percentage v).
Proof. unfold percentage. apply _. Defined.
Global Instance percentages_dec (l : list Qc) : Decision (percentages l).
Proof. unfold percentages. apply _. Defined.

(** ** Named pieces of the compositor's result *)

(** The canvas store replaced, the rest of the page as it was. *)
Definition with_canvases (cs : list Canvas) (wd : World) : World :=
  {| canvases := cs; objectURLs := objectURLs wd;
     alerts := alerts wd; console_error := console_error wd |}.

(** The base canvas [generateImageBlob] builds: the sizes [canvasWidth] and
    [canvasHeight] the source computes, the size the canvas takes when they
    are assigned, and the background and image drawing calls (which get the
    computed numbers, not the canvas's). *)
Definition canvasWidth_of (rect : Rect) (margins : Margins) (isSquare : bool) : Qc :=
  let cw := w rect + left margins + right margins in
  let ch := h rect + top margins + bottom margins in
  if isSquare then Math_max cw ch else cw.

Definition canvasHeight_of (rect : Rect) (margins : Margins) (isSquare : bool) : Qc :=
  let cw := w rect + left margins + right margins in
  let ch := h rect + top margins + bottom margins in
  if isSquare then Math_max cw ch else ch.

Definition background_op (bgColor : string) (cw ch : Qc) : DrawOp :=
  if decide (bgColor = "white") then fillRect "#ffffff" 0 0 cw ch
  else clearRect 0 0 cw ch.

Definition base_canvas (rect : Rect) (margins : Margins) (offset : Offset)
    (isSquare : bool) (bgColor : string) : Canvas :=
  let cw := canvasWidth_of rect margins isSquare in
  let ch := canvasHeight_of rect margins isSquare in
  let contentW := w rect + left margins + right margins in
  let contentH := h rect + top margins + bottom margins in
  {| width := canvas_dimension 300 cw; height := canvas_dimension 150 ch;
     ops := [background_op bgColor cw ch;
             drawImage (x rect) (y rect) (w rect) (h rect)
               ((cw - contentW) / 2 + left margins + ox offset)
               ((ch - contentH) / 2 + top margins + oy offset)
               (w rect) (h rect)] |}.

(** The second canvas, of the requested output size, drawn from canvas
    [base] when its context is available and left blank otherwise. *)
Definition resize_canvas (p : Platform) (id base : nat) (bgColor : string) (n : Qc)
    : Canvas :=
  {| width := canvas_dimension 300 n; height := canvas_dimension 150 n;
     ops := if getContext_2d p id then
              (if decide (bgColor = "white") then [fillRect "#ffffff" 0 0 n n] else [])
              ++ [drawCanvas base 0 0 n n]
            else [] |}.

Definition blank_canvas (n : Qc) : Canvas := {| width := n; height := n; ops := [] |}.

(** The canvas that was assigned the output size [n] and never drawn on. *)
Definition blank_output_canvas (n : Qc) : Canvas :=
  {| width := canvas_dimension 300 n; height := canvas_dimension 150 n; ops := [] |}.

(** A computation that reads the page but changes nothing in it. *)
Definition read_only {A} (m : M A) : Prop :=
  ∀ wd, (m wd).2 = wd.

(** The page after the [catch] block of the [gif] branch has run. *)
Definition after_gif_fallback (e : string) (wd : World) : World :=
  {| canvases := canvases wd; objectURLs := objectURLs wd;
     alerts := alerts wd ++ ["GIF generation failed, falling back to PNG."];
     console_error := console_error wd ++ ["GIF generation error: " +:+ e] |}.

(** What [toBlob] hands over for a canvas. *)
Definition png_of (p : Platform) (c : Canvas) : option Blob :=
  if toBlob_png p c then Some (PngBlob c) else None.

(** ** Sample inputs *)

(** A browser in which every canvas has a context and PNG encoding works,
    but the GIF library cannot be imported. *)
Definition platform_without_gif : Platform :=
  {| getContext_2d := λ _, true; toBlob_png := λ _, true;
     getImageData := λ _, None; import_gifenc := None;
     import_esm_gifenc := None |}.

(** A browser in which the second canvas created gets no 2D context. *)
Definition platform_second_canvas_fails : Platform :=
  {| getContext_2d := λ id, negb (Nat.eqb id 1); toBlob_png := λ _, true;
     getImageData := λ _, None; import_gifenc := None;
     import_esm_gifenc := None |}.

Definition image_400 : Image :=
  {| naturalWidth := Qc_of_Z 400; naturalHeight := Qc_of_Z 400 |}.

Definition rect_200 : Rect :=
  {| x := 0; y := 0; w := Qc_of_Z 200; h := Qc_of_Z 200 |}.

Definition no_margins : Margins := {| top := 0; bottom := 0; left := 0; right := 0 |}.
Definition no_offset : Offset := {| ox := 0; oy := 0 |}.

(** The state after an image was loaded and the grid set to 2 x 2. *)
Definition state_2x2 : AppState :=
  handleColChange 2 (handleRowChange 2 (handleUpload image_400 initialState)).

(** A result set of two cells, and the second one being edited. *)
Definition sample_result (n : Z) : SplitResult :=
  {| sr_id := n; sr_dataUrl := Z.to_nat n;
     sr_blob := PngBlob (blank_canvas (Qc_of_Z 200));
     sr_extension := png; sr_originalRect := rect_200;
     sr_margins := None; sr_offset := None; sr_isSquare := None;
     sr_bgColor := None; sr_outputSize := Some auto |}.

Definition state_editing : AppState :=
  setEditingResult (Some (sample_result 1))
    (setResults (Some [sample_result 0; sample_result 1]) state_2x2).


(** ** Predicates for the further properties *)

(** A result as the split loop builds it: the chosen format and output
    size, and none of the keys a fine-tune save adds. *)
Definition untouched_result (st : AppState) (res : SplitResult) : Prop :=
  sr_extension res = format st ∧ sr_outputSize res = Some (outputSize st)
  ∧ sr_margins res = None ∧ sr_offset res = None
  ∧ sr_isSquare res = None ∧ sr_bgColor res = None.

(** A browser with a working GIF library: one palette entry, every pixel
    mapped to index 0, and an encoder that answers the frame size followed
    by the transparent index (or -1) and the index stream. *)
Definition sample_gifenc : GifModule :=
  {| GIFEncoder :=
       Some (λ index (w h : Qc) palette transparent,
               Some (Qfloor w :: Qfloor h :: default (-1)%Z transparent :: index));
     quantize := Some (λ data n, Some [[0; 0; 0; 0]%Z]);
     applyPalette := Some (λ data palette, Some ((λ _, 0%Z) <$> data)) |}.

Definition platform_with_gif : Platform :=
  {| getContext_2d := λ _, true; toBlob_png := λ _, true;
     getImageData := λ c, Some [0; 0; 0; 0]%Z;
     import_gifenc := Some sample_gifenc; import_esm_gifenc := None |}.

(** A browser whose bundled GIF library lacks [quantize], while the copy on
    the CDN is complete. *)
Definition platform_gif_on_cdn : Platform :=
  {| getContext_2d := λ _, true; toBlob_png := λ _, true;
     getImageData := λ c, Some [0; 0; 0; 0]%Z;
     import_gifenc :=
       Some {| GIFEncoder := GIFEncoder sample_gifenc; quantize := None;
               applyPalette := applyPalette sample_gifenc |};
     import_esm_gifenc := Some sample_gifenc |}.

(** A browser with a working GIF library in which a canvas without pixels
    (width or height 0) cannot be read or encoded: [getImageData] throws
    and [toBlob] hands over [null]. *)
Definition platform_without_pixels : Platform :=
  {| getContext_2d := λ _, true;
     toBlob_png := λ c, negb (bool_decide (width c = 0 ∨ height c = 0));
     getImageData :=
       λ c, if bool_decide (width c = 0 ∨ height c = 0) then None
            else Some [0; 0; 0; 0]%Z;
     import_gifenc := Some sample_gifenc; import_esm_gifenc := None |}.

(** A region the width buttons of the fine-tune dialog have brought to 0. *)
Definition rect_zero_width : Rect :=
  {| x := 0; y := 0; w := 0; h := Qc_of_Z 200 |}.

(** A browser with a working GIF library in which the second canvas
    created gets no 2D context. *)
Definition platform_gif_second_canvas_fails : Platform :=
  {| getContext_2d := λ id, negb (Nat.eqb id 1); toBlob_png := λ _, true;
     getImageData := λ c, Some [0; 0; 0; 0]%Z;
     import_gifenc := Some sample_gifenc; import_esm_gifenc := None |}.

(** A line array as part_000 keeps it: at least the two end lines, in
    ascending order, each a percentage with two decimals. *)
Definition line_array_ok (l : list Qc) : Prop :=
  (2 ≤ length l)%nat ∧ non_decreasing l ∧ percentages l ∧ Forall two_decimals l.

Definition snapshot_ok (s : HistoryState) : Prop :=
  line_array_ok (hs_rowPositions s) ∧ line_array_ok (hs_colPositions s).

(** The live grid and every recorded one. *)
Definition grid_ok (st : AppState) : Prop :=
  line_array_ok (rowPositions st) ∧ line_array_ok (colPositions st)
  ∧ Forall snapshot_ok (history st).

(** Lines as the arrow keys of [src/App.tsx] keep them: neighbours at
    least 0.1 apart, two decimals, and every value between the stand-ins
    for the ends, moved in by 0.1. *)
Definition spaced (l : list Qc) : Prop :=
  ∀ (i : nat) (a b : Qc), l !! i = Some a → l !! S i = Some b → a + num 0.1 ≤ b.

Definition keyboard_range (v : Qc) : Prop := - num 9.9 ≤ v ∧ v ≤ num 109.9.

Definition keyboard_ok (l : list Qc) : Prop :=
  spaced l ∧ Forall two_decimals l ∧ Forall keyboard_range l.

(** ** A whole drag: pointer down, moves, release

    [onLineDragStart] installs [handleMove] and [handleUp] as listeners;
    they run with the values of the render in which the pointer went down
    ([start]) while the hooks go on changing.  [moves] are the move events
    up to the release; no other handler runs in between. *)

Module AppTsxDrag.

(** [handleUp] of [src/App.tsx]: [addToHistory] is called with the grid of
    [start], and reads [historyIndex] from that render too; the updater of
    [setHistory] gets the history of the moment. *)
Definition handleUp (start st : AppState) : AppState :=
  let newState := {| hs_rows := rows start; hs_cols := cols start;
                     hs_rowPositions := rowPositions start;
                     hs_colPositions := colPositions start |} in
  if isUndoRedo st then st
  else
    let current := slice0 (history st) (historyIndex start + 1) in
    match last current with
    | Some l =>
        if decide (l = newState) then setHistory current st
        else
          let next := (current ++ [newState])%list in
          setHistoryIndex (Z.of_nat (length next) - 1) (setHistory next st)
    | None =>
        let next := (current ++ [newState])%list in
        setHistoryIndex (Z.of_nat (length next) - 1) (setHistory next st)
    end.

Definition onLineDragStart (type : LineType) (index : nat) (rect : DOMRect)
    (moves : list PointerEvent) (start : AppState) : option AppState :=
  st ← foldl (λ acc ev, acc ≫= AppTsx.handleMove type index rect ev) (Some start) moves;
  Some (handleUp start st).

End AppTsxDrag.

Module Part000Drag.

Definition onLineDragStart (type : LineType) (index : nat) (rect : DOMRect)
    (moves : list PointerEvent) (start : AppState) : option AppState :=
  st ← foldl (λ acc ev, acc ≫= Part000.handleMove type index rect ev) (Some start) moves;
  Some (Part000.handleUp st).

End Part000Drag.

(** A container of 400 by 400 pixels at the origin, and a pointer at
    (100, 300). *)
Definition rect_400 : DOMRect :=
  {| rect_top := 0; rect_left := 0;
     rect_width := Qc_of_Z 400; rect_height := Qc_of_Z 400 |}.

Definition pointer_100_300 : PointerEvent :=
  {| clientX := Qc_of_Z 100; clientY := Qc_of_Z 300 |}.

(** ** The events of part_000 that touch the grid

    Each event runs its handler on the current state.  A nudge button runs
    the [handleNudge] of the render on screen; a key press runs the
    listener of some earlier render, which the event names.  A drag is
    taken whole, from the pointer going down to its release, with nothing
    else in between: its [handleUp] belongs to the render in which the drag
    began.  An event whose handler leaves the number model has no successor
    state here: a drag over a container of extent zero, and a drag or nudge
    of a line index that the array read or written does not have (the
    selection is kept when the counts shrink, so the source can get there:
    it then writes [NaN] at that index). *)

Inductive GridEvent :=
  | ev_upload (img : Image)
  | ev_rowChange (n : Z)
  | ev_colChange (n : Z)
  | ev_reset
  | ev_select (line : option (LineType * nat))
  | ev_drag (type : LineType) (index : nat) (rect : DOMRect)
            (moves : list PointerEvent)
  | ev_nudge (dir : Dir) (fast : bool) (line : LineType * nat)
  | ev_key (e : KeyboardEvent) (render : AppState)
  | ev_undo
  | ev_redo
  | ev_timeout.

Definition part000_handle (e : GridEvent) (st : AppState) : option AppState :=
  match e with
  | ev_upload img => Some (handleUpload img st)
  | ev_rowChange n => Some (handleRowChange n st)
  | ev_colChange n => Some (handleColChange n st)
  | ev_reset => Some (onResetGrid st)
  | ev_select line => Some (setSelectedLine line st)
  | ev_drag type index rect moves =>
      Part000Drag.onLineDragStart type index rect moves st
  | ev_nudge dir fast line => Part000.handleNudge dir fast line st st
  | ev_key e render => Part000.handleKeyDown e render st
  | ev_undo => Some (handleUndo st)
  | ev_redo => Some (handleRedo st)
  | ev_timeout => Some (undoRedoTimeout st)
  end.

(** The events run one after the other. *)
Fixpoint part000_run (events : list GridEvent) (st : AppState) : option AppState :=
  match events with
  | [] => Some st
  | e :: events' => st' ← part000_handle e st; part000_run events' st'
  end.

(** Does the key press reach [handleNudge] when a line is selected. *)
Definition key_nudges (e : KeyboardEvent) : bool :=
  negb (targetIsInput e)
  && negb (ctrlOrMeta e && bool_decide (key e = KeyZ))
  && bool_decide (key e ∈ [ArrowUp; ArrowDown; ArrowLeft; ArrowRight]).

(** The event stays inside the number model: a drag that moves has a
    container of non-zero extent, and the line a drag or nudge addresses
    exists in the array that is read and in the array that is written. *)
Definition event_in_range (e : GridEvent) (st : AppState) : bool :=
  match e with
  | ev_drag type index rect moves =>
      match moves with
      | [] => true
      | _ =>
          bool_decide (index < length (axis type st))%nat
          && bool_decide
               ((if bool_decide (type = row) then rect_height rect
                 else rect_width rect) ≠ 0)
      end
  | ev_nudge dir fast line => bool_decide (line.2 < length (axis line.1 st))%nat
  | ev_key e render =>
      match selectedLine st with
      | Some line =>
          if key_nudges e then
            bool_decide (line.2 < length (axis line.1 render))%nat
            && bool_decide (line.2 < length (axis line.1 st))%nat
          else true
      | None => true
      end
  | _ => true
  end.

(** Every event of the sequence is in range at the state it meets. *)
Fixpoint events_in_range (events : list GridEvent) (st : AppState) : bool :=
  match events with
  | [] => true
  | e :: events' =>
      event_in_range e st
      && match part000_handle e st with
         | Some st' => events_in_range events' st'
         | None => false
         end
  end.

(** ** The result gallery: navigation and download (same text in both files) *)

(** [results.findIndex(r => r.id === id)]: the first position, or [-1]. *)
Definition findIndex (id : Z) (rs : list SplitResult) : Z :=
  match list_find (λ r, sr_id r = id) rs with
  | Some (i, _) => Z.of_nat i
  | None => (-1)%Z
  end.

(** The value [handleNextEdit] hands to [setEditingResult], if it calls it;
    [results[idx + 1]] is [undefined] outside the array. *)
Definition nextEditTarget (st : AppState) : option (option SplitResult) :=
  match editingResult st, results st with
  | Some editing, Some rs =>
      let idx := findIndex (sr_id editing) rs in
      if decide (idx < Z.of_nat (length rs) - 1)%Z
      then Some (rs !! Z.to_nat (idx + 1)) else None
  | _, _ => None
  end.

Definition prevEditTarget (st : AppState) : option (option SplitResult) :=
  match editingResult st, results st with
  | Some editing, Some rs =>
      let idx := findIndex (sr_id editing) rs in
      if decide (idx > 0)%Z then Some (rs !! Z.to_nat (idx - 1)) else None
  | _, _ => None
  end.

Definition handleNextEdit (st : AppState) : AppState :=
  match nextEditTarget st with
  | Some v => setEditingResult v st
  | None => st
  end.

Definition handlePrevEdit (st : AppState) : AppState :=
  match prevEditTarget st with
  | Some v => setEditingResult v st
  | None => st
  end.

(** The props [hasNext] and [hasPrev] of the dialog. *)
Definition hasNext (st : AppState) : bool :=
  match editingResult st, results st with
  | Some editing, Some rs =>
      bool_decide (findIndex (sr_id editing) rs < Z.of_nat (length rs) - 1)%Z
  | _, _ => false
  end.

Definition hasPrev (st : AppState) : bool :=
  match editingResult st, results st with
  | Some editing, Some rs => bool_decide (findIndex (sr_id editing) rs > 0)%Z
  | _, _ => false
  end.

Definition extension_string (f : Format) : string :=
  match f with png => "png" | gif => "gif" end.

(** [`split_${res.id + 1}.${res.extension}`] *)
Definition fileName (res : SplitResult) : string :=
  "split_" +:+ pretty (sr_id res + 1)%Z +:+ "." +:+ extension_string (sr_extension res).

(** [handleDownloadAll] up to [zip.generateAsync]: the files of the
    archive, by name; [zip.file] replaces a file of the same name.  [None]
    when there are no results (nothing is downloaded). *)
Definition handleDownloadAll (st : AppState) : option (gmap string Blob) :=
  rs ← results st;
  Some (foldl (λ zip res, <[fileName res := sr_blob res]> zip) ∅ rs).

(** ** The fine-tune dialog: [SingleAdjustModal]

    The hooks and the two preference refs of the dialog.  Apart from
    [handleKeyDown_arrows], which only [src/App.tsx] has, the text embedded
    here is the same in both files.  The mouse handlers of the preview are
    not embedded. *)

Module SingleAdjustModal.

Inductive Tab := tab_crop | tab_layout.
Inductive Tool := tool_move | tool_pan.
Inductive Direction := nav_next | nav_prev | nav_close.

Record ModalState := {
  m_rect : Rect;
  m_margins : Margins;
  m_offset : Offset;
  m_isSquare : bool;
  m_bgColor : string;
  activeTab : Tab;
  isSaving : bool;
  zoom : Qc;
  viewPan : Offset;
  isDragging : bool;
  dragStart : Offset;
  tool : Tool;
  userPrefBgColor : string;
  userPrefIsSquare : bool
}.

Definition setRect (v : Rect) (m : ModalState) : ModalState :=
  {| m_rect := v; m_margins := m_margins m; m_offset := m_offset m;
     m_isSquare := m_isSquare m; m_bgColor := m_bgColor m;
     activeTab := activeTab m; isSaving := isSaving m; zoom := zoom m;
     viewPan := viewPan m; isDragging := isDragging m; dragStart := dragStart m;
     tool := tool m; userPrefBgColor := userPrefBgColor m;
     userPrefIsSquare := userPrefIsSquare m |}.

Definition setMargins (v : Margins) (m : ModalState) : ModalState :=
  {| m_rect := m_rect m; m_margins := v; m_offset := m_offset m;
     m_isSquare := m_isSquare m; m_bgColor := m_bgColor m;
     activeTab := activeTab m; isSaving := isSaving m; zoom := zoom m;
     viewPan := viewPan m; isDragging := isDragging m; dragStart := dragStart m;
     tool := tool m; userPrefBgColor := userPrefBgColor m;
     userPrefIsSquare := userPrefIsSquare m |}.

Definition setOffset (v : Offset) (m : ModalState) : ModalState :=
  {| m_rect := m_rect m; m_margins := m_margins m; m_offset := v;
     m_isSquare := m_isSquare m; m_bgColor := m_bgColor m;
     activeTab := activeTab m; isSaving := isSaving m; zoom := zoom m;
     viewPan := viewPan m; isDragging := isDragging m; dragStart := dragStart m;
     tool := tool m; userPrefBgColor := userPrefBgColor m;
     userPrefIsSquare := userPrefIsSquare m |}.

Definition setIsSaving (v : bool) (m : ModalState) : ModalState :=
  {| m_rect := m_rect m; m_margins := m_margins m; m_offset := m_offset m;
     m_isSquare := m_isSquare m; m_bgColor := m_bgColor m;
     activeTab := activeTab m; isSaving := v; zoom := zoom m;
     viewPan := viewPan m; isDragging := isDragging m; dragStart := dragStart m;
     tool := tool m; userPrefBgColor := userPrefBgColor m;
     userPrefIsSquare := userPrefIsSquare m |}.

(** [s || ...] on an optional string: [undefined] and the empty string are
    both falsy. *)
Definition truthy (o : option string) : option string :=
  match o with
  | Some s => if decide (s = "") then None else Some s
  | None => None
  end.

(** [typeof result.outputSize === 'number'] *)
Definition isFixedSize (result : SplitResult) : bool :=
  match sr_outputSize result with
  | Some (size _) => true
  | _ => false
  end.

(** [result.outputSize || 'auto']: the number 0 is falsy. *)
Definition outputSize_or_auto (result : SplitResult) : OutputSize :=
  match sr_outputSize result with
  | Some (size n) => if decide (n = 0) then auto else size n
  | _ => auto
  end.

(** The initial values of the hooks and refs, at the first render. *)
Definition initial (result : SplitResult) : ModalState :=
  {| m_rect := sr_originalRect result;
     m_margins := default {| top := 0; bottom := 0; left := 0; right := 0 |}
                    (sr_margins result);
     m_offset := default {| ox := 0; oy := 0 |} (sr_offset result);
     m_isSquare := default false (sr_isSquare result);
     m_bgColor := default "white" (truthy (sr_bgColor result));
     activeTab := tab_crop; isSaving := false; zoom := 1;
     viewPan := {| ox := 0; oy := 0 |}; isDragging := false;
     dragStart := {| ox := 0; oy := 0 |}; tool := tool_move;
     userPrefBgColor := default "white" (truthy (sr_bgColor result));
     userPrefIsSquare := default false (sr_isSquare result) |}.

(** The effect on [[result]]: it runs after the first render and whenever
    the dialog is handed another result. *)
Definition resultEffect (result : SplitResult) (m : ModalState) : ModalState :=
  let fixed := isFixedSize result in
  {| m_rect := sr_originalRect result;
     m_margins := default {| top := 0; bottom := 0; left := 0; right := 0 |}
                    (sr_margins result);
     m_offset := default {| ox := 0; oy := 0 |} (sr_offset result);
     m_isSquare :=
       if fixed then true
       else match sr_isSquare result with
            | Some b => b
            | None => userPrefIsSquare m
            end;
     m_bgColor := default (userPrefBgColor m) (truthy (sr_bgColor result));
     activeTab := if fixed then tab_layout else activeTab m;
     isSaving := isSaving m; zoom := zoom m; viewPan := viewPan m;
     isDragging := isDragging m; dragStart := dragStart m; tool := tool m;
     userPrefBgColor := default (userPrefBgColor m) (truthy (sr_bgColor result));
     userPrefIsSquare :=
       if fixed then userPrefIsSquare m
       else default (userPrefIsSquare m) (sr_isSquare result) |}.

(** The dialog as it stands after it was opened on [result]. *)
Definition mount (result : SplitResult) : ModalState :=
  resultEffect result (initial result).

Definition handleBgChange (color : string) (m : ModalState) : ModalState :=
  {| m_rect := m_rect m; m_margins := m_margins m; m_offset := m_offset m;
     m_isSquare := m_isSquare m; m_bgColor := color;
     activeTab := activeTab m; isSaving := isSaving m; zoom := zoom m;
     viewPan := viewPan m; isDragging := isDragging m; dragStart := dragStart m;
     tool := tool m; userPrefBgColor := color;
     userPrefIsSquare := userPrefIsSquare m |}.

Definition handleIsSquareChange (val : bool) (m : ModalState) : ModalState :=
  {| m_rect := m_rect m; m_margins := m_margins m; m_offset := m_offset m;
     m_isSquare := val; m_bgColor := m_bgColor m;
     activeTab := activeTab m; isSaving := isSaving m; zoom := zoom m;
     viewPan := viewPan m; isDragging := isDragging m; dragStart := dragStart m;
     tool := tool m; userPrefBgColor := userPrefBgColor m;
     userPrefIsSquare := val |}.

(** [onChange] of the square checkbox:
    [!isFixedSize && handleIsSquareChange(e.target.checked)]. *)
Definition onSquareCheckbox (result : SplitResult) (checked : bool)
    (m : ModalState) : ModalState :=
  if isFixedSize result then m else handleIsSquareChange checked m.

(** The four [if (dir === ...)] lines, on a pair of coordinates. *)
Definition shift_x (dir : Dir) (val v : Qc) : Qc :=
  let v1 := if decide (dir = dir_left) then v - val else v in
  if decide (dir = dir_right) then v1 + val else v1.

Definition shift_y (dir : Dir) (val v : Qc) : Qc :=
  let v1 := if decide (dir = dir_up) then v - val else v in
  if decide (dir = dir_down) then v1 + val else v1.

Definition moveRect (dir : Dir) (val : Qc) (r : Rect) : Rect :=
  {| x := shift_x dir val (x r); y := shift_y dir val (y r); w := w r; h := h r |}.

Definition moveOffset (dir : Dir) (val : Qc) (o : Offset) : Offset :=
  {| ox := shift_x dir val (ox o); oy := shift_y dir val (oy o) |}.

Definition moveMargins (dir : Dir) (val : Qc) (mg : Margins) : Margins :=
  {| top := shift_y dir val (top mg); bottom := bottom mg;
     left := shift_x dir val (left mg); right := right mg |}.

Definition handleDirectionMove (dir : Dir) (val : Qc) (m : ModalState)
    : ModalState :=
  match activeTab m with
  | tab_crop => setRect (moveRect dir val (m_rect m)) m
  | tab_layout =>
      if m_isSquare m then setOffset (moveOffset dir val (m_offset m)) m
      else setMargins (moveMargins dir val (m_margins m)) m
  end.

(** The arrow-key block of [handleKeyDown] in [src/App.tsx], for an arrow
    key pressed without Alt; [dir] is the direction of the key. *)
Definition handleKeyDown_arrows (result : SplitResult) (shift : bool) (dir : Dir)
    (m : ModalState) : ModalState :=
  let step := if shift then Qc_of_Z 10 else 1 in
  match activeTab m with
  | tab_crop => setRect (moveRect dir step (m_rect m)) m
  | tab_layout =>
      if m_isSquare m || isFixedSize result
      then setOffset (moveOffset dir step (m_offset m)) m
      else setMargins (moveMargins dir step (m_margins m)) m
  end.

(** The effect that paints the preview on the canvas [canvasRef]. *)
Definition previewEffect (p : Platform) (canvasRef : nat) (m : ModalState)
    : M unit :=
  if negb (getContext_2d p canvasRef) then ret ()
  else
    let rect := m_rect m in
    let margins := m_margins m in
    let offset := m_offset m in
    let w0 := Math_max 1 (w rect + left margins + right margins) in
    let h0 := Math_max 1 (h rect + top margins + bottom margins) in
    let finalW := if m_isSquare m then Math_max w0 h0 else w0 in
    let finalH := if m_isSquare m then Math_max w0 h0 else h0 in
    set_width canvasRef finalW;;
    set_height canvasRef finalH;;
    (if decide (m_bgColor m = "white")
     then draw canvasRef (fillRect "#ffffff" 0 0 finalW finalH)
     else draw canvasRef (clearRect 0 0 finalW finalH));;
    let contentW := w rect + left margins + right margins in
    let contentH := h rect + top margins + bottom margins in
    let startX := (finalW - contentW) / 2 + left margins + ox offset in
    let startY := (finalH - contentH) / 2 + top margins + oy offset in
    let safeRectW := Math_max 1 (w rect) in
    let safeRectH := Math_max 1 (h rect) in
    draw canvasRef (drawImage (x rect) (y rect) safeRectW safeRectH
                              startX startY safeRectW safeRectH).

(** The [extra] object of [handleSaveWithNavigation]. *)
Definition saveExtra (m : ModalState) : Extra :=
  {| ex_id := None; ex_dataUrl := None; ex_blob := None; ex_extension := None;
     ex_originalRect := Some (m_rect m); ex_margins := Some (m_margins m);
     ex_offset := Some (m_offset m); ex_isSquare := Some (m_isSquare m);
     ex_bgColor := Some (m_bgColor m); ex_outputSize := None |}.

(** [handleSaveWithNavigation]: [onSave], [onNext] and [onPrev] are the
    handlers of the render [st] of [App] in which the dialog was drawn, so
    the neighbour is looked up in the results of before the save.  When
    [generateImageBlob] rejects, the function ends there, with [isSaving]
    still set. *)
Definition handleSaveWithNavigation
    (generateImageBlob : Platform → Image → Rect → Margins → Offset → bool →
                         string → OutputSize → Format → M (option Blob))
    (p : Platform) (srcImage : Image) (result : SplitResult)
    (direction : Direction) (m : ModalState) (st : AppState)
    : M (ModalState * AppState) :=
  let m1 := setIsSaving true m in
  let format := sr_extension result in
  let! blob :=
    generateImageBlob p srcImage (m_rect m) (m_margins m) (m_offset m)
      (m_isSquare m) (m_bgColor m) (outputSize_or_auto result) format in
  let! st1 :=
    handleSaveSingle blob (saveExtra m)
      (match direction with nav_close => action_close | _ => action_stay end) st in
  let m2 := setIsSaving false m1 in
  match direction with
  | nav_next =>
      ret (m2, match nextEditTarget st with
               | Some v => setEditingResult v st1
               | None => st1
               end)
  | nav_prev =>
      ret (m2, match prevEditTarget st with
               | Some v => setEditingResult v st1
               | None => st1
               end)
  | nav_close => ret (m2, st1)
  end.

End SingleAdjustModal.

(** In a dialog on a result of fixed output size the square setting is on. *)
Definition fixed_is_square (result : SplitResult)
    (m : SingleAdjustModal.ModalState) : Prop :=
  SingleAdjustModal.isFixedSize result = true →
  SingleAdjustModal.m_isSquare m = true.

(** A result as saved from the dialog, with margins and a white square. *)
Definition sample_saved_result : SplitResult :=
  {| sr_id := 1; sr_dataUrl := 1;
     sr_blob := PngBlob (blank_canvas (Qc_of_Z 200));
     sr_extension := png; sr_originalRect := rect_200;
     sr_margins := Some {| top := 1; bottom := 2; left := Qc_of_Z 3; right := Qc_of_Z 4 |};
     sr_offset := Some {| ox := 0; oy := 0 |}; sr_isSquare := Some true;
     sr_bgColor := Some "white"; sr_outputSize := Some (size (Qc_of_Z 128)) |}.

(** ** The preview pane: zoom and fit *)

Module PreviewArea.

Record PreviewState := {
  zoom : Qc;
  pan : Offset;
  imgDim : Qc * Qc
}.

(** [handleZoom], the same in both files. *)
Definition handleZoom (delta : Qc) (s : PreviewState) : PreviewState :=
  {| zoom := Math_max (num 0.1) (Math_min (Qc_of_Z 5) (zoom s + delta));
     pan := pan s; imgDim := imgDim s |}.

(** [fitImageToScreen] of part_000.  [container] is the bounding rectangle
    of [containerRef.current], [img] the element [#preview-img], each
    [None] when absent; [innerWidth] is [window.innerWidth].  A natural
    size of 0 is falsy. *)
Definition fitImageToScreen (container : option DOMRect) (img : option Image)
    (innerWidth : Qc) (s : PreviewState) : PreviewState :=
  match container with
  | None => s
  | Some rect =>
      match img with
      | Some i =>
          if decide (naturalWidth i ≠ 0 ∧ naturalHeight i ≠ 0) then
            let isMobile := bool_decide (innerWidth < Qc_of_Z 768) in
            let padX := if isMobile then Qc_of_Z 32 else Qc_of_Z 64 in
            let padY := if isMobile then Qc_of_Z 80 else Qc_of_Z 80 in
            let scaleX := (rect_width rect - padX) / naturalWidth i in
            let scaleY := (rect_height rect - padY) / naturalHeight i in
            let scale := Math_min (Math_min scaleX scaleY) 1 in
            {| zoom := scale; pan := {| ox := 0; oy := 0 |};
               imgDim := (naturalWidth i, naturalHeight i) |}
          else s
      | None => s
      end
  end.

End PreviewArea.

(** ** The row and column count inputs of the sidebar *)

(** [parseInt(e.target.value) || d]: [parsed] is the integer [parseInt]
    reads, [None] for [NaN]; [NaN] and 0 are falsy. *)
Definition parseInt_or (parsed : option Z) (d : Z) : Z :=
  match parsed with
  | Some v => if decide (v = 0%Z) then d else v
  | None => d
  end.

(** What the user does to a [CompactNumberInput] of part_000. *)
Inductive CountInput :=
  | click_minus
  | click_plus
  | typed (parsed : option Z).

(** The value [CompactNumberInput] hands to [onChange]. *)
Definition CompactNumberInput (value min max : Z) (ev : CountInput) : Z :=
  match ev with
  | click_minus => Z.max min (value - 1)
  | click_plus => Z.min max (value + 1)
  | typed parsed => Z.max min (parseInt_or parsed min)
  end.

(** [onChange] of the row and column inputs of [src/App.tsx]:
    [Math.max(1, parseInt(e.target.value) || 1)]. *)
Definition AppTsx_countInput (parsed : option Z) : Z :=
  Z.max 1 (parseInt_or parsed 1%Z).

(** A preview pane of 1000 by 700 pixels. *)
Definition rect_1000_700 : DOMRect :=
  {| rect_top := 0; rect_left := 0;
     rect_width := Qc_of_Z 1000; rect_height := Qc_of_Z 700 |}.

(** * Proofs *)

(** ** Arithmetic on rationals

    Goals on [Qc] are moved to [Q], where [lra] and [nra] work. *)

Ltac qc2q :=
  unfold num, Qcle, Qclt, Qcdiv, Qcminus, Qcinv, Qcplus, Qcmult, Qcopp, Qc_of_Z, Q2Qc in *;
  cbn [this] in *; rewrite ?Qred_correct in *;
  unfold Qdiv in *;
  change (/ 2)%Q with (1 # 2)%Q in *;
  change (/ 100)%Q with (1 # 100)%Q in *;
  change (inject_Z 100) with 100%Q in *;
  change (inject_Z 1) with 1%Q in *;
  change (inject_Z 0) with 0%Q in *.

Lemma Qfloor_ge_Z (k : Z) (q : Q) : (inject_Z k <= q)%Q → (k ≤ Qfloor q)%Z.
Proof.
  intros H. pose proof (Qlt_floor q) as H2.
  assert (inject_Z k < inject_Z (Qfloor q + 1))%Q as H3 by (eapply Qle_lt_trans; eauto).
  rewrite <- Zlt_Qlt in H3. lia.
Qed.

Lemma Qfloor_add1_le (p q : Q) : (p + 1 <= q)%Q → (Qfloor p + 1 ≤ Qfloor q)%Z.
Proof.
  intros H. apply Qfloor_ge_Z. rewrite inject_Z_plus.
  pose proof (Qfloor_le p). change (inject_Z 1) with 1%Q. lra.
Qed.

Lemma Number_toFixed2_nonneg (v : Qc) :
  0 ≤ v → Number_toFixed2 v = Q2Qc (inject_Z (Qfloor (v * 100 + 1 / 2)) / 100).
Proof. intros H. unfold Number_toFixed2. by rewrite decide_True. Qed.

Lemma Q2Qc_hundredths_le (k1 k2 : Z) :
  (k1 ≤ k2)%Z → Q2Qc (inject_Z k1 / 100) ≤ Q2Qc (inject_Z k2 / 100).
Proof.
  intros H. qc2q. rewrite Zle_Qle in H.
  lra.
Qed.

Lemma Q2Qc_hundredths_lt (k1 k2 : Z) :
  (k1 < k2)%Z → Q2Qc (inject_Z k1 / 100) < Q2Qc (inject_Z k2 / 100).
Proof.
  intros H. qc2q. rewrite Zlt_Qlt in H.
  lra.
Qed.

Lemma Number_toFixed2_mono (a b : Qc) :
  0 ≤ a → a ≤ b → Number_toFixed2 a ≤ Number_toFixed2 b.
Proof.
  intros Ha Hab. rewrite !Number_toFixed2_nonneg by (done || by etrans).
  apply Q2Qc_hundredths_le, Qfloor_resp_le. qc2q. lra.
Qed.

Lemma Number_toFixed2_strict (a b : Qc) :
  0 ≤ a → a + num 0.01 ≤ b → Number_toFixed2 a < Number_toFixed2 b.
Proof.
  intros Ha Hab.
  assert (0 ≤ b) as Hb by (qc2q; lra).
  rewrite !Number_toFixed2_nonneg by done.
  apply Q2Qc_hundredths_lt.
  assert (Qfloor (a * 100 + 1 / 2) + 1 ≤ Qfloor (b * 100 + 1 / 2))%Z; [|lia].
  apply Qfloor_add1_le. qc2q. lra.
Qed.

Lemma Number_toFixed2_Z (k : Z) : (0 ≤ k)%Z → Number_toFixed2 (Qc_of_Z k) = Qc_of_Z k.
Proof.
  intros Hk. rewrite Number_toFixed2_nonneg.
  2:{ qc2q. rewrite (Zle_Qle 0 k) in Hk. exact Hk. }
  unfold Qc_of_Z at 1; cbn [this].
  assert (Qfloor (inject_Z k * 100 + 1 / 2) = k * 100)%Z as ->.
  { apply Z.le_antisymm.
    - assert (Qfloor (inject_Z k * 100 + 1 / 2) < k * 100 + 1)%Z; [|lia].
      rewrite Zlt_Qlt. eapply Qle_lt_trans; [apply Qfloor_le|].
      rewrite inject_Z_plus, inject_Z_mult. qc2q. lra.
    - apply Qfloor_ge_Z. rewrite inject_Z_mult. qc2q. lra. }
  apply Qc_is_canon. rewrite inject_Z_mult. qc2q. field.
Qed.

Lemma generatePositions_length (n : Z) :
  (1 ≤ n)%Z → length (generatePositions n) = Z.to_nat (n + 1).
Proof.
  intros Hn. unfold generatePositions. rewrite decide_False by lia.
  by rewrite length_fmap, length_seqZ.
Qed.

Lemma generatePositions_lookup (n : Z) (i : nat) :
  (1 ≤ n)%Z → (Z.of_nat i ≤ n)%Z →
  generatePositions n !! i =
    Some (Number_toFixed2 (Qc_of_Z (Z.of_nat i) * (Qc_of_Z 100 / Qc_of_Z n))).
Proof.
  intros Hn Hi. unfold generatePositions. rewrite decide_False by lia.
  rewrite list_lookup_fmap, lookup_seqZ_lt by lia. done.
Qed.

Lemma generatePositions_lookup_Some (n : Z) (i : nat) (a : Qc) :
  (1 ≤ n)%Z → generatePositions n !! i = Some a →
  (Z.of_nat i ≤ n)%Z ∧
  a = Number_toFixed2 (Qc_of_Z (Z.of_nat i) * (Qc_of_Z 100 / Qc_of_Z n)).
Proof.
  intros Hn Hl.
  assert (i < length (generatePositions n))%nat as Hlt by (by eapply lookup_lt_Some).
  rewrite generatePositions_length in Hlt by done.
  assert (Z.of_nat i ≤ n)%Z as Hi by lia. split; [done|].
  rewrite generatePositions_lookup in Hl by done. congruence.
Qed.

Lemma Qc_eq_Qeq (a b : Qc) : a = b → (this a == this b)%Q.
Proof. by intros ->. Qed.

(** Facts about [step = 100 / count], from [count * step = 100]. *)
Lemma step_times_count (n : Z) :
  (1 ≤ n)%Z → Qc_of_Z n * (Qc_of_Z 100 / Qc_of_Z n) = Qc_of_Z 100.
Proof.
  intros Hn. field. rewrite <- Z2Qc_inj_0. intros H%Z2Qc_inj. lia.
Qed.

Lemma step_pos (N X : Qc) : 1 ≤ N → N * X = Qc_of_Z 100 → 0 < X.
Proof.
  intros HN HX%Qc_eq_Qeq. qc2q. nra.
Qed.

Lemma step_ge_hundredth (N X : Qc) :
  1 ≤ N → N ≤ Qc_of_Z 10000 → N * X = Qc_of_Z 100 → num 0.01 ≤ X.
Proof.
  intros HN HN' HX%Qc_eq_Qeq. qc2q. unfold inject_Z in *. nra.
Qed.

Lemma mul_step_mono (I J X : Qc) : 0 ≤ X → I ≤ J → I * X ≤ J * X.
Proof. intros HX HIJ. qc2q. nra. Qed.

Lemma mul_step_gap (I J X : Qc) :
  num 0.01 ≤ X → 0 ≤ I → I + 1 ≤ J → I * X + num 0.01 ≤ J * X.
Proof. intros HX HI HIJ. qc2q. nra. Qed.

Lemma Qc_of_Z_le (n m : Z) : (n ≤ m)%Z → Qc_of_Z n ≤ Qc_of_Z m.
Proof. apply Z2Qc_inj_le. Qed.

Lemma Number_toFixed2_two_decimals (v : Qc) : two_decimals (Number_toFixed2 v).
Proof.
  unfold Number_toFixed2. case_decide.
  - by eexists.
  - exists (- Qfloor (- v * 100 + 1 / 2))%Z. apply Qc_is_canon.
    rewrite inject_Z_opp. qc2q. field.
Qed.

Lemma generatePositions_4 :
  generatePositions 4 = Qc_of_Z <$> [0; 25; 50; 75; 100]%Z.
Proof. apply (bool_decide_unpack _). by vm_compute. Qed.

Lemma generatePositions_strict (n : Z) :
  (1 ≤ n ≤ 10000)%Z → strictly_increasing (generatePositions n).
Proof.
  intros [Hn Hn'] i j a b Hij Ha Hb.
  apply generatePositions_lookup_Some in Ha as [Hi ->]; [|done].
  apply generatePositions_lookup_Some in Hb as [Hj ->]; [|done].
  pose proof (step_times_count n Hn) as Hstep.
  set (X := Qc_of_Z 100 / Qc_of_Z n) in *.
  assert (1 ≤ Qc_of_Z n) as HN by (rewrite <- Z2Qc_inj_1; apply Qc_of_Z_le; lia).
  assert (Qc_of_Z n ≤ Qc_of_Z 10000) as HN' by (apply Qc_of_Z_le; lia).
  pose proof (step_ge_hundredth _ _ HN HN' Hstep) as HX.
  pose proof (step_pos _ _ HN Hstep) as HX0.
  assert (0 ≤ Qc_of_Z (Z.of_nat i)) as HI by (rewrite <- Z2Qc_inj_0; apply Qc_of_Z_le; lia).
  apply Number_toFixed2_strict.
  - rewrite <- (Qcmult_0_l X). apply mul_step_mono; [by apply Qclt_le_weak|done].
  - apply mul_step_gap; [done..|].
    rewrite <- Z2Qc_inj_1, <- Z2Qc_inj_add. apply Qc_of_Z_le. lia.
Qed.

Lemma generatePositions_head (n : Z) : (1 ≤ n)%Z → head (generatePositions n) = Some 0.
Proof.
  intros Hn. rewrite head_lookup, generatePositions_lookup by lia.
  change (Z.of_nat 0) with 0%Z. rewrite Z2Qc_inj_0, Qcmult_0_l.
  f_equal. rewrite <- Z2Qc_inj_0. by apply Number_toFixed2_Z.
Qed.

Lemma generatePositions_last (n : Z) :
  (1 ≤ n)%Z → last (generatePositions n) = Some (Qc_of_Z 100).
Proof.
  intros Hn. rewrite last_lookup, generatePositions_length by done.
  rewrite generatePositions_lookup by lia.
  replace (Z.of_nat (pred (Z.to_nat (n + 1)))) with n by lia.
  rewrite step_times_count by done. f_equal. by apply Number_toFixed2_Z.
Qed.

Lemma generatePositions_two_decimals (n : Z) :
  Forall two_decimals (generatePositions n).
Proof.
  unfold generatePositions. case_decide.
  - repeat constructor.
    + exists 0%Z. apply Qc_is_canon. by vm_compute.
    + exists 10000%Z. apply Qc_is_canon. by vm_compute.
  - apply Forall_fmap, Forall_true. intros i. apply Number_toFixed2_two_decimals.
Qed.

(** C3 (as amended). For every integer [n] from 1 to 10000,
    [generatePositions n] has exactly [n + 1] values, they are strictly
    increasing, the first is 0 and the last is 100, and each is a whole
    number of hundredths; [generatePositions 4] is [0, 25, 50, 75, 100]. *)
Theorem generatePositions_spec (n : Z) :
  (1 ≤ n ≤ 10000)%Z →
  length (generatePositions n) = Z.to_nat (n + 1)
  ∧ strictly_increasing (generatePositions n)
  ∧ head (generatePositions n) = Some 0
  ∧ last (generatePositions n) = Some (Qc_of_Z 100)
  ∧ Forall two_decimals (generatePositions n)
  ∧ generatePositions 4 = Qc_of_Z <$> [0; 25; 50; 75; 100]%Z.
Proof.
  intros Hn. split_and!.
  - apply generatePositions_length. lia.
  - by apply generatePositions_strict.
  - apply generatePositions_head. lia.
  - apply generatePositions_last. lia.
  - apply generatePositions_two_decimals.
  - apply generatePositions_4.
Qed.

Lemma generatePositions_spec_witness :
  (1 ≤ 7 ≤ 10000)%Z
  ∧ length (generatePositions 7) = 8%nat
  ∧ strictly_increasing (generatePositions 7).
Proof.
  assert (1 ≤ 7 ≤ 10000)%Z as H by lia.
  split; [exact H|].
  destruct (generatePositions_spec 7 H) as (Hlen & Hinc & _).
  split; [exact Hlen|exact Hinc].
Defined.

(** The claim as stated fails for large [n]: [generatePositions 20001]
    begins with 0, 0 (the step, 100/20001, rounds to 0.00). *)
Lemma generatePositions_repeats_counterexample :
  (1 ≤ 20001)%Z ∧ ¬ strictly_increasing (generatePositions 20001).
Proof.
  split; [lia|]. intros H.
  assert (0 < 0) as Hlt.
  { apply (H 0%nat 1%nat); [lia|..].
    - rewrite generatePositions_lookup by lia. f_equal.
      apply Qc_is_canon. by vm_compute.
    - rewrite generatePositions_lookup by lia. f_equal.
      apply Qc_is_canon. by vm_compute. }
  by destruct (Qclt_not_eq _ _ Hlt).
Qed.

(** ** Cell rectangles *)

Lemma Math_max_ge_l (a b : Qc) : a ≤ Math_max a b.
Proof. unfold Math_max. case_decide; [done|]. apply Qcle_refl. Qed.


Lemma Math_min_le_l (a b : Qc) : Math_min a b ≤ a.
Proof.
  unfold Math_min. case_decide as H; [apply Qcle_refl|].
  apply Qclt_le_weak. by apply Qcnot_le_lt.
Qed.

Lemma Math_min_le_r (a b : Qc) : Math_min a b ≤ b.
Proof. unfold Math_min. case_decide; [done|]. apply Qcle_refl. Qed.

Lemma Math_min_glb (a b c : Qc) : c ≤ a → c ≤ b → c ≤ Math_min a b.
Proof. intros. unfold Math_min. by case_decide. Qed.

Lemma cellRect_Some (sortedRows sortedCols : list Qc) (r c : nat)
    (iw ih px py row1 row2 col1 col2 : Qc) :
  sortedRows !! r = Some row1 → sortedRows !! (r + 1)%nat = Some row2 →
  sortedCols !! c = Some col1 → sortedCols !! (c + 1)%nat = Some col2 →
  cellRect sortedRows sortedCols r c iw ih px py =
    Some {| x := col1 / Qc_of_Z 100 * iw + px;
            y := row1 / Qc_of_Z 100 * ih + py;
            w := Math_max 1 (col2 / Qc_of_Z 100 * iw - col1 / Qc_of_Z 100 * iw - px * 2);
            h := Math_max 1 (row2 / Qc_of_Z 100 * ih - row1 / Qc_of_Z 100 * ih - py * 2) |}.
Proof. intros H1 H2 H3 H4. unfold cellRect. by rewrite H1, H2, H3, H4. Qed.

Lemma cellRect_inside (sortedRows sortedCols : list Qc)
    (r c : nat) (iw ih px py : Qc) :
  (r + 1 < length sortedRows)%nat → (c + 1 < length sortedCols)%nat →
  ∃ rect, cellRect sortedRows sortedCols r c iw ih px py = Some rect
          ∧ 1 ≤ w rect ∧ 1 ≤ h rect.
Proof.
  intros Hr Hc.
  destruct (lookup_lt_is_Some_2 sortedRows r) as [row1 H1]; [lia|].
  destruct (lookup_lt_is_Some_2 sortedRows (r + 1)) as [row2 H2]; [lia|].
  destruct (lookup_lt_is_Some_2 sortedCols c) as [col1 H3]; [lia|].
  destruct (lookup_lt_is_Some_2 sortedCols (c + 1)) as [col2 H4]; [lia|].
  eexists. split; [by eapply cellRect_Some|].
  cbn [w h]. split; apply Math_max_ge_l.
Qed.

(** C4. For any line arrays, any cell index [(r, c)] inside the grid, any
    image size and any padding, however large, [handleSplit] derives a
    rectangle for the cell, and its width and height are at least 1. *)
Theorem cellRect_at_least_one_pixel (sortedRows sortedCols : list Qc)
    (r c : nat) (iw ih px py : Qc) :
  (r + 1 < length sortedRows)%nat → (c + 1 < length sortedCols)%nat →
  ∃ rect, cellRect sortedRows sortedCols r c iw ih px py = Some rect
          ∧ 1 ≤ w rect ∧ 1 ≤ h rect.
Proof. apply cellRect_inside. Qed.

Lemma cellRect_at_least_one_pixel_witness :
  ∃ rect,
    cellRect (generatePositions 4) (generatePositions 4) 1 2
      (Qc_of_Z 40) (Qc_of_Z 40) (Qc_of_Z 50) (Qc_of_Z 50) = Some rect
    ∧ 1 ≤ w rect ∧ 1 ≤ h rect.
Proof.
  apply cellRect_at_least_one_pixel; vm_compute; lia.
Defined.

(** ** Grid history *)

Lemma slice0_nonneg {A} (l : list A) (e : Z) :
  (0 ≤ e)%Z → slice0 l e = take (Z.to_nat e) l.
Proof. intros. unfold slice0. by rewrite decide_True. Qed.

Lemma last_take_lookup {A} (l : list A) (n : nat) :
  (n < length l)%nat → last (take (S n) l) = l !! n.
Proof.
  intros Hn. rewrite last_lookup, length_take.
  replace (pred (S n `min` length l)) with n by lia.
  apply lookup_take_lt. lia.
Qed.

(** What [addToHistory] does when the ref [isUndoRedo] is clear. *)
Lemma addToHistory_dedupe (s : HistoryState) (st : AppState) :
  isUndoRedo st = false → history_wf st → history_top st = Some s →
  addToHistory s st = setHistory (take (Z.to_nat (historyIndex st + 1)) (history st)) st.
Proof.
  unfold history_wf, history_top. intros Hf Hwf Htop.
  case_decide as Hi; [|done].
  unfold addToHistory. rewrite Hf, slice0_nonneg by lia.
  replace (Z.to_nat (historyIndex st + 1)) with (S (Z.to_nat (historyIndex st))) by lia.
  rewrite last_take_lookup by lia. rewrite Htop. by rewrite decide_True.
Qed.

Lemma addToHistory_append (s : HistoryState) (st : AppState) :
  isUndoRedo st = false → history_wf st → history_top st ≠ Some s →
  addToHistory s st =
    setHistoryIndex (historyIndex st + 1)
      (setHistory (take (Z.to_nat (historyIndex st + 1)) (history st) ++ [s]) st).
Proof.
  unfold history_wf, history_top. intros Hf Hwf Htop.
  unfold addToHistory. rewrite Hf, slice0_nonneg by lia.
  assert (Z.of_nat (length (take (Z.to_nat (historyIndex st + 1)) (history st) ++ [s]))
          - 1 = historyIndex st + 1)%Z as Hlen.
  { rewrite length_app, length_take. simpl. lia. }
  destruct (decide (0 ≤ historyIndex st)%Z) as [Hi|Hi].
  - replace (Z.to_nat (historyIndex st + 1)) with (S (Z.to_nat (historyIndex st))) in * by lia.
    rewrite last_take_lookup by lia.
    destruct (history st !! Z.to_nat (historyIndex st)) as [l|] eqn:Hl.
    + rewrite decide_False by congruence. by rewrite Hlen.
    + by rewrite Hlen.
  - replace (Z.to_nat (historyIndex st + 1)) with 0%nat in * by lia.
    rewrite take_0 in *. simpl in *. by rewrite Hlen.
Qed.

Lemma addToHistory_wf (s : HistoryState) (st : AppState) :
  history_wf st → history_wf (addToHistory s st).
Proof.
  intros Hwf. destruct (isUndoRedo st) eqn:Hf.
  { unfold addToHistory. by rewrite Hf. }
  destruct (decide (history_top st = Some s)) as [Ht|Ht].
  - rewrite addToHistory_dedupe by done. unfold history_wf in *. simpl.
    rewrite length_take. lia.
  - rewrite addToHistory_append by done. unfold history_wf in *. simpl.
    rewrite length_app, length_take. simpl. lia.
Qed.

Lemma addToHistory_top (s : HistoryState) (st : AppState) :
  isUndoRedo st = false → history_wf st →
  history_top (addToHistory s st) = Some s.
Proof.
  intros Hf Hwf. destruct (decide (history_top st = Some s)) as [Ht|Ht].
  - rewrite addToHistory_dedupe by done.
    unfold history_wf, history_top in *. simpl. case_decide; [|done].
    rewrite lookup_take_lt by lia. done.
  - rewrite addToHistory_append by done.
    unfold history_wf, history_top in *. simpl. rewrite decide_True by lia.
    rewrite lookup_app_r; rewrite length_take; [|lia].
    replace (Z.to_nat (historyIndex st + 1) - Z.to_nat (historyIndex st + 1) `min` length (history st))%nat with 0%nat by lia.
    done.
Qed.

Lemma addToHistory_flag (s : HistoryState) (st : AppState) :
  isUndoRedo (addToHistory s st) = isUndoRedo st.
Proof.
  unfold addToHistory. destruct (isUndoRedo st) eqn:Hf; [done|].
  destruct (last _); [case_decide|]; done.
Qed.

Lemma handleUndo_wf (st : AppState) : history_wf st → history_wf (handleUndo st).
Proof.
  unfold history_wf, handleUndo. intros Hwf. case_decide; [|done].
  destruct (history st !! _); simpl; lia.
Qed.

Lemma handleRedo_wf (st : AppState) : history_wf st → history_wf (handleRedo st).
Proof.
  unfold history_wf, handleRedo. intros Hwf. case_decide; [|done].
  destruct (history st !! _); simpl; lia.
Qed.

Lemma handleUpload_wf (img : Image) (st : AppState) : history_wf (handleUpload img st).
Proof. unfold history_wf. simpl. lia. Qed.

Lemma snapshot_addToHistory (s : HistoryState) (st : AppState) :
  snapshot (addToHistory s st) = snapshot st.
Proof.
  unfold addToHistory. destruct (isUndoRedo st); [done|].
  destruct (last _); [case_decide|]; done.
Qed.

Lemma setHistory_same (st : AppState) : setHistory (history st) st = st.
Proof. by destruct st. Qed.

Lemma addToHistory_pointer (s : HistoryState) (st : AppState) :
  isUndoRedo st = false → history_wf st →
  Z.of_nat (length (history (addToHistory s st))) = (historyIndex (addToHistory s st) + 1)%Z.
Proof.
  intros Hf Hwf. unfold history_wf in Hwf.
  destruct (decide (history_top st = Some s)) as [Ht|Ht].
  - rewrite addToHistory_dedupe by done. simpl. rewrite length_take.
    unfold history_top in Ht. case_decide; [lia|done].
  - rewrite addToHistory_append by done. simpl.
    rewrite length_app, length_take. simpl. lia.
Qed.

(** Push, then undo, then redo. *)
Lemma addToHistory_undo_redo (s : HistoryState) (st : AppState) :
  isUndoRedo st = false → history_wf st →
  let kept := take (Z.to_nat (historyIndex st + 1)) (history st) in
  let st1 := addToHistory s st in
  (history_top st = Some s →
     history st1 = kept ∧ historyIndex st1 = historyIndex st)
  ∧ (history_top st ≠ Some s →
     history st1 = kept ++ [s] ∧ historyIndex st1 = (historyIndex st + 1)%Z)
  ∧ addToHistory s st1 = st1
  ∧ (∀ top, history_top st = Some top → top ≠ s →
       snapshot (handleUndo st1) = top
       ∧ historyIndex (handleUndo st1) = historyIndex st
       ∧ history (handleUndo st1) = history st1
       ∧ snapshot (handleRedo (handleUndo st1)) = s
       ∧ historyIndex (handleRedo (handleUndo st1)) = historyIndex st1
       ∧ history (handleRedo (handleUndo st1)) = history st1).
Proof.
  intros Hf Hwf kept st1.
  assert (history_wf st1) as Hwf1 by (by apply addToHistory_wf).
  assert (isUndoRedo st1 = false) as Hf1 by (unfold st1; by rewrite addToHistory_flag).
  assert (history_top st1 = Some s) as Htop1 by (by apply addToHistory_top).
  split_and!.
  - intros Ht. unfold st1. by rewrite addToHistory_dedupe.
  - intros Ht. unfold st1. by rewrite addToHistory_append.
  - rewrite (addToHistory_dedupe s st1) by done.
    rewrite firstn_all2; [apply setHistory_same|].
    pose proof (addToHistory_pointer s st Hf Hwf). fold st1 in H. lia.
  - intros top Ht Hne.
    assert (history_top st ≠ Some s) as Hne' by congruence.
    unfold st1. rewrite addToHistory_append by done. fold kept.
    unfold history_wf, history_top in *. case_decide as Hi; [|done].
    assert (length kept = Z.to_nat (historyIndex st + 1)) as Hlen.
    { unfold kept. rewrite length_take. lia. }
    assert ((kept ++ [s]) !! Z.to_nat (historyIndex st) = Some top) as Hprev.
    { rewrite lookup_app_l by lia. unfold kept. rewrite lookup_take_lt by lia. done. }
    assert ((kept ++ [s]) !! Z.to_nat (historyIndex st + 1) = Some s) as Hnext.
    { rewrite lookup_app_r by lia. rewrite Hlen, Nat.sub_diag. done. }
    unfold handleUndo. cbn [historyIndex history setHistoryIndex setHistory].
    rewrite decide_True by lia.
    replace (historyIndex st + 1 - 1)%Z with (historyIndex st) by lia.
    rewrite Hprev.
    unfold handleRedo. cbn [historyIndex history setHistoryIndex setHistory applySnapshot
      setColPositions setRowPositions setCols setRows setIsUndoRedo].
    rewrite decide_True by (rewrite length_app; simpl; lia).
    rewrite Hnext. destruct top, s. done.
Qed.

(** C5. The grid history, with the [isUndoRedo] ref clear and the pointer
    inside the stack (or [-1] on an empty stack): pushing a state equal to
    the current top adds no entry; any other push drops the entries beyond
    the pointer and appends the state; pushing the same state a second time
    changes nothing, so it is recorded once; after a push that added an
    entry, undo shows the state that was on top before the push and leaves
    the pointer where it was, and redo after that undo shows the pushed
    state again and puts the pointer back on it. *)
Theorem history_push_undo_redo (s : HistoryState) (st : AppState) :
  isUndoRedo st = false → history_wf st →
  let kept := take (Z.to_nat (historyIndex st + 1)) (history st) in
  let st1 := addToHistory s st in
  (history_top st = Some s →
     history st1 = kept ∧ historyIndex st1 = historyIndex st)
  ∧ (history_top st ≠ Some s →
     history st1 = kept ++ [s] ∧ historyIndex st1 = (historyIndex st + 1)%Z)
  ∧ addToHistory s st1 = st1
  ∧ (∀ top, history_top st = Some top → top ≠ s →
       snapshot (handleUndo st1) = top
       ∧ historyIndex (handleUndo st1) = historyIndex st
       ∧ history (handleUndo st1) = history st1
       ∧ snapshot (handleRedo (handleUndo st1)) = s
       ∧ historyIndex (handleRedo (handleUndo st1)) = historyIndex st1
       ∧ history (handleRedo (handleUndo st1)) = history st1).
Proof. apply addToHistory_undo_redo. Qed.

Lemma history_push_undo_redo_witness :
  let s := {| hs_rows := 2; hs_cols := 4;
              hs_rowPositions := generatePositions 2;
              hs_colPositions := generatePositions 4 |} in
  let st := handleUpload {| naturalWidth := Qc_of_Z 400; naturalHeight := Qc_of_Z 400 |}
              initialState in
  addToHistory s (addToHistory s st) = addToHistory s st.
Proof.
  intros s st.
  refine (proj1 (proj2 (proj2 (history_push_undo_redo s st _ _)))).
  - reflexivity.
  - unfold history_wf. simpl. lia.
Defined.

(** The same on a handler: after a change of the row count on a grid that
    the history has on top, undo shows the grid as it was before the change
    and redo shows the changed grid again. *)
Lemma handleRowChange_undo_redo (n : Z) (st : AppState) :
  isUndoRedo st = false → history_wf st →
  history_top st = Some (snapshot st) → n ≠ rows st →
  snapshot (handleUndo (handleRowChange n st)) = snapshot st
  ∧ snapshot (handleRedo (handleUndo (handleRowChange n st)))
    = snapshot (handleRowChange n st).
Proof.
  intros Hf Hwf Htop Hn. unfold handleRowChange.
  set (s := {| hs_rows := n; hs_cols := cols st;
               hs_rowPositions := generatePositions n;
               hs_colPositions := colPositions st |}).
  set (st0 := setRowPositions (generatePositions n) (setRows n st)).
  assert (snapshot st ≠ s) as Hne by (intros Heq; apply Hn; by injection Heq).
  destruct (addToHistory_undo_redo s st0 Hf Hwf) as (_ & _ & _ & Hundo).
  destruct (Hundo (snapshot st) Htop Hne) as (Hu & _ & _ & Hr & _).
  split; [done|]. rewrite Hr. by rewrite snapshot_addToHistory.
Qed.

(** ** Sorting and percentages *)

Lemma StronglySorted_lookup_le (l : list Qc) (i j : nat) (a b : Qc) :
  StronglySorted Qcle l → (i < j)%nat →
  l !! i = Some a → l !! j = Some b → a ≤ b.
Proof.
  intros Hs. revert i j. induction Hs as [|v l Hs IH Hall]; intros i j Hij Ha Hb.
  - by rewrite lookup_nil in Ha.
  - destruct j as [|j]; [lia|]. destruct i as [|i]; simpl in *.
    + injection Ha as <-. rewrite Forall_forall in Hall.
      apply Hall. by eapply list_elem_of_lookup_2.
    + apply (IH i j); [lia|done..].
Qed.

Lemma sort_numeric_non_decreasing (l : list Qc) : non_decreasing (sort_numeric l).
Proof.
  intros i j a b Hij Ha Hb.
  eapply StronglySorted_lookup_le; [|done..].
  apply (StronglySorted_merge_sort Qcle).
Qed.

Lemma sort_numeric_Permutation (l : list Qc) : sort_numeric l ≡ₚ l.
Proof. apply merge_sort_Permutation. Qed.

Lemma sort_numeric_length (l : list Qc) : length (sort_numeric l) = length l.
Proof. by rewrite sort_numeric_Permutation. Qed.

Lemma sort_numeric_percentages (l : list Qc) :
  percentages l → percentages (sort_numeric l).
Proof. unfold percentages. by rewrite sort_numeric_Permutation. Qed.

Lemma insert_percentages (l : list Qc) (i : nat) (v : Qc) :
  percentage v → percentages l → percentages (<[i := v]> l).
Proof. intros Hv Hl. by apply Forall_insert. Qed.

Lemma clamp_percentage (v : Qc) :
  percentage (Math_max 0 (Math_min (Qc_of_Z 100) v)).
Proof.
  split; [apply Math_max_ge_l|].
  unfold Math_max. case_decide; [apply Math_min_le_l|].
  rewrite <- Z2Qc_inj_0. by apply Qc_of_Z_le.
Qed.

Lemma Number_toFixed2_0 : Number_toFixed2 0 = 0.
Proof. rewrite <- Z2Qc_inj_0. by apply Number_toFixed2_Z. Qed.

Lemma Number_toFixed2_percentage (v : Qc) :
  percentage v → percentage (Number_toFixed2 v).
Proof.
  intros [H0 H100]. split.
  - trans (Number_toFixed2 0); [by rewrite Number_toFixed2_0|].
    by apply Number_toFixed2_mono.
  - trans (Number_toFixed2 (Qc_of_Z 100)); [by apply Number_toFixed2_mono|].
    by rewrite Number_toFixed2_Z.
Qed.

Lemma array_set_Some (arr : list Qc) (i : nat) (v : Qc) :
  (i < length arr)%nat → array_set arr i v = Some (<[i := v]> arr).
Proof. intros. unfold array_set. by rewrite decide_True. Qed.

Lemma generatePositions_percentages (n : Z) : percentages (generatePositions n).
Proof.
  unfold generatePositions. case_decide as Hn.
  - repeat constructor; try apply Qcle_refl; rewrite <- Z2Qc_inj_0; by apply Qc_of_Z_le.
  - apply Forall_fmap, Forall_forall. intros i Hi.
    apply list_elem_of_lookup in Hi as [k Hk]. apply lookup_seqZ in Hk as [-> Hk].
    assert (1 ≤ n)%Z as Hn1 by lia.
    pose proof (step_times_count n Hn1) as Hstep.
    assert (1 ≤ Qc_of_Z n) as HN by (rewrite <- Z2Qc_inj_1; apply Qc_of_Z_le; lia).
    pose proof (step_pos _ _ HN Hstep) as HX0%Qclt_le_weak.
    apply Number_toFixed2_percentage. split; simpl.
    + rewrite <- (Qcmult_0_l (Qc_of_Z 100 / Qc_of_Z n)).
      apply mul_step_mono; [done|]. rewrite <- Z2Qc_inj_0. apply Qc_of_Z_le. lia.
    + trans (Qc_of_Z n * (Qc_of_Z 100 / Qc_of_Z n)); [|by rewrite Hstep].
      apply mul_step_mono; [done|]. apply Qc_of_Z_le. lia.
Qed.

(** ** Drag *)

Lemma dragPct_Some (type : LineType) (rect : DOMRect) (ev : PointerEvent) :
  (if bool_decide (type = row) then rect_height rect else rect_width rect) ≠ 0 →
  is_Some (dragPct type rect ev).
Proof. intros H. unfold dragPct. rewrite decide_False by done. by eexists. Qed.

(** ** Nudge *)

Lemma axis_addToHistory (type : LineType) (s : HistoryState) (st : AppState) :
  axis type (addToHistory s st) = axis type st
  ∧ other_axis type (addToHistory s st) = other_axis type st.
Proof.
  pose proof (snapshot_addToHistory s st) as H.
  unfold snapshot in H. injection H as _ _ Hr Hc.
  destruct type; cbn [axis other_axis]; by rewrite Hr, Hc.
Qed.

(** The value part_000 writes for a nudge. *)
Lemma handleNudge_newVal (type : LineType) (dir : Dir) (v step : Qc) :
  match type with
  | row =>
      let v1 := if decide (dir = dir_up) then v - step else v in
      if decide (dir = dir_down) then v1 + step else v1
  | col =>
      let v1 := if decide (dir = dir_left) then v - step else v in
      if decide (dir = dir_right) then v1 + step else v1
  end = v + Qc_of_Z (nudge_sign type dir) * step.
Proof.
  destruct type, dir; cbn [nudge_sign];
    repeat (first [rewrite decide_True by done | rewrite decide_False by done]);
    cbv zeta;
    repeat (first [rewrite decide_True by done | rewrite decide_False by done]);
    change (-1)%Z with (- (1))%Z;
    rewrite ?Z2Qc_inj_opp, ?Z2Qc_inj_0, ?Z2Qc_inj_1; ring.
Qed.

Lemma handleNudge_spec (dir : Dir) (fast : bool) (type : LineType) (i : nat)
    (render st : AppState) (v : Qc) :
  axis type render !! i = Some v → (i < length (axis type st))%nat →
  let step := if fast then num 2.0 else num 0.2 in
  let written :=
    Number_toFixed2
      (Math_max 0 (Math_min (Qc_of_Z 100)
                     (v + Qc_of_Z (nudge_sign type dir) * step))) in
  ∃ st', Part000.handleNudge dir fast (type, i) render st = Some st'
         ∧ axis type st' = sort_numeric (<[i := written]> (axis type st))
         ∧ other_axis type st' = other_axis type st.
Proof.
  intros Hv Hi step written.
  unfold Part000.handleNudge. cbn [fst snd].
  pose proof (handleNudge_newVal type dir v step) as Hnew.
  destruct type; cbn [axis other_axis] in *; rewrite Hv; cbn [mbind option_bind];
    fold step; rewrite Hnew; unfold Part000.updateLinePosition;
    rewrite array_set_Some by done; cbn [mbind option_bind];
    eexists; split_and!; done.
Qed.

Lemma rowPositions_addToHistory (s : HistoryState) (st : AppState) :
  rowPositions (addToHistory s st) = rowPositions st.
Proof. apply (axis_addToHistory row). Qed.

Lemma colPositions_addToHistory (s : HistoryState) (st : AppState) :
  colPositions (addToHistory s st) = colPositions st.
Proof. apply (axis_addToHistory col). Qed.

Lemma neighbour_limit_is_Some (arr : list Qc) (i : nat) (k : Key) :
  (i < length arr)%nat → is_Some (neighbour_limit arr i k).
Proof.
  intros Hi. unfold neighbour_limit.
  destruct (towards_start k); case_decide; try by eexists.
  - apply lookup_lt_is_Some_2. lia.
  - apply lookup_lt_is_Some_2. lia.
Qed.

Lemma nudgeArray_spec (arr : list Qc) (i : nat) (k : Key) (step v limit : Qc) :
  arr !! i = Some v → neighbour_limit arr i k = Some limit →
  let newVal :=
    if towards_start k then Math_max (limit + num 0.1) (v - step)
    else Math_min (limit - num 0.1) (v + step) in
  AppTsx.nudgeArray arr i k step =
    Some (if decide (newVal ≠ v)
          then (<[i := Number_toFixed2 newVal]> arr, true)
          else (arr, false)).
Proof.
  intros Hv Hl newVal. unfold AppTsx.nudgeArray, neighbour_limit, towards_start in *.
  rewrite Hv. cbn [mbind option_bind]. subst newVal.
  destruct (bool_decide (k = ArrowUp ∨ k = ArrowLeft));
    rewrite Hl; cbn [mbind option_bind]; cbv zeta; by destruct (decide (_ ≠ v)).
Qed.

Lemma arrow_not_KeyZ (k : Key) :
  k ∈ [ArrowUp; ArrowDown; ArrowLeft; ArrowRight] → bool_decide (k = KeyZ) = false.
Proof.
  intros Hk. apply bool_decide_eq_false. intros ->.
  by apply (bool_decide_pack _) in Hk.
Qed.






(** In part_000 a nudge leaves the history stack and its pointer alone. *)
Lemma handleNudge_history (dir : Dir) (fast : bool) (line : LineType * nat)
    (render st st' : AppState) :
  Part000.handleNudge dir fast line render st = Some st' →
  history st' = history st ∧ historyIndex st' = historyIndex st.
Proof.
  unfold Part000.handleNudge, Part000.updateLinePosition.
  destruct line as [[] i]; cbn [fst snd];
    destruct (_ !! i); cbn [mbind option_bind]; try done;
    destruct (array_set _ _ _); cbn [mbind option_bind]; try done;
    by intros [= <-].
Qed.

(** The key listener of part_000 is not renewed when only the lines
    change: a second ArrowDown, handled by the listener of the render in
    which the line was selected, starts from 25 again and leaves the line
    at 25.2, where the nudge button would move it on to 25.4. *)
Lemma Part000_stale_listener_example :
  let st := setSelectedLine (Some (row, 1%nat)) (handleUpload image_400 initialState) in
  let e := {| targetIsInput := false; ctrlOrMeta := false;
              shiftKey := false; key := ArrowDown |} in
  ∃ st1 st2,
    Part000.handleKeyDown e st st = Some st1
    ∧ rowPositions st1 !! 1%nat = Some (num 25.2)
    ∧ Part000.handleKeyDown e st st1 = Some st1
    ∧ Part000.handleNudge dir_down false (row, 1%nat) st1 st1 = Some st2
    ∧ rowPositions st2 !! 1%nat = Some (num 25.4).
Proof.
  intros st e. eexists _, _. split_and!.
  - vm_compute. reflexivity.
  - apply (f_equal Some). apply Qc_is_canon. vm_compute. reflexivity.
  - vm_compute. reflexivity.
  - vm_compute. reflexivity.
  - apply (f_equal Some). apply Qc_is_canon. vm_compute. reflexivity.
Qed.

(** ** Canvas sizes *)

Lemma truncate_Qfloor (v : Qc) : 0 ≤ v → truncate v = Qfloor v.
Proof.
  intros Hv. unfold truncate. destruct v as [[n d] Hc]. cbn [this Qnum Qden Qfloor].
  apply Z.quot_div_nonneg; [|lia].
  unfold Qcle, Qle in Hv. simpl in Hv. lia.
Qed.

Lemma truncate_Z (z : Z) : truncate (Qc_of_Z z) = z.
Proof. unfold truncate, Qc_of_Z, Q2Qc. cbn [this]. simpl. apply Z.quot_1_r. Qed.

Lemma Qfloor_Qc_le (v : Qc) : Qc_of_Z (Qfloor v) ≤ v.
Proof.
  unfold Qcle, Qc_of_Z, Q2Qc. cbn [this]. rewrite ?Qred_correct. apply Qfloor_le.
Qed.

Lemma Qfloor_Qc_lt (v : Qc) : v < Qc_of_Z (Qfloor v) + 1.
Proof.
  unfold Qclt, Qcplus, Qc_of_Z, Q2Qc. cbn [this]. rewrite ?Qred_correct.
  pose proof (Qlt_floor v) as H. rewrite inject_Z_plus in H. exact H.
Qed.

Lemma Qfloor_range (v : Qc) (m : Z) :
  0 ≤ v → v < Qc_of_Z m → (0 ≤ Qfloor v < m)%Z.
Proof.
  intros H0 Hm. split.
  - change 0%Z with (Qfloor 0). apply Qfloor_resp_le. exact H0.
  - rewrite Zlt_Qlt. eapply Qle_lt_trans; [apply Qfloor_le|].
    unfold Qclt, Qc_of_Z, Q2Qc in Hm. cbn [this] in Hm. by rewrite ?Qred_correct in Hm.
Qed.

(** An assigned size from 0 up to 2^31 is kept with its fraction dropped. *)
Lemma canvas_dimension_floor (d : Z) (v : Qc) :
  0 ≤ v → v < Qc_of_Z (2 ^ 31) → canvas_dimension d v = Qc_of_Z (Qfloor v).
Proof.
  intros H0 Hm. destruct (Qfloor_range v _ H0 Hm) as [Hf0 Hfm].
  unfold canvas_dimension, unsigned_long. rewrite truncate_Qfloor by done.
  rewrite Z.mod_small by lia. by rewrite decide_True by lia.
Qed.

Lemma canvas_dimension_bounds (d : Z) (v : Qc) :
  0 ≤ v → v < Qc_of_Z (2 ^ 31) →
  canvas_dimension d v ≤ v ∧ v < canvas_dimension d v + 1.
Proof.
  intros H0 Hm. rewrite canvas_dimension_floor by done.
  split; [apply Qfloor_Qc_le|apply Qfloor_Qc_lt].
Qed.

(** A whole number from 0 up to 2^31 is kept as it is. *)
Lemma canvas_dimension_whole (d z : Z) :
  (0 ≤ z < 2 ^ 31)%Z → canvas_dimension d (Qc_of_Z z) = Qc_of_Z z.
Proof.
  intros Hz. unfold canvas_dimension, unsigned_long. rewrite truncate_Z.
  rewrite Z.mod_small by lia. by rewrite decide_True by lia.
Qed.


(** ** Compositor *)

Lemma with_canvases_id (wd : World) : with_canvases (canvases wd) wd = wd.
Proof. by destruct wd. Qed.

Lemma alter_snoc {A} (f : A → A) (l : list A) (c : A) :
  alter f (length l) (l ++ [c]) = l ++ [f c].
Proof. by rewrite alter_app_r_alt, Nat.sub_diag by lia. Qed.

Lemma lookup_snoc {A} (l : list A) (c : A) : (l ++ [c]) !! length l = Some c.
Proof. rewrite lookup_app_r by lia. by rewrite Nat.sub_diag. Qed.

Lemma run_createElement (cs : list Canvas) (wd : World) :
  createElement_canvas (with_canvases cs wd) =
    (Ok (length cs),
     with_canvases (cs ++ [{| width := Qc_of_Z 300; height := Qc_of_Z 150; ops := [] |}]) wd).
Proof. done. Qed.

Lemma run_update (cs : list Canvas) (c : Canvas) (f : Canvas → Canvas) (wd : World) :
  update_canvas (length cs) f (with_canvases (cs ++ [c]) wd) =
    (Ok (), with_canvases (cs ++ [f c]) wd).
Proof. unfold update_canvas, with_canvases. simpl. by rewrite alter_snoc. Qed.

Lemma draw_background (id : nat) (bgColor : string) (cw ch : Qc) :
  (if decide (bgColor = "white")
   then draw id (fillRect "#ffffff" 0 0 cw ch)
   else draw id (clearRect 0 0 cw ch)) = draw id (background_op bgColor cw ch).
Proof. unfold background_op. by destruct (decide (bgColor = "white")). Qed.

Ltac run_step :=
  unfold bind at 1;
  first [ rewrite run_createElement
        | unfold set_width at 1; rewrite run_update
        | unfold set_height at 1; rewrite run_update
        | unfold draw at 1; rewrite run_update ];
  cbv iota beta; cbn [width height ops app].

(** [composeCanvas], run: the base canvas is appended to the store; without
    a context for it the call throws; with one, the resize canvas is
    appended as well when the output size asks for it. *)
Lemma composeCanvas_run_at (p : Platform) (image : Image) (rect : Rect)
    (margins : Margins) (offset : Offset) (isSquare : bool) (bgColor : string)
    (outputSize : OutputSize) (cs : list Canvas) (wd : World) :
  let cw := canvasWidth_of rect margins isSquare in
  let ch := canvasHeight_of rect margins isSquare in
  let id := length cs in
  let base := base_canvas rect margins offset isSquare bgColor in
  composeCanvas p image rect margins offset isSquare bgColor outputSize
      (with_canvases cs wd) =
    if getContext_2d p id then
      match outputSize with
      | size n =>
          if decide (cw ≠ n ∨ ch ≠ n) then
            (Ok (S id),
             with_canvases (cs ++ [base; resize_canvas p (S id) id bgColor n]) wd)
          else (Ok id, with_canvases (cs ++ [base]) wd)
      | auto => (Ok id, with_canvases (cs ++ [base]) wd)
      end
    else
      (Throw "Context creation failed",
       with_canvases
         (cs ++ [{| width := canvas_dimension 300 cw;
                    height := canvas_dimension 150 ch; ops := [] |}]) wd).
Proof.
  intros cw ch id base. unfold composeCanvas.
  fold (canvasWidth_of rect margins isSquare) (canvasHeight_of rect margins isSquare).
  fold cw ch.
  subst id. run_step. run_step. run_step.
  destruct (getContext_2d p (length cs)) eqn:Hctx; cbn [negb]; [|done].
  rewrite draw_background. run_step. run_step.
  fold base.
  change {| width := canvas_dimension 300 cw; height := _; ops := _ |} with base.
  destruct outputSize as [|n]; [done|].
  destruct (decide (cw ≠ n ∨ ch ≠ n)) as [Hne|Heq]; [|done].
  run_step. run_step. run_step.
  assert (length (cs ++ [base]) = S (length cs)) as Hlen by (rewrite length_app; simpl; lia).
  unfold resize_canvas. rewrite <- Hlen.
  destruct (getContext_2d p (length (cs ++ [base]))) eqn:Hctx2.
  - destruct (decide (bgColor = "white")) as [Hw|Hw].
    + unfold bind, ret, draw. rewrite run_update. cbv iota beta.
      rewrite run_update. cbn [width height ops app]. by rewrite <- app_assoc.
    + unfold bind, ret, draw. rewrite run_update.
      cbn [width height ops app]. by rewrite <- app_assoc.
  - unfold bind, ret. by rewrite <- app_assoc.
Qed.

Lemma composeCanvas_run (p : Platform) (image : Image) (rect : Rect)
    (margins : Margins) (offset : Offset) (isSquare : bool) (bgColor : string)
    (outputSize : OutputSize) (wd : World) :
  let cw := canvasWidth_of rect margins isSquare in
  let ch := canvasHeight_of rect margins isSquare in
  let id := length (canvases wd) in
  let base := base_canvas rect margins offset isSquare bgColor in
  composeCanvas p image rect margins offset isSquare bgColor outputSize wd =
    if getContext_2d p id then
      match outputSize with
      | size n =>
          if decide (cw ≠ n ∨ ch ≠ n) then
            (Ok (S id),
             with_canvases (canvases wd ++ [base; resize_canvas p (S id) id bgColor n]) wd)
          else (Ok id, with_canvases (canvases wd ++ [base]) wd)
      | auto => (Ok id, with_canvases (canvases wd ++ [base]) wd)
      end
    else
      (Throw "Context creation failed",
       with_canvases
         (canvases wd ++ [{| width := canvas_dimension 300 cw;
                             height := canvas_dimension 150 ch; ops := [] |}]) wd).
Proof.
  intros. rewrite <- (with_canvases_id wd) at 1. apply composeCanvas_run_at.
Qed.

Lemma AppTsx_generateImageBlob_unfold p image rect margins offset isSquare bgColor
    outputSize format :
  AppTsx.generateImageBlob p image rect margins offset isSquare bgColor outputSize format
  = bind (composeCanvas p image rect margins offset isSquare bgColor outputSize)
         (λ fc, encodeStage AppTsx.gifTry p fc bgColor format).
Proof. done. Qed.

Lemma Part000_generateImageBlob_unfold p image rect margins offset isSquare bgColor
    outputSize format :
  Part000.generateImageBlob p image rect margins offset isSquare bgColor outputSize format
  = bind (composeCanvas p image rect margins offset isSquare bgColor outputSize)
         (λ fc, encodeStage Part000.gifTry p fc bgColor format).
Proof. done. Qed.

Lemma read_canvas_run (fc : nat) (wd : World) (c : Canvas) :
  canvases wd !! fc = Some c → read_canvas fc wd = (Ok c, wd).
Proof. intros H. unfold read_canvas. by rewrite H. Qed.

Lemma toBlob_run (p : Platform) (fc : nat) (wd : World) (c : Canvas) :
  canvases wd !! fc = Some c → toBlob p fc wd = (Ok (png_of p c), wd).
Proof. intros H. unfold toBlob, bind. by rewrite (read_canvas_run _ _ _ H). Qed.

Lemma encodePng_run (p : Platform) (fc : nat) (wd : World) (c : Canvas) :
  canvases wd !! fc = Some c →
  encodePng p fc wd =
    (if toBlob_png p c then Ok (Some (PngBlob c)) else Throw "Canvas to Blob failed", wd).
Proof.
  intros H. unfold encodePng, bind. rewrite (toBlob_run _ _ _ _ H).
  unfold png_of. by destruct (toBlob_png p c).
Qed.

Lemma gifFallback_run (p : Platform) (fc : nat) (e : string) (wd : World) (c : Canvas) :
  canvases wd !! fc = Some c →
  gifFallback p fc e wd = (Ok (png_of p c), after_gif_fallback e wd).
Proof.
  intros H. unfold gifFallback, bind, console_error_log.
  rewrite (toBlob_run p fc _ c) by done. done.
Qed.

Lemma encodeGifFrame_read_only p q ap enc fc bgColor :
  read_only (encodeGifFrame p q ap enc fc bgColor).
Proof.
  intros wd. unfold encodeGifFrame, bind, read_canvas.
  destruct (canvases wd !! fc) as [c|]; [|done].
  destruct (negb (getContext_2d p fc)); [done|].
  destruct (getImageData p c) as [data|]; [|done].
  destruct q as [q|]; [|done]. destruct (q data 256%Z) as [pal|]; [|done].
  destruct ap as [ap|]; [|done]. destruct (ap data pal) as [idx|]; [|done].
  by destruct (enc idx _ _ _ _).
Qed.

Lemma AppTsx_gifTry_read_only p fc bgColor : read_only (AppTsx.gifTry p fc bgColor).
Proof.
  intros wd. unfold AppTsx.gifTry.
  destruct (import_gifenc p) as [m|]; [|done].
  destruct (GIFEncoder m); [|done]. apply encodeGifFrame_read_only.
Qed.

Lemma Part000_gifTry_read_only p fc bgColor : read_only (Part000.gifTry p fc bgColor).
Proof.
  intros wd. unfold Part000.gifTry.
  destruct (import_gifenc p) as [m|]; [|done].
  destruct (GIFEncoder m), (quantize m), (applyPalette m);
    try apply encodeGifFrame_read_only;
    (destruct (import_esm_gifenc p) as [m'|]; [|done]);
    (destruct (GIFEncoder m'); [|done]); apply encodeGifFrame_read_only.
Qed.

(** The encoding stage on a canvas of the store. *)
Lemma encodeStage_run (T : Platform → nat → string → M (option Blob))
    (p : Platform) (fc : nat) (bgColor : string) (format : Format)
    (wd : World) (c : Canvas) :
  (∀ p fc bg, read_only (T p fc bg)) → canvases wd !! fc = Some c →
  encodeStage T p fc bgColor format wd =
    match format with
    | png =>
        (if toBlob_png p c then Ok (Some (PngBlob c))
         else Throw "Canvas to Blob failed", wd)
    | gif =>
        match (T p fc bgColor wd).1 with
        | Ok b => (Ok b, wd)
        | Throw e => (Ok (png_of p c), after_gif_fallback e wd)
        end
    end.
Proof.
  intros HT Hc. destruct format; cbn [encodeStage].
  - by apply encodePng_run.
  - unfold try_catch. specialize (HT p fc bgColor wd).
    destruct (T p fc bgColor wd) as [[b|e] wd2]; cbn [fst snd] in *; subst wd2; [done|].
    by apply gifFallback_run.
Qed.

(** What [composeCanvas] leaves behind when it returns. *)
Lemma composeCanvas_Ok p image rect margins offset isSquare bgColor outputSize
    (wd wd1 : World) (fc : nat) :
  composeCanvas p image rect margins offset isSquare bgColor outputSize wd = (Ok fc, wd1) →
  is_Some (canvases wd1 !! fc)
  ∧ alerts wd1 = alerts wd ∧ console_error wd1 = console_error wd
  ∧ objectURLs wd1 = objectURLs wd
  ∧ getContext_2d p (length (canvases wd)) = true.
Proof.
  rewrite composeCanvas_run.
  destruct (getContext_2d p (length (canvases wd))); [|done].
  destruct outputSize as [|n]; [|case_decide]; intros [= <- <-];
    cbn [with_canvases canvases alerts console_error objectURLs]; split_and!; try done.
  - rewrite lookup_snoc. by eexists.
  - rewrite (lookup_app_r _ _ (S _)) by lia.
    replace (S (length (canvases wd)) - length (canvases wd))%nat with 1%nat by lia.
    by eexists.
  - rewrite lookup_snoc. by eexists.
Qed.

(** Some ways the animated encoding fails. *)
Lemma gifTry_import_rejected (p : Platform) (fc : nat) (bgColor : string) (wd : World) :
  import_gifenc p = None →
  (AppTsx.gifTry p fc bgColor wd).1 = Throw "import failed"
  ∧ (Part000.gifTry p fc bgColor wd).1 = Throw "import failed".
Proof. intros H. unfold AppTsx.gifTry, Part000.gifTry. by rewrite H. Qed.

Lemma encodeGifFrame_no_context p q ap enc (fc : nat) (bgColor : string)
    (wd : World) (c : Canvas) :
  canvases wd !! fc = Some c → getContext_2d p fc = false →
  encodeGifFrame p q ap enc fc bgColor wd = (Throw "No image data", wd).
Proof.
  intros Hc Hctx. unfold encodeGifFrame, bind.
  rewrite (read_canvas_run _ _ _ Hc), Hctx. done.
Qed.

(** C6 (as amended). Whenever control reaches the encoding step with
    format [gif] and the animated encoding fails, for whatever reason,
    [generateImageBlob] does not throw, in either file; the error is logged
    and the alert "GIF generation failed, falling back to PNG." is shown;
    and when the PNG encoder delivers a blob for the final canvas, the call
    resolves with that PNG encoding. *)
Theorem gif_failure_falls_back_to_png (p : Platform) (image : Image) (rect : Rect)
    (margins : Margins) (offset : Offset) (isSquare : bool) (bgColor : string)
    (outputSize : OutputSize) (wd wd1 : World) (fc : nat) :
  composeCanvas p image rect margins offset isSquare bgColor outputSize wd = (Ok fc, wd1) →
  ∃ c, canvases wd1 !! fc = Some c
    ∧ (∀ e, (AppTsx.gifTry p fc bgColor wd1).1 = Throw e →
         let run := AppTsx.generateImageBlob p image rect margins offset isSquare
                      bgColor outputSize gif wd in
         (∃ b, run.1 = Ok b)
         ∧ run.2 = after_gif_fallback e wd1
         ∧ alerts run.2 = alerts wd ++ ["GIF generation failed, falling back to PNG."]
         ∧ console_error run.2 = console_error wd ++ ["GIF generation error: " +:+ e]
         ∧ (toBlob_png p c = true → run.1 = Ok (Some (PngBlob c))))
    ∧ (∀ e, (Part000.gifTry p fc bgColor wd1).1 = Throw e →
         let run := Part000.generateImageBlob p image rect margins offset isSquare
                      bgColor outputSize gif wd in
         (∃ b, run.1 = Ok b)
         ∧ run.2 = after_gif_fallback e wd1
         ∧ alerts run.2 = alerts wd ++ ["GIF generation failed, falling back to PNG."]
         ∧ console_error run.2 = console_error wd ++ ["GIF generation error: " +:+ e]
         ∧ (toBlob_png p c = true → run.1 = Ok (Some (PngBlob c)))).
Proof.
  intros Hrun.
  destruct (composeCanvas_Ok _ _ _ _ _ _ _ _ _ _ _ Hrun) as ([c Hc] & Hal & Hce & _).
  exists c. split_and!; [done|..].
  - intros e He run. subst run.
    rewrite AppTsx_generateImageBlob_unfold. unfold bind. rewrite Hrun.
    rewrite (encodeStage_run _ _ _ _ _ _ c AppTsx_gifTry_read_only Hc), He.
    cbn [fst snd after_gif_fallback alerts console_error]. rewrite Hal, Hce.
    split_and!; [by eexists|done..|].
    intros Hok. unfold png_of. by rewrite Hok.
  - intros e He run. subst run.
    rewrite Part000_generateImageBlob_unfold. unfold bind. rewrite Hrun.
    rewrite (encodeStage_run _ _ _ _ _ _ c Part000_gifTry_read_only Hc), He.
    cbn [fst snd after_gif_fallback alerts console_error]. rewrite Hal, Hce.
    split_and!; [by eexists|done..|].
    intros Hok. unfold png_of. by rewrite Hok.
Qed.

Lemma gif_failure_falls_back_to_png_witness :
  let run := AppTsx.generateImageBlob platform_without_gif image_400 rect_200
               no_margins no_offset false "transparent" auto gif emptyWorld in
  run.1 = Ok (Some (PngBlob (base_canvas rect_200 no_margins no_offset false "transparent")))
  ∧ alerts run.2 = ["GIF generation failed, falling back to PNG."].
Proof.
  destruct (gif_failure_falls_back_to_png platform_without_gif image_400 rect_200
              no_margins no_offset false "transparent" auto emptyWorld
              (with_canvases [base_canvas rect_200 no_margins no_offset false "transparent"]
                 emptyWorld) 0%nat)
    as (c & Hc & HA & _).
  - reflexivity.
  - injection Hc as <-.
    destruct (HA "import failed") as (_ & _ & Hal & _ & Hpng).
    + reflexivity.
    + split; [apply Hpng; reflexivity|exact Hal].
Defined.

(** The claim as stated fails where the final canvas has no pixels: for a
    region of width 0 the image data cannot be read, so the animated
    encoding fails, and the PNG encoder hands over [null], which the
    fallback resolves with: no PNG buffer is returned. *)
Lemma gif_failure_falls_back_to_png_counterexample :
  let wd1 := with_canvases
               [base_canvas rect_zero_width no_margins no_offset false "transparent"]
               emptyWorld in
  composeCanvas platform_without_pixels image_400 rect_zero_width no_margins
    no_offset false "transparent" auto emptyWorld = (Ok 0%nat, wd1)
  ∧ (AppTsx.gifTry platform_without_pixels 0 "transparent" wd1).1
    = Throw "getImageData failed"
  ∧ (AppTsx.generateImageBlob platform_without_pixels image_400 rect_zero_width
       no_margins no_offset false "transparent" auto gif emptyWorld).1 = Ok None
  ∧ (Part000.gifTry platform_without_pixels 0 "transparent" wd1).1
    = Throw "getImageData failed"
  ∧ (Part000.generateImageBlob platform_without_pixels image_400 rect_zero_width
       no_margins no_offset false "transparent" auto gif emptyWorld).1 = Ok None.
Proof.
  intros wd1. split_and!.
  - reflexivity.
  - vm_compute. reflexivity.
  - vm_compute. reflexivity.
  - vm_compute. reflexivity.
  - vm_compute. reflexivity.
Qed.

Lemma base_canvas_plain (rect : Rect) (bgColor : string) :
  base_canvas rect no_margins no_offset false bgColor =
    {| width := canvas_dimension 300 (w rect);
       height := canvas_dimension 150 (h rect);
       ops := [background_op bgColor (w rect) (h rect);
               drawImage (x rect) (y rect) (w rect) (h rect) 0 0 (w rect) (h rect)] |}.
Proof.
  unfold base_canvas, canvasWidth_of, canvasHeight_of, no_margins, no_offset.
  cbn [top bottom left right ox oy].
  assert (w rect + 0 + 0 = w rect) as -> by ring.
  assert (h rect + 0 + 0 = h rect) as -> by ring.
  assert ((w rect - w rect) / 2 + 0 + 0 = 0) as -> by (unfold Qcdiv; ring).
  assert ((h rect - h rect) / 2 + 0 + 0 = 0) as -> by (unfold Qcdiv; ring).
  done.
Qed.

Lemma encodeStage_canvases (T : Platform → nat → string → M (option Blob))
    (p : Platform) (fc : nat) (bgColor : string) (format : Format)
    (wd : World) (c : Canvas) :
  (∀ p fc bg, read_only (T p fc bg)) → canvases wd !! fc = Some c →
  canvases (encodeStage T p fc bgColor format wd).2 = canvases wd.
Proof.
  intros HT Hc. rewrite (encodeStage_run T p fc bgColor format wd c HT Hc).
  destruct format; [done|]. by destruct (T p fc bgColor wd).1.
Qed.

(** The two [generateImageBlob], as one statement about either. *)
Lemma generateImageBlob_cases
    (gen : Platform → Image → Rect → Margins → Offset → bool → string →
           OutputSize → Format → M (option Blob)) :
  gen = AppTsx.generateImageBlob ∨ gen = Part000.generateImageBlob →
  ∃ T, (∀ p fc bg, read_only (T p fc bg))
     ∧ (T = AppTsx.gifTry ∨ T = Part000.gifTry)
     ∧ ∀ p image rect margins offset isSquare bgColor outputSize format,
         gen p image rect margins offset isSquare bgColor outputSize format
         = bind (composeCanvas p image rect margins offset isSquare bgColor outputSize)
                (λ fc, encodeStage T p fc bgColor format).
Proof.
  intros [-> | ->].
  - exists AppTsx.gifTry. split_and!; [apply AppTsx_gifTry_read_only|by left|done].
  - exists Part000.gifTry. split_and!; [apply Part000_gifTry_read_only|by right|done].
Qed.

(** C7 (as amended). For every rect, composing with all margins zero,
    offset (0,0), [isSquare = false] and output size [auto], in either file,
    adds exactly one canvas to the page.  Its width and height are what a
    canvas keeps of [rect.w] and [rect.h]: exactly [rect.w] by [rect.h] when
    these are whole numbers from 0 up to 2^31, and with the fractions
    dropped when they are other sizes of that range.  When its context is
    available the only drawing calls are the background over [rect.w] by
    [rect.h] and one [drawImage] that copies the source region [rect] to
    position (0,0) at its own size, and format [png] yields the encoding of
    that canvas. *)
Theorem compose_plain_cell_canvas
    (gen : Platform → Image → Rect → Margins → Offset → bool → string →
           OutputSize → Format → M (option Blob))
    (p : Platform) (image : Image) (rect : Rect) (bgColor : string)
    (format : Format) (wd : World) :
  gen = AppTsx.generateImageBlob ∨ gen = Part000.generateImageBlob →
  let run := gen p image rect no_margins no_offset false bgColor auto format wd in
  ∃ c, canvases run.2 = canvases wd ++ [c]
    ∧ width c = canvas_dimension 300 (w rect)
    ∧ height c = canvas_dimension 150 (h rect)
    ∧ (∀ zw zh : Z, (0 ≤ zw < 2 ^ 31)%Z → (0 ≤ zh < 2 ^ 31)%Z →
       w rect = Qc_of_Z zw → h rect = Qc_of_Z zh →
       width c = w rect ∧ height c = h rect)
    ∧ (0 ≤ w rect → w rect < Qc_of_Z (2 ^ 31) →
       width c = Qc_of_Z (Qfloor (w rect))
       ∧ width c ≤ w rect ∧ w rect < width c + 1)
    ∧ (0 ≤ h rect → h rect < Qc_of_Z (2 ^ 31) →
       height c = Qc_of_Z (Qfloor (h rect))
       ∧ height c ≤ h rect ∧ h rect < height c + 1)
    ∧ (getContext_2d p (length (canvases wd)) = true →
       ops c = [background_op bgColor (w rect) (h rect);
                drawImage (x rect) (y rect) (w rect) (h rect) 0 0 (w rect) (h rect)]
       ∧ (format = png →
          run.1 = if toBlob_png p c then Ok (Some (PngBlob c))
                  else Throw "Canvas to Blob failed"))
    ∧ (getContext_2d p (length (canvases wd)) = false →
       ops c = [] ∧ run.1 = Throw "Context creation failed").
Proof.
  intros Hgen run.
  destruct (generateImageBlob_cases gen Hgen) as (T & HT & _ & Hunf).
  assert (canvasWidth_of rect no_margins false = w rect) as Hcw.
  { unfold canvasWidth_of, no_margins. cbn [left right]. ring. }
  assert (canvasHeight_of rect no_margins false = h rect) as Hch.
  { unfold canvasHeight_of, no_margins. cbn [top bottom]. ring. }
  assert (∀ c, width c = canvas_dimension 300 (w rect) →
               height c = canvas_dimension 150 (h rect) →
            (∀ zw zh : Z, (0 ≤ zw < 2 ^ 31)%Z → (0 ≤ zh < 2 ^ 31)%Z →
               w rect = Qc_of_Z zw → h rect = Qc_of_Z zh →
               width c = w rect ∧ height c = h rect)
            ∧ (0 ≤ w rect → w rect < Qc_of_Z (2 ^ 31) →
               width c = Qc_of_Z (Qfloor (w rect))
               ∧ width c ≤ w rect ∧ w rect < width c + 1)
            ∧ (0 ≤ h rect → h rect < Qc_of_Z (2 ^ 31) →
               height c = Qc_of_Z (Qfloor (h rect))
               ∧ height c ≤ h rect ∧ h rect < height c + 1)) as Hsize.
  { intros c Hw Hh. rewrite Hw, Hh. split_and!.
    - intros zw zh Hzw Hzh -> ->. by rewrite !canvas_dimension_whole.
    - intros H0 Hm. split; [by apply canvas_dimension_floor|].
      by apply canvas_dimension_bounds.
    - intros H0 Hm. split; [by apply canvas_dimension_floor|].
      by apply canvas_dimension_bounds. }
  subst run. rewrite Hunf. unfold bind. rewrite composeCanvas_run.
  destruct (getContext_2d p (length (canvases wd))) eqn:Hctx.
  - rewrite base_canvas_plain.
    set (c := {| width := canvas_dimension 300 (w rect); height := _; ops := _ |}).
    assert (canvases (with_canvases (canvases wd ++ [c]) wd) !! length (canvases wd) = Some c)
      as Hc by apply lookup_snoc.
    destruct (Hsize c eq_refl eq_refl) as (H1 & H2 & H3).
    exists c. split_and!; try done.
    + by rewrite (encodeStage_canvases T p _ bgColor format _ c HT Hc).
    + intros _. split; [done|]. intros ->.
      by rewrite (encodeStage_run T p _ bgColor png _ c HT Hc).
  - rewrite Hcw, Hch.
    set (c := {| width := canvas_dimension 300 (w rect); height := _; ops := _ |}).
    destruct (Hsize c eq_refl eq_refl) as (H1 & H2 & H3).
    exists c. by split_and!.
Qed.

Lemma compose_plain_cell_canvas_witness :
  ∃ c, canvases (AppTsx.generateImageBlob platform_without_gif image_400 rect_200
                   no_margins no_offset false "transparent" auto png emptyWorld).2
       = [c]
     ∧ width c = Qc_of_Z 200 ∧ height c = Qc_of_Z 200.
Proof.
  destruct (compose_plain_cell_canvas AppTsx.generateImageBlob platform_without_gif
              image_400 rect_200 "transparent" png emptyWorld)
    as (c & Hc & _ & _ & Hwhole & _).
  - left. reflexivity.
  - exists c. split; [exact Hc|].
    apply (Hwhole 200%Z 200%Z); [lia|lia|reflexivity|reflexivity].
Defined.

(** The claim as stated fails for a rect whose size is not a whole number:
    the top left cell of a 1001 x 1001 image cut 4 x 4 is 250.25 pixels
    wide and high, and the canvas composed for it is 250 x 250. *)
Lemma compose_plain_cell_canvas_counterexample :
  ∃ rect c,
    cellRect (generatePositions 4) (generatePositions 4) 0 0
      (Qc_of_Z 1001) (Qc_of_Z 1001) 0 0 = Some rect
    ∧ w rect = num 250.25 ∧ h rect = num 250.25
    ∧ canvases (AppTsx.generateImageBlob platform_without_gif
                  {| naturalWidth := Qc_of_Z 1001; naturalHeight := Qc_of_Z 1001 |}
                  rect no_margins no_offset false "transparent" auto png
                  emptyWorld).2
      = [c]
    ∧ width c = Qc_of_Z 250 ∧ height c = Qc_of_Z 250
    ∧ width c ≠ w rect ∧ height c ≠ h rect.
Proof.
  eexists _, _. split_and!.
  - vm_compute. reflexivity.
  - apply Qc_is_canon. vm_compute. reflexivity.
  - apply Qc_is_canon. vm_compute. reflexivity.
  - vm_compute. reflexivity.
  - apply Qc_is_canon. vm_compute. reflexivity.
  - apply Qc_is_canon. vm_compute. reflexivity.
  - intros H. apply (f_equal this) in H. vm_compute in H. discriminate H.
  - intros H. apply (f_equal this) in H. vm_compute in H. discriminate H.
Qed.

Lemma gifTry_no_context (T : Platform → nat → string → M (option Blob))
    (p : Platform) (fc : nat) (bgColor : string) (wd : World) (c : Canvas) :
  T = AppTsx.gifTry ∨ T = Part000.gifTry →
  canvases wd !! fc = Some c → getContext_2d p fc = false →
  ∃ e, (T p fc bgColor wd).1 = Throw e.
Proof.
  intros HT Hc Hctx.
  pose proof (λ q ap enc, encodeGifFrame_no_context p q ap enc fc bgColor wd c Hc Hctx) as Hf.
  destruct HT as [-> | ->].
  - unfold AppTsx.gifTry.
    destruct (import_gifenc p) as [m|]; [|by eexists].
    destruct (GIFEncoder m); [|by eexists]. rewrite Hf. by eexists.
  - unfold Part000.gifTry.
    destruct (import_gifenc p) as [m|]; [|by eexists].
    destruct (GIFEncoder m), (quantize m), (applyPalette m); rewrite ?Hf; try by eexists.
    all: destruct (import_esm_gifenc p) as [m'|]; [|by eexists].
    all: destruct (GIFEncoder m'); [|by eexists]; rewrite Hf; by eexists.
Qed.

(** C10 (as amended). When the output size is a number different from the
    size of the base canvas and the base canvas has a context but the
    resize canvas has none, no error comes from that: the canvas step
    returns normally, shows and logs nothing, and the final canvas is a
    blank one of the output size ([n] by [n] for a whole number [n] from 0
    up to 2^31).  With format [png], [generateImageBlob], in either file,
    then does what it does for any canvas, without showing or logging
    anything: it resolves with the PNG encoding of the blank canvas, or
    rejects with "Canvas to Blob failed" when the PNG encoder hands over
    [null].  With format [gif] the missing context makes the animated
    encoding fail, so the call is not silent: it does not throw, the error
    is logged and the fallback alert is shown, and it resolves with the PNG
    encoding of the blank canvas when the PNG encoder delivers one.  Without
    a context for the base canvas the call throws "Context creation
    failed". *)
Theorem resize_context_failure_is_silent
    (gen : Platform → Image → Rect → Margins → Offset → bool → string →
           OutputSize → Format → M (option Blob))
    (p : Platform) (image : Image) (rect : Rect) (margins : Margins)
    (offset : Offset) (isSquare : bool) (bgColor : string) (n : Qc)
    (format : Format) (wd : World) :
  gen = AppTsx.generateImageBlob ∨ gen = Part000.generateImageBlob →
  canvasWidth_of rect margins isSquare ≠ n ∨ canvasHeight_of rect margins isSquare ≠ n →
  let id := length (canvases wd) in
  let run := gen p image rect margins offset isSquare bgColor (size n) format wd in
  let blank := blank_output_canvas n in
  (getContext_2d p id = true → getContext_2d p (S id) = false →
   ∃ wd1,
     composeCanvas p image rect margins offset isSquare bgColor (size n) wd
       = (Ok (S id), wd1)
     ∧ canvases wd1 !! S id = Some blank
     ∧ alerts wd1 = alerts wd ∧ console_error wd1 = console_error wd
     ∧ (∀ z : Z, (0 ≤ z < 2 ^ 31)%Z → n = Qc_of_Z z → blank = blank_canvas n)
     ∧ (format = png →
        run = (if toBlob_png p blank then Ok (Some (PngBlob blank))
               else Throw "Canvas to Blob failed", wd1))
     ∧ (format = gif → ∃ e,
        (∃ b, run.1 = Ok b)
        ∧ run.2 = after_gif_fallback e wd1
        ∧ alerts run.2 = alerts wd ++ ["GIF generation failed, falling back to PNG."]
        ∧ console_error run.2 = console_error wd ++ ["GIF generation error: " +:+ e]
        ∧ (toBlob_png p blank = true → run.1 = Ok (Some (PngBlob blank)))))
  ∧ (getContext_2d p id = false → run.1 = Throw "Context creation failed").
Proof.
  intros Hgen Hne id run blank.
  destruct (generateImageBlob_cases gen Hgen) as (T & HT & HT' & Hunf).
  subst run. rewrite Hunf. unfold bind. rewrite composeCanvas_run. fold id.
  split.
  - intros Hctx Hctx2. rewrite Hctx, decide_True by done.
    unfold resize_canvas. rewrite Hctx2. fold (blank_output_canvas n). fold blank.
    set (base := base_canvas rect margins offset isSquare bgColor).
    set (wd1 := with_canvases (canvases wd ++ [base; blank]) wd).
    assert (canvases wd1 !! S id = Some blank) as Hc.
    { unfold wd1, id. cbn [with_canvases canvases].
      rewrite (lookup_app_r _ _ (S _)) by lia.
      by replace (S (length (canvases wd)) - length (canvases wd))%nat with 1%nat by lia. }
    exists wd1. split_and!; try done.
    + intros z Hz ->. unfold blank, blank_output_canvas, blank_canvas.
      by rewrite !canvas_dimension_whole.
    + intros ->. by rewrite (encodeStage_run T p _ bgColor png _ _ HT Hc).
    + intros ->.
      destruct (gifTry_no_context T p (S id) bgColor wd1 _ HT' Hc Hctx2) as [e He].
      exists e. rewrite (encodeStage_run T p _ bgColor gif _ _ HT Hc), He.
      cbn [fst snd after_gif_fallback alerts console_error].
      split_and!; [by eexists|done..|].
      intros Hok. unfold png_of. by rewrite Hok.
  - intros Hctx. by rewrite Hctx.
Qed.

Lemma resize_context_failure_is_silent_witness :
  (AppTsx.generateImageBlob platform_second_canvas_fails image_400 rect_200
     no_margins no_offset false "transparent" (size (Qc_of_Z 64)) png emptyWorld).1
  = Ok (Some (PngBlob (blank_canvas (Qc_of_Z 64)))).
Proof.
  destruct (resize_context_failure_is_silent AppTsx.generateImageBlob
              platform_second_canvas_fails image_400 rect_200 no_margins no_offset
              false "transparent" (Qc_of_Z 64) png emptyWorld) as [H _].
  - left. reflexivity.
  - left. intros H. apply (f_equal this) in H. vm_compute in H. discriminate H.
  - destruct (H eq_refl eq_refl) as (wd1 & _ & _ & _ & _ & Hblank & Hpng & _).
    rewrite (Hpng eq_refl). rewrite (Hblank 64%Z) by (done || lia). reflexivity.
Defined.

(** The claim as stated fails for format [gif]: in a browser with a working
    GIF library where only the resize canvas gets no context, a 64 x 64
    output of a 200 x 200 cell comes back as the PNG encoding of the blank
    canvas, but not silently: the error "No image data" is logged and the
    fallback alert is shown. *)
Lemma resize_context_failure_is_silent_counterexample :
  let run := AppTsx.generateImageBlob platform_gif_second_canvas_fails image_400
               rect_200 no_margins no_offset false "transparent"
               (size (Qc_of_Z 64)) gif emptyWorld in
  let run' := Part000.generateImageBlob platform_gif_second_canvas_fails image_400
                rect_200 no_margins no_offset false "transparent"
                (size (Qc_of_Z 64)) gif emptyWorld in
  run.1 = Ok (Some (PngBlob (blank_canvas (Qc_of_Z 64))))
  ∧ alerts run.2 = ["GIF generation failed, falling back to PNG."]
  ∧ console_error run.2 = ["GIF generation error: No image data"]
  ∧ run'.1 = Ok (Some (PngBlob (blank_canvas (Qc_of_Z 64))))
  ∧ alerts run'.2 = ["GIF generation failed, falling back to PNG."]
  ∧ console_error run'.2 = ["GIF generation error: No image data"].
Proof.
  intros run run'. split_and!; vm_compute; reflexivity.
Qed.

(** ** Fine-tune save *)


(** Without an edited result or without a result set nothing changes, and a
    [null] blob makes the handler throw before it touches the results. *)
Lemma handleSaveSingle_no_edit (newBlob : option Blob) (extra : Extra)
    (action : Action) (st : AppState) (wd : World) :
  editingResult st = None ∨ results st = None →
  handleSaveSingle newBlob extra action st wd = (Ok st, wd).
Proof.
  intros [H|H]; unfold handleSaveSingle; rewrite H; [done|].
  by destruct (editingResult st).
Qed.


(** ** Batch split *)

Section BatchFacts.

Variable gen :
  Platform → Image → Rect → Margins → Offset → bool → string →
  OutputSize → Format → M (option Blob).
Variables (p : Platform) (st : AppState) (image : Image).
Variables (sortedRows sortedCols : list Qc).

(** One turn of the loop whose compose call fails: the loop ends there. *)
Lemma splitLoop_compose_fails (r c : nat) (todo : list (nat * nat))
    (acc : list SplitResult) (idc : Z) (wd wd' : World) (rect : Rect) (e : string) :
  cellRect sortedRows sortedCols r c (naturalWidth image) (naturalHeight image)
    (paddingX st) (paddingY st) = Some rect →
  gen p image rect no_margins no_offset false "transparent"
    (outputSize st) (format st) wd = (Throw e, wd') →
  splitLoop gen p st image sortedRows sortedCols ((r, c) :: todo) acc idc wd
  = (Throw e, wd').
Proof.
  intros Hrect Hgen. cbn [splitLoop]. rewrite Hrect.
  unfold bind at 1. fold no_margins no_offset. by rewrite Hgen.
Qed.

(** The loop over a list of cells, cut in two. *)
Lemma splitLoop_app (todo1 todo2 : list (nat * nat)) (acc : list SplitResult)
    (idc : Z) (wd : World) :
  splitLoop gen p st image sortedRows sortedCols (todo1 ++ todo2) acc idc wd =
    match splitLoop gen p st image sortedRows sortedCols todo1 acc idc wd with
    | (Ok rs, wd1) =>
        splitLoop gen p st image sortedRows sortedCols todo2 rs
          (idc + Z.of_nat (length todo1)) wd1
    | (Throw e, wd1) => (Throw e, wd1)
    end.
Proof.
  revert acc idc wd.
  induction todo1 as [|[r c] todo1 IH]; intros acc idc wd.
  - cbn [app splitLoop length]. unfold ret. by rewrite Z.add_0_r.
  - cbn [app splitLoop length].
    destruct (cellRect _ _ _ _ _ _ _ _) as [rect|]; [|done].
    unfold bind at 1 3.
    destruct (gen _ _ _ _ _ _ _ _ _ wd) as [[blob|e'] wd1]; [|done].
    unfold bind at 1 2.
    destruct (createObjectURL blob wd1) as [[url|e'] wd2]; [|done].
    destruct blob as [b|]; [|done].
    rewrite IH. destruct (splitLoop _ _ _ _ _ _ _ _ _ wd2) as [[rs|e'] wd3]; [|done].
    f_equal. lia.
Qed.

(** Once the loop has thrown, the cells still to visit play no part. *)
Lemma splitLoop_abort (todo1 todo2 : list (nat * nat)) (acc : list SplitResult)
    (idc : Z) (wd wd' : World) (e : string) :
  splitLoop gen p st image sortedRows sortedCols todo1 acc idc wd = (Throw e, wd') →
  splitLoop gen p st image sortedRows sortedCols (todo1 ++ todo2) acc idc wd
  = (Throw e, wd').
Proof.
  revert acc idc wd.
  induction todo1 as [|[r c] todo1 IH]; intros acc idc wd; [done|].
  cbn [app splitLoop].
  destruct (cellRect _ _ _ _ _ _ _ _) as [rect|]; [|done].
  unfold bind at 1 3.
  destruct (gen _ _ _ _ _ _ _ _ _ wd) as [[blob|e'] wd1]; [|done].
  unfold bind at 1 2.
  destruct (createObjectURL blob wd1) as [[url|e'] wd2]; [|done].
  destruct blob as [b|]; [|done]. apply IH.
Qed.

(** A loop that runs to its end keeps the results it had and adds one per
    cell, in the order of the cells, with consecutive ids and the
    rectangles of the cells. *)
Lemma splitLoop_Ok (todo : list (nat * nat)) (acc rs : list SplitResult)
    (idc : Z) (wd wd' : World) :
  splitLoop gen p st image sortedRows sortedCols todo acc idc wd = (Ok rs, wd') →
  length rs = (length acc + length todo)%nat
  ∧ sr_id <$> rs = (sr_id <$> acc) ++ seqZ idc (Z.of_nat (length todo))
  ∧ Some <$> (sr_originalRect <$> rs) =
      (Some <$> (sr_originalRect <$> acc))
      ++ ((λ rc, cellRect sortedRows sortedCols rc.1 rc.2
                   (naturalWidth image) (naturalHeight image)
                   (paddingX st) (paddingY st)) <$> todo).
Proof.
  revert acc idc wd.
  induction todo as [|[r c] todo IH]; intros acc idc wd.
  - intros [= <- <-]. cbn [length fmap list_fmap]. rewrite Nat.add_0_r, seqZ_nil by lia.
    by rewrite !app_nil_r.
  - cbn [splitLoop].
    destruct (cellRect _ _ _ _ _ _ _ _) as [rect|] eqn:Hrect; [|done].
    unfold bind at 1.
    destruct (gen _ _ _ _ _ _ _ _ _ wd) as [[blob|e'] wd1]; [|done].
    unfold bind at 1.
    destruct (createObjectURL blob wd1) as [[url|e'] wd2]; [|done].
    destruct blob as [b|]; [|done].
    intros (Hlen & Hids & Hrects)%IH. split_and!.
    + rewrite Hlen, length_app. cbn [length]. lia.
    + rewrite Hids, fmap_app. cbn [fmap list_fmap sr_id].
      rewrite <- app_assoc. cbn [app length]. f_equal.
      rewrite Nat2Z.inj_succ, (seqZ_cons idc) by lia. f_equal. f_equal; lia.
    + rewrite Hrects, !fmap_app. cbn [fmap list_fmap sr_originalRect fst snd].
      rewrite <- app_assoc. cbn [app]. by rewrite Hrect.
Qed.

End BatchFacts.

Lemma handleSplit_run
    (gen : Platform → Image → Rect → Margins → Offset → bool → string →
           OutputSize → Format → M (option Blob))
    (p : Platform) (st : AppState) (image : Image) (wd : World) :
  imageElement st = Some image →
  handleSplit gen p st wd =
    match splitLoop gen p st image (sort_numeric (rowPositions st))
            (sort_numeric (colPositions st))
            (cells (sort_numeric (rowPositions st)) (sort_numeric (colPositions st)))
            [] 0%Z wd with
    | (Ok rs, wd1) =>
        (Ok (setIsProcessing false (setResults (Some rs) (setIsProcessing true st))), wd1)
    | (Throw e, wd1) =>
        (Ok (setIsProcessing false (setIsProcessing true st)),
         {| canvases := canvases wd1; objectURLs := objectURLs wd1;
            alerts := alerts wd1 ++ ["Error splitting image"];
            console_error := console_error wd1 ++ [e] |})
    end.
Proof.
  intros Himg. unfold handleSplit. rewrite Himg.
  unfold bind at 1. unfold try_catch. unfold bind at 1.
  by destruct (splitLoop _ _ _ _ _ _ _ _ _ _) as [[rs|e] wd1].
Qed.

(** C1 (as amended). [handleSplit] with an image loaded never throws and
    ends with [isProcessing] off.  When the loop over the cells throws, the
    result set keeps the value it had, also for the cells composed before,
    and the one alert "Error splitting image" is shown; when the loop runs
    to its end the result set is the list it built: one result per cell,
    in the order of the cells, with ids 0, 1, 2, ... and the rectangles of
    the cells.  The loop throws as
    soon as a compose call fails: if the cells before [(r, c)] composed and
    the compose call for [(r, c)] fails, the loop ends there with that
    error, in the page that call left behind, whatever cells remain. *)
Theorem handleSplit_stops_at_first_failure
    (gen : Platform → Image → Rect → Margins → Offset → bool → string →
           OutputSize → Format → M (option Blob))
    (p : Platform) (st : AppState) (image : Image) (wd : World) :
  imageElement st = Some image →
  let sortedRows := sort_numeric (rowPositions st) in
  let sortedCols := sort_numeric (colPositions st) in
  let all := cells sortedRows sortedCols in
  let loop := splitLoop gen p st image sortedRows sortedCols in
  let run := handleSplit gen p st wd in
  (∃ st', run.1 = Ok st' ∧ isProcessing st' = false
     ∧ match (loop all [] 0%Z wd).1 with
       | Ok newResults =>
           results st' = Some newResults
           ∧ length newResults = length all
           ∧ sr_id <$> newResults = seqZ 0 (Z.of_nat (length all))
           ∧ Some <$> (sr_originalRect <$> newResults) =
               (λ rc, cellRect sortedRows sortedCols rc.1 rc.2
                        (naturalWidth image) (naturalHeight image)
                        (paddingX st) (paddingY st)) <$> all
           ∧ run.2 = (loop all [] 0%Z wd).2
       | Throw e =>
           results st' = results st
           ∧ alerts run.2 = alerts (loop all [] 0%Z wd).2 ++ ["Error splitting image"]
           ∧ canvases run.2 = canvases (loop all [] 0%Z wd).2
       end)
  ∧ (∀ todo1 r c todo2 rs wd1 rect e wd',
       all = todo1 ++ (r, c) :: todo2 →
       loop todo1 [] 0%Z wd = (Ok rs, wd1) →
       cellRect sortedRows sortedCols r c (naturalWidth image) (naturalHeight image)
         (paddingX st) (paddingY st) = Some rect →
       gen p image rect no_margins no_offset false "transparent"
         (outputSize st) (format st) wd1 = (Throw e, wd') →
       loop all [] 0%Z wd = (Throw e, wd')).
Proof.
  intros Himg sortedRows sortedCols all loop run.
  split_and!.
  - subst run. rewrite (handleSplit_run gen p st image wd Himg).
    fold sortedRows sortedCols all loop.
    destruct (loop all [] 0%Z wd) as [[rs|e] wd1] eqn:Hloop; cbn [fst snd].
    + eexists. split; [reflexivity|]. split; [done|].
      apply splitLoop_Ok in Hloop as (Hlen & Hids & Hrects).
      split_and!; done.
    + eexists. split; [reflexivity|]. split; [done|]. split_and!; done.
  - intros todo1 r c todo2 rs wd1 rect e wd' Hall Hpre Hrect Hgen.
    rewrite Hall. unfold loop in *. rewrite splitLoop_app, Hpre.
    by eapply splitLoop_compose_fails.
Qed.

Lemma handleSplit_stops_at_first_failure_witness :
  ∃ st', (AppTsx.handleSplit platform_without_gif state_2x2 emptyWorld).1 = Ok st'
         ∧ isProcessing st' = false.
Proof.
  destruct (handleSplit_stops_at_first_failure AppTsx.generateImageBlob
              platform_without_gif state_2x2 image_400 emptyWorld)
    as [(st' & Hrun & Hproc & _) _].
  - vm_compute. reflexivity.
  - exists st'. split; assumption.
Defined.

(** The claim as stated fails: on a 2 x 2 grid, when the compose call of
    the second cell fails (its canvas gets no context), the third and the
    fourth cell are never composed (two canvases exist in the end, not
    four), the result of the first cell is not kept (the result set is
    still empty), and the batch alert is shown. *)
Lemma handleSplit_partial_failure_counterexample :
  let run := AppTsx.handleSplit platform_second_canvas_fails state_2x2 emptyWorld in
  length (cells (sort_numeric (rowPositions state_2x2))
                (sort_numeric (colPositions state_2x2))) = 4%nat
  ∧ (∃ st', run.1 = Ok st' ∧ results st' = None)
  ∧ length (canvases run.2) = 2%nat
  ∧ alerts run.2 = ["Error splitting image"].
Proof.
  intros run. split_and!.
  - vm_compute. reflexivity.
  - eexists. split; vm_compute; reflexivity.
  - vm_compute. reflexivity.
  - vm_compute. reflexivity.
Qed.

(** The cells the loops visit lie inside the grid, so each of them has a
    rectangle: the "cell outside the grid" case of [splitLoop] is not
    reached. *)
Lemma cells_in_bounds (sortedRows sortedCols : list Qc) (r c : nat) :
  (r, c) ∈ cells sortedRows sortedCols →
  (r + 1 < length sortedRows)%nat ∧ (c + 1 < length sortedCols)%nat.
Proof.
  unfold cells. rewrite list_elem_of_bind. intros (r' & Hin & Hr).
  apply list_elem_of_bind in Hin as (c' & Hin & Hc).
  apply list_elem_of_singleton in Hin as [= -> ->].
  apply elem_of_seq in Hr. apply elem_of_seq in Hc. lia.
Qed.

Lemma cells_have_rects (sortedRows sortedCols : list Qc) (r c : nat)
    (iw ih px py : Qc) :
  (r, c) ∈ cells sortedRows sortedCols →
  ∃ rect, cellRect sortedRows sortedCols r c iw ih px py = Some rect
          ∧ 1 ≤ w rect ∧ 1 ≤ h rect.
Proof.
  intros [Hr Hc]%cells_in_bounds. by apply cellRect_inside.
Qed.

(** ** Drag-move updates *)

Lemma slice0_Forall {A} (P : A → Prop) (l : list A) (e : Z) :
  Forall P l → Forall P (slice0 l e).
Proof. intros H. unfold slice0. case_decide; by apply Forall_take. Qed.

Lemma addToHistory_history_Forall (P : HistoryState → Prop) (s : HistoryState)
    (st : AppState) :
  P s → Forall P (history st) → Forall P (history (addToHistory s st)).
Proof.
  intros Hs Hh. unfold addToHistory. destruct (isUndoRedo st); [done|].
  pose proof (slice0_Forall P _ (historyIndex st + 1) Hh) as Hc.
  destruct (last _); [case_decide|]; cbn [history setHistory setHistoryIndex];
    try done; apply Forall_app; by repeat constructor.
Qed.

(** Writing a percentage over one line: the array holds percentages when
    the other lines do. *)
Lemma insert_percentages_others (l : list Qc) (i : nat) (v : Qc) :
  percentage v →
  (∀ (j : nat) (a : Qc), j ≠ i → l !! j = Some a → percentage a) →
  percentages (<[i := v]> l).
Proof.
  intros Hv Hl. apply Forall_lookup. intros j a Hj.
  destruct (decide (j = i)) as [->|Hne].
  - rewrite list_lookup_insert_eq in Hj by (apply lookup_lt_Some in Hj;
      by rewrite length_insert in Hj).
    by injection Hj as <-.
  - rewrite list_lookup_insert_ne in Hj by done. by eapply Hl.
Qed.

(** A drag-move update of an existing line, in both files. *)
Lemma handleMove_spec (type : LineType) (index : nat)
    (rect : DOMRect) (ev : PointerEvent) (st : AppState) :
  (index < length (axis type st))%nat →
  (if bool_decide (type = row) then rect_height rect else rect_width rect) ≠ 0 →
  ∃ pct, dragPct type rect ev = Some pct
    ∧ Part000.handleMove type index rect ev st =
        Some (match type with
              | row => setRowPositions
              | col => setColPositions
              end (sort_numeric
                     (<[index := Number_toFixed2
                                   (Math_max 0 (Math_min (Qc_of_Z 100) pct))]>
                        (axis type st))) st)
    ∧ AppTsx.handleMove type index rect ev st =
        Some (match type with
              | row => setRowPositions
              | col => setColPositions
              end (sort_numeric
                     (<[index := Math_max 0 (Math_min (Qc_of_Z 100) pct)]>
                        (axis type st))) st).
Proof.
  intros Hi Hdim.
  destruct (dragPct_Some type rect ev Hdim) as [pct Hpct].
  exists pct. split; [done|].
  unfold Part000.handleMove, Part000.updateLinePosition, AppTsx.handleMove.
  rewrite Hpct. cbn [mbind option_bind].
  destruct type; cbn [axis] in *; by rewrite !array_set_Some by done.
Qed.

(** C8 (as amended). After a drag-move update of a line that exists (the
    index is inside the array of its axis, the container has a non-zero
    extent), in both files: the value written at the line's index is the
    pointer's percentage clamped to [0,100] (and, in part_000, rounded to
    two decimals); the array of that axis is then re-sorted, so it is
    non-decreasing; each of its elements lies in [0,100] when the other
    lines of the axis did before the move; the array has the same number of
    lines and the other axis is untouched. *)
Theorem drag_move_sorted_within_bounds (type : LineType) (index : nat)
    (rect : DOMRect) (ev : PointerEvent) (st : AppState) :
  (index < length (axis type st))%nat →
  (if bool_decide (type = row) then rect_height rect else rect_width rect) ≠ 0 →
  ∃ pct,
    dragPct type rect ev = Some pct
    ∧ percentage (Math_max 0 (Math_min (Qc_of_Z 100) pct))
    ∧ percentage (Number_toFixed2 (Math_max 0 (Math_min (Qc_of_Z 100) pct)))
    ∧ (∃ st', Part000.handleMove type index rect ev st = Some st'
          ∧ axis type st' =
              sort_numeric
                (<[index := Number_toFixed2 (Math_max 0 (Math_min (Qc_of_Z 100) pct))]>
                   (axis type st))
          ∧ non_decreasing (axis type st')
          ∧ ((∀ (j : nat) (a : Qc),
                j ≠ index → axis type st !! j = Some a → percentage a) →
             percentages (axis type st'))
          ∧ length (axis type st') = length (axis type st)
          ∧ other_axis type st' = other_axis type st)
    ∧ (∃ st', AppTsx.handleMove type index rect ev st = Some st'
          ∧ axis type st' =
              sort_numeric
                (<[index := Math_max 0 (Math_min (Qc_of_Z 100) pct)]> (axis type st))
          ∧ non_decreasing (axis type st')
          ∧ ((∀ (j : nat) (a : Qc),
                j ≠ index → axis type st !! j = Some a → percentage a) →
             percentages (axis type st'))
          ∧ length (axis type st') = length (axis type st)
          ∧ other_axis type st' = other_axis type st).
Proof.
  intros Hi Hdim.
  destruct (handleMove_spec type index rect ev st Hi Hdim) as (pct & Hpct & HP & HA).
  pose proof (clamp_percentage pct) as Hclamp.
  pose proof (Number_toFixed2_percentage _ Hclamp) as Hfixed.
  exists pct. split_and!; [done..| |].
  - eexists. split; [exact HP|].
    destruct type; cbn [axis other_axis rowPositions colPositions
                        setRowPositions setColPositions];
      (split_and!;
       [ done
       | apply sort_numeric_non_decreasing
       | intros Hothers; by apply sort_numeric_percentages, insert_percentages_others
       | by rewrite sort_numeric_length, length_insert
       | done ]).
  - eexists. split; [exact HA|].
    destruct type; cbn [axis other_axis rowPositions colPositions
                        setRowPositions setColPositions];
      (split_and!;
       [ done
       | apply sort_numeric_non_decreasing
       | intros Hothers; by apply sort_numeric_percentages, insert_percentages_others
       | by rewrite sort_numeric_length, length_insert
       | done ]).
Qed.

Lemma drag_move_sorted_within_bounds_witness :
  let st := handleUpload {| naturalWidth := Qc_of_Z 400; naturalHeight := Qc_of_Z 400 |}
              initialState in
  let rect := {| rect_top := 0; rect_left := 0;
                 rect_width := Qc_of_Z 400; rect_height := Qc_of_Z 400 |} in
  let ev := {| clientX := Qc_of_Z 10; clientY := Qc_of_Z 300 |} in
  ∃ st', Part000.handleMove row 1 rect ev st = Some st'
         ∧ non_decreasing (axis row st') ∧ percentages (axis row st').
Proof.
  intros st rect ev.
  destruct (drag_move_sorted_within_bounds row 1 rect ev st)
    as (pct & _ & _ & _ & (st' & H1 & _ & H2 & H3 & _) & _).
  - vm_compute. lia.
  - vm_compute. intros H. discriminate H.
  - exists st'. split_and!; [assumption..|].
    apply H3. intros j a _ Hj.
    assert (percentages (axis row st)) as Hall
      by (apply (bool_decide_unpack _); vm_compute; reflexivity).
    by eapply (proj1 (Forall_lookup _ _) Hall).
Defined.

(** The claim as stated fails in [src/App.tsx]: the arrow keys can push an
    end line out of [0,100] (ArrowUp on the first row line of the default
    grid gives [-0.2]), and a later drag-move update of another line keeps
    that value in the array. *)
Lemma drag_move_sorted_within_bounds_counterexample :
  let st0 := setSelectedLine (Some (row, 0%nat)) (handleUpload image_400 initialState) in
  let e := {| targetIsInput := false; ctrlOrMeta := false;
              shiftKey := false; key := ArrowUp |} in
  let rect := {| rect_top := 0; rect_left := 0;
                 rect_width := Qc_of_Z 400; rect_height := Qc_of_Z 400 |} in
  let ev := {| clientX := Qc_of_Z 10; clientY := Qc_of_Z 300 |} in
  ∃ st1 st2 v,
    AppTsx.handleKeyDown e st0 = Some st1
    ∧ AppTsx.handleMove row 2 rect ev st1 = Some st2
    ∧ rowPositions st2 !! 0%nat = Some v ∧ v < 0
    ∧ ¬ percentages (axis row st2).
Proof.
  intros st0 e rect ev. eexists _, _, _. split_and!.
  - vm_compute. reflexivity.
  - vm_compute. reflexivity.
  - vm_compute. reflexivity.
  - vm_compute. reflexivity.
  - apply (bool_decide_unpack _). vm_compute. reflexivity.
Qed.

(** ** The history pointer stays inside the stack *)

Lemma updateLinePosition_history (type : LineType) (index : nat) (v : Qc)
    (st st' : AppState) :
  Part000.updateLinePosition type index v st = Some st' →
  history st' = history st ∧ historyIndex st' = historyIndex st.
Proof.
  unfold Part000.updateLinePosition.
  destruct type; destruct (array_set _ _ _); cbn [mbind option_bind]; try done;
    by intros [= <-].
Qed.

Lemma history_wf_same (st st' : AppState) :
  history st' = history st → historyIndex st' = historyIndex st →
  history_wf st → history_wf st'.
Proof. unfold history_wf. by intros -> ->. Qed.

(** * Further properties of the code *)

Ltac qc2q' :=
  qc2q; change (/ 100)%Q with (1 # 100)%Q in *;
  change (/ (1 + 1))%Q with (1 # 2)%Q in *.

(** ** [generatePositions] for any count *)

Lemma generatePositions_non_decreasing (count : Z) :
  non_decreasing (generatePositions count).
Proof.
  destruct (decide (count < 1)%Z) as [Hlt|Hge].
  - unfold generatePositions. rewrite decide_True by done.
    intros i j a b Hij Ha Hb.
    destruct i as [|[|i]]; destruct j as [|[|j]]; try lia; try done.
    injection Ha as <-. injection Hb as <-.
    rewrite <- Z2Qc_inj_0. apply Qc_of_Z_le. lia.
  - intros i j a b Hij Ha Hb.
    assert (1 ≤ count)%Z as Hn by lia.
    apply generatePositions_lookup_Some in Ha as [Hi ->]; [|done].
    apply generatePositions_lookup_Some in Hb as [Hj ->]; [|done].
    pose proof (step_times_count count Hn) as Hstep.
    assert (1 ≤ Qc_of_Z count) as HN by (rewrite <- Z2Qc_inj_1; apply Qc_of_Z_le; lia).
    pose proof (step_pos _ _ HN Hstep) as HX0%Qclt_le_weak.
    apply Number_toFixed2_mono.
    + rewrite <- (Qcmult_0_l (Qc_of_Z 100 / Qc_of_Z count)).
      apply mul_step_mono; [done|]. rewrite <- Z2Qc_inj_0. apply Qc_of_Z_le. lia.
    + apply mul_step_mono; [done|]. apply Qc_of_Z_le. lia.
Qed.

(** X1. For every count, also below 1 and above 10000,
    [generatePositions] answers a non-decreasing list of percentages with
    two decimals that starts at 0 and ends at 100; it has two values when
    the count is below 1 and [count + 1] values otherwise. *)
Theorem generatePositions_any_count (count : Z) :
  length (generatePositions count)
    = (if decide (count < 1)%Z then 2%nat else Z.to_nat (count + 1))
  ∧ non_decreasing (generatePositions count)
  ∧ percentages (generatePositions count)
  ∧ Forall two_decimals (generatePositions count)
  ∧ head (generatePositions count) = Some 0
  ∧ last (generatePositions count) = Some (Qc_of_Z 100).
Proof.
  split_and!.
  - case_decide as Hc.
    + unfold generatePositions. by rewrite decide_True.
    + apply generatePositions_length. lia.
  - apply generatePositions_non_decreasing.
  - apply generatePositions_percentages.
  - apply generatePositions_two_decimals.
  - destruct (decide (count < 1)%Z) as [Hc|Hc].
    + unfold generatePositions. by rewrite decide_True.
    + apply generatePositions_head. lia.
  - destruct (decide (count < 1)%Z) as [Hc|Hc].
    + unfold generatePositions. by rewrite decide_True.
    + apply generatePositions_last. lia.
Qed.

(** ** Cell rectangles inside the image *)

Lemma Math_max_r (a b : Qc) : a ≤ b → Math_max a b = b.
Proof. intros H. unfold Math_max. by rewrite decide_True. Qed.

Lemma percent_of_bounds (v d : Qc) :
  0 ≤ v → v ≤ Qc_of_Z 100 → 0 ≤ d →
  0 ≤ v / Qc_of_Z 100 * d ∧ v / Qc_of_Z 100 * d ≤ d.
Proof. intros H0 H100 Hd. split; qc2q'; nra. Qed.

(** X2. For lines that are percentages, padding that is not negative and a
    cell whose pixel span leaves at least one pixel between the paddings,
    the rectangle [handleSplit] derives is the cell shrunk by the padding
    on each side, and it lies inside the image. *)
Theorem cellRect_shrinks_inside_image (sortedRows sortedCols : list Qc)
    (r c : nat) (iw ih px py row1 row2 col1 col2 : Qc) :
  sortedRows !! r = Some row1 → sortedRows !! (r + 1)%nat = Some row2 →
  sortedCols !! c = Some col1 → sortedCols !! (c + 1)%nat = Some col2 →
  percentage row1 → percentage row2 → percentage col1 → percentage col2 →
  0 ≤ iw → 0 ≤ ih → 0 ≤ px → 0 ≤ py →
  px * 2 + 1 ≤ col2 / Qc_of_Z 100 * iw - col1 / Qc_of_Z 100 * iw →
  py * 2 + 1 ≤ row2 / Qc_of_Z 100 * ih - row1 / Qc_of_Z 100 * ih →
  ∃ rect, cellRect sortedRows sortedCols r c iw ih px py = Some rect
    ∧ x rect = col1 / Qc_of_Z 100 * iw + px
    ∧ x rect + w rect = col2 / Qc_of_Z 100 * iw - px
    ∧ y rect = row1 / Qc_of_Z 100 * ih + py
    ∧ y rect + h rect = row2 / Qc_of_Z 100 * ih - py
    ∧ 0 ≤ x rect ∧ x rect + w rect ≤ iw
    ∧ 0 ≤ y rect ∧ y rect + h rect ≤ ih.
Proof.
  intros H1 H2 H3 H4 [Hr1 Hr1'] [Hr2 Hr2'] [Hc1 Hc1'] [Hc2 Hc2'] Hiw Hih Hpx Hpy Hw Hh.
  eexists. split; [by eapply cellRect_Some|]. cbn [x y w h].
  rewrite !Math_max_r.
  2:{ qc2q. lra. }
  2:{ qc2q. lra. }
  destruct (percent_of_bounds col1 iw Hc1 Hc1' Hiw) as [Ha Hb].
  destruct (percent_of_bounds col2 iw Hc2 Hc2' Hiw) as [Ha2 Hb2].
  destruct (percent_of_bounds row1 ih Hr1 Hr1' Hih) as [Hc Hd].
  destruct (percent_of_bounds row2 ih Hr2 Hr2' Hih) as [Hc' Hd'].
  set (X1 := col1 / Qc_of_Z 100 * iw) in *. set (X2 := col2 / Qc_of_Z 100 * iw) in *.
  set (Y1 := row1 / Qc_of_Z 100 * ih) in *. set (Y2 := row2 / Qc_of_Z 100 * ih) in *.
  split_and!; try done; try ring.
  - qc2q. lra.
  - assert (X1 + px + (X2 - X1 - px * 2) = X2 - px) as -> by ring. qc2q. lra.
  - qc2q. lra.
  - assert (Y1 + py + (Y2 - Y1 - py * 2) = Y2 - py) as -> by ring. qc2q. lra.
Qed.

Lemma cellRect_shrinks_inside_image_witness :
  ∃ rect, cellRect (Qc_of_Z <$> [0; 50; 100]%Z) (Qc_of_Z <$> [0; 50; 100]%Z) 0 1
            (Qc_of_Z 400) (Qc_of_Z 400) (Qc_of_Z 10) (Qc_of_Z 10) = Some rect
        ∧ 0 ≤ x rect ∧ x rect + w rect ≤ Qc_of_Z 400
        ∧ 0 ≤ y rect ∧ y rect + h rect ≤ Qc_of_Z 400.
Proof.
  destruct (cellRect_shrinks_inside_image
              (Qc_of_Z <$> [0; 50; 100]%Z) (Qc_of_Z <$> [0; 50; 100]%Z) 0 1
              (Qc_of_Z 400) (Qc_of_Z 400) (Qc_of_Z 10) (Qc_of_Z 10)
              (Qc_of_Z 0) (Qc_of_Z 50) (Qc_of_Z 50) (Qc_of_Z 100))
    as (rect & Hrect & _ & _ & _ & _ & H1 & H2 & H3 & H4).
  - reflexivity.
  - reflexivity.
  - reflexivity.
  - reflexivity.
  - split; vm_compute; discriminate.
  - split; vm_compute; discriminate.
  - split; vm_compute; discriminate.
  - split; vm_compute; discriminate.
  - vm_compute. discriminate.
  - vm_compute. discriminate.
  - vm_compute. discriminate.
  - vm_compute. discriminate.
  - vm_compute. discriminate.
  - vm_compute. discriminate.
  - exists rect. by split_and!.
Defined.

(** ** The cells of a split *)

(** X3. With horizontal padding 0, two cells next to each other in a row
    share their edge exactly when the left cell spans at least one pixel;
    a narrower cell is widened to one pixel and reaches into its
    neighbour. *)
Theorem cellRect_neighbours_share_edge (sortedRows sortedCols : list Qc)
    (r c : nat) (iw ih py row1 row2 col1 col2 col3 : Qc) :
  sortedRows !! r = Some row1 → sortedRows !! (r + 1)%nat = Some row2 →
  sortedCols !! c = Some col1 → sortedCols !! (c + 1)%nat = Some col2 →
  sortedCols !! (c + 1 + 1)%nat = Some col3 →
  ∃ a b, cellRect sortedRows sortedCols r c iw ih 0 py = Some a
       ∧ cellRect sortedRows sortedCols r (c + 1) iw ih 0 py = Some b
       ∧ y a = y b ∧ h a = h b
       ∧ (x a + w a = x b ↔ 1 ≤ col2 / Qc_of_Z 100 * iw - col1 / Qc_of_Z 100 * iw)
       ∧ x b ≤ x a + w a.
Proof.
  intros H1 H2 H3 H4 H5.
  eexists _, _. split; [by eapply cellRect_Some|].
  split; [by eapply cellRect_Some|]. cbn [x y w h].
  split; [done|]. split; [done|].
  set (X1 := col1 / Qc_of_Z 100 * iw). set (X2 := col2 / Qc_of_Z 100 * iw).
  assert (X2 - X1 - 0 * 2 = X2 - X1) as -> by ring.
  unfold Math_max. case_decide as Hspan.
  - split; [split; [done|intros _; ring]|].
    assert (X1 + 0 + (X2 - X1) = X2 + 0) as -> by ring. apply Qcle_refl.
  - apply Qcnot_le_lt in Hspan. split.
    + split; [|intros Hle; by apply Qcle_not_lt in Hle].
      intros Heq. exfalso. revert Hspan Heq. generalize X1 X2. intros a b Hlt Heq.
      assert (b - a = 1) as E by (rewrite <- (Qcplus_0_r b), <- Heq; ring).
      rewrite E in Hlt. by apply Qclt_not_eq in Hlt.
    + revert Hspan. generalize X1 X2. intros a b Hlt. qc2q'. lra.
Qed.

Lemma cellRect_neighbours_share_edge_witness :
  ∃ a b, cellRect (Qc_of_Z <$> [0; 100]%Z) (Qc_of_Z <$> [0; 50; 100]%Z) 0 0
           (Qc_of_Z 400) (Qc_of_Z 400) 0 0 = Some a
       ∧ cellRect (Qc_of_Z <$> [0; 100]%Z) (Qc_of_Z <$> [0; 50; 100]%Z) 0 1
           (Qc_of_Z 400) (Qc_of_Z 400) 0 0 = Some b
       ∧ x a + w a = x b.
Proof.
  destruct (cellRect_neighbours_share_edge
              (Qc_of_Z <$> [0; 100]%Z) (Qc_of_Z <$> [0; 50; 100]%Z) 0 0
              (Qc_of_Z 400) (Qc_of_Z 400) 0
              (Qc_of_Z 0) (Qc_of_Z 100) (Qc_of_Z 0) (Qc_of_Z 50) (Qc_of_Z 100))
    as (a & b & Ha & Hb & _ & _ & Hiff & _).
  - reflexivity.
  - reflexivity.
  - reflexivity.
  - reflexivity.
  - reflexivity.
  - exists a, b. split_and!; [exact Ha|exact Hb|].
    apply Hiff. vm_compute. discriminate.
Defined.

Lemma cells_from (a n m k : nat) :
  (k < n * m)%nat →
  (seq a n ≫= λ r, seq 0 m ≫= λ c, [(r, c)]) !! k
    = Some ((a + k / m)%nat, (k mod m)%nat).
Proof.
  revert a k. induction n as [|n IH]; intros a k Hk; [lia|].
  assert (0 < m)%nat as Hm by (destruct m; lia).
  assert ((seq 0 m ≫= λ c, [(a, c)]) = (λ c, (a, c)) <$> seq 0 m) as Hrow.
  { generalize (seq 0 m). intros l. induction l as [|z l IHl]; [done|].
    cbn. by rewrite <- IHl. }
  cbn [seq]. rewrite bind_cons, Hrow.
  destruct (decide (k < m)%nat) as [Hlt|Hge].
  - rewrite lookup_app_l by (by rewrite length_fmap, length_seq).
    rewrite list_lookup_fmap, lookup_seq_lt by done. cbn.
    rewrite Nat.div_small, Nat.mod_small by done. do 2 f_equal. lia.
  - rewrite lookup_app_r by (rewrite length_fmap, length_seq; lia).
    rewrite length_fmap, length_seq. rewrite IH by lia.
    assert (k = (k - m) + 1 * m)%nat as Hk' by lia.
    rewrite Hk' at 3 4. rewrite Nat.div_add, Nat.Div0.mod_add by lia.
    do 2 f_equal. lia.
Qed.

Lemma cells_from_length (a n m : nat) :
  length (seq a n ≫= λ r, seq 0 m ≫= λ c, [(r, c)]) = (n * m)%nat.
Proof.
  revert a. induction n as [|n IH]; intros a; [reflexivity|].
  cbn [seq]. rewrite bind_cons, length_app, IH.
  assert (∀ l : list nat, length (l ≫= λ c, [(a, c)]) = length l) as Hrow.
  { intros l. induction l as [|z l IHl]; [done|]. cbn. by rewrite IHl. }
  rewrite Hrow, length_seq. lia.
Qed.

Lemma cells_length (sortedRows sortedCols : list Qc) :
  length (cells sortedRows sortedCols)
  = ((length sortedRows - 1) * (length sortedCols - 1))%nat.
Proof. apply cells_from_length. Qed.

Lemma cells_lookup (sortedRows sortedCols : list Qc) (k : nat) :
  (k < (length sortedRows - 1) * (length sortedCols - 1))%nat →
  cells sortedRows sortedCols !! k
  = Some ((k / (length sortedCols - 1))%nat, (k mod (length sortedCols - 1))%nat).
Proof. intros Hk. unfold cells. by rewrite cells_from. Qed.

Lemma splitLoop_untouched
    (gen : Platform → Image → Rect → Margins → Offset → bool → string →
           OutputSize → Format → M (option Blob))
    (p : Platform) (st : AppState) (image : Image) (sortedRows sortedCols : list Qc)
    (todo : list (nat * nat)) (acc rs : list SplitResult)
    (idc : Z) (wd wd' : World) :
  splitLoop gen p st image sortedRows sortedCols todo acc idc wd = (Ok rs, wd') →
  Forall (untouched_result st) acc → Forall (untouched_result st) rs.
Proof.
  revert acc idc wd.
  induction todo as [|[r c] todo IH]; intros acc idc wd.
  - by intros [= <- <-].
  - cbn [splitLoop].
    destruct (cellRect _ _ _ _ _ _ _ _) as [rect|] eqn:Hrect; [|done].
    unfold bind at 1.
    destruct (gen _ _ _ _ _ _ _ _ _ wd) as [[blob|e'] wd1]; [|done].
    unfold bind at 1.
    destruct (createObjectURL blob wd1) as [[url|e'] wd2]; [|done].
    destruct blob as [b|]; [|done].
    intros Hrun Hacc. eapply IH; [done|].
    apply Forall_app. split; [done|]. by repeat constructor.
Qed.

(** X4. A split that runs to its end over a grid with [R] row lines and
    [C] column lines stores [(R-1) * (C-1)] results in row-major order:
    the result at position [k] has id [k], holds the rectangle of the cell
    in row [k / (C-1)] and column [k mod (C-1)] of the sorted lines, has
    the chosen format and output size, and carries no fine-tune data. *)
Theorem handleSplit_results_row_major
    (gen : Platform → Image → Rect → Margins → Offset → bool → string →
           OutputSize → Format → M (option Blob))
    (p : Platform) (st : AppState) (image : Image) (wd wd' : World)
    (rs : list SplitResult) :
  imageElement st = Some image →
  let sortedRows := sort_numeric (rowPositions st) in
  let sortedCols := sort_numeric (colPositions st) in
  let nc := (length (colPositions st) - 1)%nat in
  splitLoop gen p st image sortedRows sortedCols (cells sortedRows sortedCols)
    [] 0%Z wd = (Ok rs, wd') →
  (∃ st', handleSplit gen p st wd = (Ok st', wd') ∧ results st' = Some rs)
  ∧ length rs = ((length (rowPositions st) - 1) * nc)%nat
  ∧ ∀ k res, rs !! k = Some res →
      sr_id res = Z.of_nat k
      ∧ cellRect sortedRows sortedCols (k / nc) (k mod nc)
          (naturalWidth image) (naturalHeight image) (paddingX st) (paddingY st)
        = Some (sr_originalRect res)
      ∧ untouched_result st res.
Proof.
  intros Himg sortedRows sortedCols nc Hloop.
  pose proof (splitLoop_Ok gen p st image sortedRows sortedCols _ _ _ _ _ _ Hloop)
    as (Hlen & Hids & Hrects).
  pose proof (splitLoop_untouched gen p st image sortedRows sortedCols _ _ _ _ _ _
                Hloop (Forall_nil_2 _)) as Hun.
  assert (length (cells sortedRows sortedCols)
          = ((length (rowPositions st) - 1) * nc)%nat) as Hcells.
  { rewrite cells_length. unfold sortedRows, sortedCols, nc.
    by rewrite !sort_numeric_length. }
  cbn [length fmap list_fmap app] in Hlen, Hids, Hrects.
  split_and!.
  - eexists. rewrite (handleSplit_run gen p st image wd Himg).
    fold sortedRows sortedCols. rewrite Hloop. done.
  - by rewrite Hlen, Hcells.
  - intros k res Hk.
    assert (k < length rs)%nat as Hlt by (by eapply lookup_lt_Some).
    split_and!.
    + assert ((sr_id <$> rs) !! k = Some (sr_id res)) as Hid
        by (by rewrite list_lookup_fmap, Hk).
      rewrite Hids in Hid. apply lookup_seqZ in Hid as [-> _]. lia.
    + assert ((Some <$> (sr_originalRect <$> rs)) !! k = Some (Some (sr_originalRect res))) as Hr
        by (by rewrite !list_lookup_fmap, Hk).
      rewrite Hrects, list_lookup_fmap, cells_lookup in Hr.
      * cbn in Hr. injection Hr as Hr.
        unfold nc. rewrite <- (sort_numeric_length (colPositions st)). exact Hr.
      * rewrite <- cells_length. lia.
    + rewrite Forall_lookup in Hun. by eapply Hun.
Qed.

Lemma handleSplit_results_row_major_witness :
  ∃ rs, results <$> match (AppTsx.handleSplit platform_without_gif state_2x2 emptyWorld).1
                    with Ok st' => Some st' | Throw _ => None end = Some (Some rs)
      ∧ length rs = 4%nat
      ∧ ∀ k res, rs !! k = Some res → sr_id res = Z.of_nat k.
Proof.
  destruct (splitLoop AppTsx.generateImageBlob platform_without_gif state_2x2 image_400
              (sort_numeric (rowPositions state_2x2)) (sort_numeric (colPositions state_2x2))
              (cells (sort_numeric (rowPositions state_2x2))
                     (sort_numeric (colPositions state_2x2)))
              [] 0%Z emptyWorld) as [[rs|e] wd'] eqn:Hloop.
  - destruct (handleSplit_results_row_major AppTsx.generateImageBlob
                platform_without_gif state_2x2 image_400 emptyWorld wd' rs)
      as ((st' & Hrun & Hres) & Hlen & Hall).
    + vm_compute. reflexivity.
    + exact Hloop.
    + exists rs. split_and!.
      * unfold AppTsx.handleSplit. rewrite Hrun. cbn. by rewrite Hres.
      * exact Hlen.
      * intros k res Hk. by destruct (Hall k res Hk).
  - vm_compute in Hloop. discriminate Hloop.
Defined.

(** ** What a split depends on, and what it leaves alone *)

Lemma sort_numeric_unique (l1 l2 : list Qc) :
  l1 ≡ₚ l2 → sort_numeric l1 = sort_numeric l2.
Proof.
  intros Hp. unfold sort_numeric.
  assert (AntiSymm (=) Qcle) as Hanti by (intros a b; apply Qcle_antisym).
  apply (StronglySorted_unique Qcle).
  - apply (StronglySorted_merge_sort Qcle).
  - apply (StronglySorted_merge_sort Qcle).
  - by rewrite !merge_sort_Permutation.
Qed.

(** The loop reads four hooks of the component: both paddings, the output
    size and the format. *)
Lemma splitLoop_reads
    (gen : Platform → Image → Rect → Margins → Offset → bool → string →
           OutputSize → Format → M (option Blob))
    (p : Platform) (st1 st2 : AppState) (image : Image)
    (sortedRows sortedCols : list Qc) (todo : list (nat * nat))
    (acc : list SplitResult) (idc : Z) (wd : World) :
  paddingX st1 = paddingX st2 → paddingY st1 = paddingY st2 →
  outputSize st1 = outputSize st2 → format st1 = format st2 →
  splitLoop gen p st1 image sortedRows sortedCols todo acc idc wd
  = splitLoop gen p st2 image sortedRows sortedCols todo acc idc wd.
Proof.
  intros Hx Hy Ho Hf. revert acc idc wd.
  induction todo as [|[r c] todo IH]; intros acc idc wd; [done|].
  cbn [splitLoop]. rewrite Hx, Hy, Ho, Hf.
  destruct (cellRect _ _ _ _ _ _ _ _) as [rect|]; [|done].
  unfold bind at 1 3.
  destruct (gen _ _ _ _ _ _ _ _ _ wd) as [[blob|e'] wd1]; [|done].
  unfold bind at 1 2.
  destruct (createObjectURL blob wd1) as [[url|e'] wd2]; [|done].
  destruct blob as [b|]; [|done]. apply IH.
Qed.

(** X5. [handleSplit] never throws and writes two hooks only, [results]
    and [isProcessing]: the grid, its history, the selection, the dialog
    and the settings are as before, whether the split succeeds or not.
    Without an image it changes nothing at all, neither in the component
    nor on the page. *)
Theorem handleSplit_writes_results_only
    (gen : Platform → Image → Rect → Margins → Offset → bool → string →
           OutputSize → Format → M (option Blob))
    (p : Platform) (st : AppState) (wd : World) :
  ∃ st', (handleSplit gen p st wd).1 = Ok st'
    ∧ setIsProcessing (isProcessing st) (setResults (results st) st') = st
    ∧ (imageElement st = None → st' = st ∧ (handleSplit gen p st wd).2 = wd)
    ∧ (is_Some (imageElement st) → isProcessing st' = false).
Proof.
  destruct (imageElement st) as [image|] eqn:Himg.
  - rewrite (handleSplit_run gen p st image wd Himg).
    destruct (splitLoop _ _ _ _ _ _ _ _ _ _) as [[rs|e] wd1]; cbn [fst snd];
      eexists; (split; [done|]); (split_and!; [by destruct st|done|done]).
  - exists st. unfold handleSplit. rewrite Himg. unfold ret. cbn [fst snd].
    split_and!; [done|by destruct st|done|by intros [? ?]].
Qed.

Lemma handleSplit_writes_results_only_witness :
  (AppTsx.handleSplit platform_without_gif initialState emptyWorld).2 = emptyWorld.
Proof.
  destruct (handleSplit_writes_results_only AppTsx.generateImageBlob
              platform_without_gif initialState emptyWorld)
    as (st' & _ & _ & Hnone & _).
  by destruct (Hnone eq_refl) as [_ Hwd].
Defined.

(** X6. A split depends on the lines only through their sorted order:
    storing the same line values in another order gives the same results
    and the same page. *)
Theorem handleSplit_line_order_irrelevant
    (gen : Platform → Image → Rect → Margins → Offset → bool → string →
           OutputSize → Format → M (option Blob))
    (p : Platform) (st : AppState) (rp cp : list Qc) (wd : World) :
  rp ≡ₚ rowPositions st → cp ≡ₚ colPositions st →
  ∃ st' wd',
    handleSplit gen p st wd = (Ok st', wd')
    ∧ handleSplit gen p (setColPositions cp (setRowPositions rp st)) wd
      = (Ok (setColPositions cp (setRowPositions rp st')), wd').
Proof.
  intros Hr Hc.
  destruct (imageElement st) as [image|] eqn:Himg.
  - rewrite (handleSplit_run gen p st image wd Himg).
    rewrite (handleSplit_run gen p (setColPositions cp (setRowPositions rp st)) image wd Himg).
    cbn [rowPositions colPositions setColPositions setRowPositions].
    rewrite (sort_numeric_unique rp _ Hr), (sort_numeric_unique cp _ Hc).
    rewrite (splitLoop_reads gen p (setColPositions cp (setRowPositions rp st)) st)
      by done.
    destruct (splitLoop _ _ _ _ _ _ _ _ _ _) as [[rs|e] wd1]; by eexists _, _.
  - exists st, wd. unfold handleSplit. cbn [imageElement setColPositions setRowPositions].
    by rewrite Himg.
Qed.

Lemma handleSplit_line_order_irrelevant_witness :
  ∃ st' wd',
    AppTsx.handleSplit platform_without_gif state_2x2 emptyWorld = (Ok st', wd')
    ∧ AppTsx.handleSplit platform_without_gif
        (setColPositions (Qc_of_Z <$> [100; 0; 50]%Z)
           (setRowPositions (Qc_of_Z <$> [50; 100; 0]%Z) state_2x2)) emptyWorld
      = (Ok (setColPositions (Qc_of_Z <$> [100; 0; 50]%Z)
               (setRowPositions (Qc_of_Z <$> [50; 100; 0]%Z) st')), wd').
Proof.
  apply (handleSplit_line_order_irrelevant AppTsx.generateImageBlob
           platform_without_gif state_2x2
           (Qc_of_Z <$> [50; 100; 0]%Z) (Qc_of_Z <$> [100; 0; 50]%Z) emptyWorld).
  - apply (bool_decide_unpack _). vm_compute. reflexivity.
  - apply (bool_decide_unpack _). vm_compute. reflexivity.
Defined.

(** ** The compositor: geometry, sizes and the page *)




Lemma encodeGifFrame_Ok p q ap enc fc bgColor (wd wd' : World) (b : option Blob) :
  encodeGifFrame p q ap enc fc bgColor wd = (Ok b, wd') →
  ∃ bytes, b = Some (GifBlob bytes).
Proof.
  unfold encodeGifFrame, bind, read_canvas.
  destruct (canvases wd !! fc) as [c|]; [|done].
  destruct (negb _); [done|].
  destruct (getImageData p c) as [data|]; [|done].
  destruct q as [q|]; [|done]. destruct (q data 256%Z) as [palette|]; [|done].
  destruct ap as [ap|]; [|done]. destruct (ap data palette) as [index|]; [|done].
  destruct (enc _ _ _ _ _) as [bytes|]; [|done].
  intros [= <- <-]. by eexists.
Qed.

Lemma gifTry_Ok (T : Platform → nat → string → M (option Blob))
    (p : Platform) (fc : nat) (bgColor : string) (wd wd' : World) (b : option Blob) :
  T = AppTsx.gifTry ∨ T = Part000.gifTry →
  T p fc bgColor wd = (Ok b, wd') → ∃ bytes, b = Some (GifBlob bytes).
Proof.
  intros [-> | ->].
  - unfold AppTsx.gifTry. destruct (import_gifenc p) as [m|]; [|done].
    destruct (GIFEncoder m); [|done]. apply encodeGifFrame_Ok.
  - unfold Part000.gifTry. destruct (import_gifenc p) as [m|]; [|done].
    destruct (GIFEncoder m), (quantize m), (applyPalette m);
      try apply encodeGifFrame_Ok;
      (destruct (import_esm_gifenc p) as [esm|]; [|done]);
      (destruct (GIFEncoder esm); [|done]); apply encodeGifFrame_Ok.
Qed.

(** X8. With a numeric output size [n] the canvas that is encoded has the
    size a canvas keeps of [n] by [n], whatever the cell, the margins and
    the square setting; for a whole number [n] from 0 up to 2^31 that is
    exactly [n] by [n]: every PNG buffer [generateImageBlob] resolves with,
    in either file and for either format, then encodes an [n] by [n]
    canvas. *)
Theorem output_size_fixes_final_canvas
    (gen : Platform → Image → Rect → Margins → Offset → bool → string →
           OutputSize → Format → M (option Blob))
    (p : Platform) (image : Image) (rect : Rect) (margins : Margins)
    (offset : Offset) (isSquare : bool) (bgColor : string) (n : Qc)
    (format : Format) (wd : World) :
  gen = AppTsx.generateImageBlob ∨ gen = Part000.generateImageBlob →
  (∀ fc wd1,
     composeCanvas p image rect margins offset isSquare bgColor (size n) wd
       = (Ok fc, wd1) →
     ∃ c, canvases wd1 !! fc = Some c
          ∧ width c = canvas_dimension 300 n ∧ height c = canvas_dimension 150 n
          ∧ (∀ z : Z, (0 ≤ z < 2 ^ 31)%Z → n = Qc_of_Z z →
             width c = n ∧ height c = n))
  ∧ (∀ c, (gen p image rect margins offset isSquare bgColor (size n) format wd).1
            = Ok (Some (PngBlob c)) →
          width c = canvas_dimension 300 n ∧ height c = canvas_dimension 150 n
          ∧ (∀ z : Z, (0 ≤ z < 2 ^ 31)%Z → n = Qc_of_Z z →
             width c = n ∧ height c = n)).
Proof.
  intros Hgen.
  assert (∀ c : Canvas,
            width c = canvas_dimension 300 n → height c = canvas_dimension 150 n →
            ∀ z : Z, (0 ≤ z < 2 ^ 31)%Z → n = Qc_of_Z z →
                     width c = n ∧ height c = n) as Hwhole.
  { intros c Hw Hh z Hz ->. by rewrite Hw, Hh, !canvas_dimension_whole. }
  assert (∀ fc wd1,
     composeCanvas p image rect margins offset isSquare bgColor (size n) wd
       = (Ok fc, wd1) →
     ∃ c, canvases wd1 !! fc = Some c
          ∧ width c = canvas_dimension 300 n ∧ height c = canvas_dimension 150 n)
    as Hcompose.
  { intros fc wd1. rewrite composeCanvas_run.
    destruct (getContext_2d p (length (canvases wd))); [|done].
    destruct (decide (_ ∨ _)) as [Hne|Heq]; intros [= <- <-];
      cbn [with_canvases canvases].
    - eexists. split.
      + rewrite (lookup_app_r _ _ (S _)) by lia.
        by replace (S (length (canvases wd)) - length (canvases wd))%nat with 1%nat by lia.
      + done.
    - eexists. split; [apply lookup_snoc|]. cbn [base_canvas width height].
      split.
      + destruct (decide (canvasWidth_of rect margins isSquare = n)) as [->|Hn]; [done|].
        destruct Heq. by left.
      + destruct (decide (canvasHeight_of rect margins isSquare = n)) as [->|Hn]; [done|].
        destruct Heq. by right. }
  split.
  { intros fc wd1 Hrun. destruct (Hcompose fc wd1 Hrun) as (c & Hc & Hw & Hh).
    exists c. split_and!; [done..|]. by apply Hwhole. }
  destruct (generateImageBlob_cases gen Hgen) as (T & HT & HT' & Hunf).
  intros c. rewrite Hunf. unfold bind.
  destruct (composeCanvas _ _ _ _ _ _ _ _ wd) as [[fc|e] wd1] eqn:Hrun; [|done].
  destruct (Hcompose fc wd1 eq_refl) as (c' & Hc' & Hw & Hh).
  rewrite (encodeStage_run T p fc bgColor format wd1 c' HT Hc').
  destruct format.
  - destruct (toBlob_png p c'); [|done]. cbn [fst]. intros [= <-].
    split_and!; [done..|]. by apply Hwhole.
  - destruct (T p fc bgColor wd1) as [[b|e] wd2] eqn:HTrun; cbn [fst].
    + destruct (gifTry_Ok T p fc bgColor wd1 wd2 b HT' HTrun) as [bytes ->]. done.
    + unfold png_of. destruct (toBlob_png p c'); [|done]. intros [= <-].
      split_and!; [done..|]. by apply Hwhole.
Qed.

Lemma output_size_fixes_final_canvas_witness :
  ∃ c, (AppTsx.generateImageBlob platform_without_gif image_400 rect_200 no_margins
          no_offset false "white" (size (Qc_of_Z 512)) gif emptyWorld).1
       = Ok (Some (PngBlob c))
     ∧ width c = Qc_of_Z 512 ∧ height c = Qc_of_Z 512.
Proof.
  eexists. split; [vm_compute; reflexivity|].
  eapply (output_size_fixes_final_canvas AppTsx.generateImageBlob platform_without_gif
            image_400 rect_200 no_margins no_offset false "white" (Qc_of_Z 512) gif
            emptyWorld).
  - left. reflexivity.
  - vm_compute. reflexivity.
  - instantiate (1 := 512%Z). lia.
  - reflexivity.
Defined.

(** X9. [generateImageBlob], in either file, only adds to the page: the
    canvases that existed stay as they were and one or two new ones follow
    them (one when the output size is [auto]), no object URL is made, and
    nothing shown or logged before is lost.  Format [png] shows and logs
    nothing. *)
Theorem generateImageBlob_only_adds_canvases
    (gen : Platform → Image → Rect → Margins → Offset → bool → string →
           OutputSize → Format → M (option Blob))
    (p : Platform) (image : Image) (rect : Rect) (margins : Margins)
    (offset : Offset) (isSquare : bool) (bgColor : string)
    (outputSize : OutputSize) (format : Format) (wd : World) :
  gen = AppTsx.generateImageBlob ∨ gen = Part000.generateImageBlob →
  let run := gen p image rect margins offset isSquare bgColor outputSize format wd in
  (∃ new, canvases run.2 = canvases wd ++ new
          ∧ (1 ≤ length new ≤ 2)%nat
          ∧ (outputSize = auto → length new = 1%nat))
  ∧ objectURLs run.2 = objectURLs wd
  ∧ (∃ shown logged, alerts run.2 = alerts wd ++ shown
                     ∧ console_error run.2 = console_error wd ++ logged
                     ∧ (format = png → shown = [] ∧ logged = [])).
Proof.
  intros Hgen run. subst run.
  destruct (generateImageBlob_cases gen Hgen) as (T & HT & HT' & Hunf).
  rewrite Hunf. unfold bind. rewrite composeCanvas_run.
  destruct (getContext_2d p (length (canvases wd))).
  2:{ cbn [snd with_canvases canvases objectURLs alerts console_error].
      split_and!; [eexists; split; [done|]; cbn; split; [lia|done]|done|].
      exists [], []. by rewrite !app_nil_r. }
  set (base := base_canvas rect margins offset isSquare bgColor).
  assert (∀ fc new c,
            (canvases wd ++ new) !! fc = Some c →
            (1 ≤ length new ≤ 2)%nat → (outputSize = auto → length new = 1%nat) →
            let run := encodeStage T p fc bgColor format
                         (with_canvases (canvases wd ++ new) wd) in
            (∃ new, canvases run.2 = canvases wd ++ new
                    ∧ (1 ≤ length new ≤ 2)%nat
                    ∧ (outputSize = auto → length new = 1%nat))
            ∧ objectURLs run.2 = objectURLs wd
            ∧ (∃ shown logged, alerts run.2 = alerts wd ++ shown
                     ∧ console_error run.2 = console_error wd ++ logged
                     ∧ (format = png → shown = [] ∧ logged = []))) as Hstage.
  { intros fc new c Hc Hlen Hauto run. subst run.
    rewrite (encodeStage_run T p fc bgColor format _ c HT) by done.
    destruct format.
    - cbn [snd with_canvases canvases objectURLs alerts console_error].
      split_and!; [by exists new|done|]. exists [], []. by rewrite !app_nil_r.
    - destruct (T p fc bgColor _).1;
        cbn [snd with_canvases canvases objectURLs alerts console_error after_gif_fallback].
      + split_and!; [by exists new|done|]. exists [], []. by rewrite !app_nil_r.
      + split_and!; [by exists new|done|]. by eexists _, _. }
  destruct outputSize as [|n]; [|case_decide].
  - eapply Hstage; [apply lookup_snoc|cbn; lia|done].
  - eapply Hstage; [|cbn; lia|done].
    rewrite (lookup_app_r _ _ (S _)) by lia.
    by replace (S (length (canvases wd)) - length (canvases wd))%nat with 1%nat by lia.
  - eapply Hstage; [apply lookup_snoc|cbn; lia|done].
Qed.

Lemma generateImageBlob_only_adds_canvases_witness :
  objectURLs (Part000.generateImageBlob platform_without_gif image_400 rect_200
                no_margins no_offset false "white" (size (Qc_of_Z 512)) gif emptyWorld).2
  = 0%nat.
Proof.
  apply (generateImageBlob_only_adds_canvases Part000.generateImageBlob
           platform_without_gif image_400 rect_200 no_margins no_offset false "white"
           (size (Qc_of_Z 512)) gif emptyWorld).
  right. reflexivity.
Defined.

Lemma encodeGifFrame_success p q ap enc fc bgColor (wd : World) (c : Canvas)
    (data : list Z) (palette : list (list Z)) (index bytes : list Z) :
  canvases wd !! fc = Some c → getContext_2d p fc = true →
  getImageData p c = Some data →
  q data 256%Z = Some palette → ap data palette = Some index →
  enc index (width c) (height c) palette
    (if decide (bgColor ≠ "white") then Some 0%Z else None) = Some bytes →
  encodeGifFrame p (Some q) (Some ap) enc fc bgColor wd
  = (Ok (Some (GifBlob bytes)), wd).
Proof.
  intros Hc Hctx Hdata Hq Hap Henc. unfold encodeGifFrame, bind.
  rewrite (read_canvas_run _ _ _ Hc), Hctx. cbn [negb].
  by rewrite Hdata, Hq, Hap, Henc.
Qed.

(** X10. When the GIF library is complete and each of its calls succeeds
    on the final canvas, format [gif] resolves, in either file, with the
    bytes the encoder produced for the frame of the final canvas' size;
    the transparent index handed to the encoder is 0 unless the background
    is white; nothing is shown or logged and no further canvas is made. *)
Theorem gif_encoding_success (p : Platform) (image : Image) (rect : Rect)
    (margins : Margins) (offset : Offset) (isSquare : bool) (bgColor : string)
    (outputSize : OutputSize) (wd wd1 : World) (fc : nat) (c : Canvas)
    (m : GifModule) enc q ap
    (data : list Z) (palette : list (list Z)) (index bytes : list Z) :
  composeCanvas p image rect margins offset isSquare bgColor outputSize wd = (Ok fc, wd1) →
  canvases wd1 !! fc = Some c →
  import_gifenc p = Some m →
  GIFEncoder m = Some enc → quantize m = Some q → applyPalette m = Some ap →
  getContext_2d p fc = true → getImageData p c = Some data →
  q data 256%Z = Some palette → ap data palette = Some index →
  enc index (width c) (height c) palette
    (if decide (bgColor ≠ "white") then Some 0%Z else None) = Some bytes →
  AppTsx.generateImageBlob p image rect margins offset isSquare bgColor outputSize gif wd
    = (Ok (Some (GifBlob bytes)), wd1)
  ∧ Part000.generateImageBlob p image rect margins offset isSquare bgColor outputSize gif wd
    = (Ok (Some (GifBlob bytes)), wd1).
Proof.
  intros Hrun Hc Himp HGE Hq Hap Hctx Hdata Hqr Hapr Henc.
  pose proof (encodeGifFrame_success p q ap enc fc bgColor wd1 c data palette index bytes
                Hc Hctx Hdata Hqr Hapr Henc) as Hframe.
  split.
  - rewrite AppTsx_generateImageBlob_unfold. unfold bind. rewrite Hrun.
    cbn [encodeStage]. unfold try_catch, AppTsx.gifTry.
    by rewrite Himp, HGE, Hq, Hap, Hframe.
  - rewrite Part000_generateImageBlob_unfold. unfold bind. rewrite Hrun.
    cbn [encodeStage]. unfold try_catch, Part000.gifTry.
    by rewrite Himp, HGE, Hq, Hap, Hframe.
Qed.

Lemma gif_encoding_success_witness :
  AppTsx.generateImageBlob platform_with_gif image_400 rect_200 no_margins no_offset
    false "transparent" auto gif emptyWorld
  = (Ok (Some (GifBlob [200; 200; 0; 0; 0; 0; 0]%Z)),
     with_canvases [base_canvas rect_200 no_margins no_offset false "transparent"]
       emptyWorld).
Proof.
  refine (proj1 (gif_encoding_success platform_with_gif image_400 rect_200 no_margins
            no_offset false "transparent" auto emptyWorld _ 0%nat
            (base_canvas rect_200 no_margins no_offset false "transparent")
            sample_gifenc _ _ _ [0; 0; 0; 0]%Z [[0; 0; 0; 0]%Z] [0; 0; 0; 0]%Z _
            _ _ _ _ _ _ _ _ _ _ _)).
  - vm_compute. reflexivity.
  - vm_compute. reflexivity.
  - reflexivity.
  - reflexivity.
  - reflexivity.
  - reflexivity.
  - reflexivity.
  - reflexivity.
  - reflexivity.
  - reflexivity.
  - vm_compute. reflexivity.
Defined.

(** X11. The two files differ when the bundled GIF library has its
    encoder but lacks [quantize] or [applyPalette]: part_000 imports the
    library again from the CDN and, when that copy is complete and its
    calls succeed, resolves with the GIF bytes without any alert, while
    [src/App.tsx] falls back to the PNG encoding and shows the fallback
    alert. *)
Theorem gif_cdn_fallback_only_in_part000 (p : Platform) (image : Image) (rect : Rect)
    (margins : Margins) (offset : Offset) (isSquare : bool) (bgColor : string)
    (outputSize : OutputSize) (wd wd1 : World) (fc : nat) (c : Canvas)
    (m esm : GifModule) enc0 enc q ap
    (data : list Z) (palette : list (list Z)) (index bytes : list Z) :
  composeCanvas p image rect margins offset isSquare bgColor outputSize wd = (Ok fc, wd1) →
  canvases wd1 !! fc = Some c →
  import_gifenc p = Some m → GIFEncoder m = Some enc0 →
  quantize m = None ∨ applyPalette m = None →
  import_esm_gifenc p = Some esm →
  GIFEncoder esm = Some enc → quantize esm = Some q → applyPalette esm = Some ap →
  getContext_2d p fc = true → getImageData p c = Some data →
  q data 256%Z = Some palette → ap data palette = Some index →
  enc index (width c) (height c) palette
    (if decide (bgColor ≠ "white") then Some 0%Z else None) = Some bytes →
  Part000.generateImageBlob p image rect margins offset isSquare bgColor outputSize gif wd
    = (Ok (Some (GifBlob bytes)), wd1)
  ∧ ∃ e, AppTsx.generateImageBlob p image rect margins offset isSquare bgColor
           outputSize gif wd
         = (Ok (png_of p c), after_gif_fallback e wd1).
Proof.
  intros Hrun Hc Himp HGE0 Hmiss Hesm HGE Hq Hap Hctx Hdata Hqr Hapr Henc.
  pose proof (encodeGifFrame_success p q ap enc fc bgColor wd1 c data palette index bytes
                Hc Hctx Hdata Hqr Hapr Henc) as Hframe.
  split.
  - rewrite Part000_generateImageBlob_unfold. unfold bind. rewrite Hrun.
    cbn [encodeStage]. unfold try_catch, Part000.gifTry.
    rewrite Himp, HGE0.
    destruct Hmiss as [Hm|Hm]; rewrite Hm.
    + by rewrite Hesm, HGE, Hq, Hap, Hframe.
    + destruct (quantize m); by rewrite Hesm, HGE, Hq, Hap, Hframe.
  - rewrite AppTsx_generateImageBlob_unfold. unfold bind. rewrite Hrun.
    rewrite (encodeStage_run _ _ _ _ _ _ c AppTsx_gifTry_read_only Hc).
    assert (∃ e, (AppTsx.gifTry p fc bgColor wd1).1 = Throw e) as [e He].
    { unfold AppTsx.gifTry. rewrite Himp, HGE0. unfold encodeGifFrame, bind.
      rewrite (read_canvas_run _ _ _ Hc), Hctx. cbn [negb]. rewrite Hdata.
      destruct Hmiss as [Hm|Hm]; rewrite Hm.
      - by eexists.
      - destruct (quantize m) as [q0|]; [|by eexists].
        destruct (q0 data 256%Z); by eexists. }
    exists e. by rewrite He.
Qed.

Lemma gif_cdn_fallback_only_in_part000_witness :
  Part000.generateImageBlob platform_gif_on_cdn image_400 rect_200 no_margins no_offset
    false "white" auto gif emptyWorld
  = (Ok (Some (GifBlob [200; 200; -1; 0; 0; 0; 0]%Z)),
     with_canvases [base_canvas rect_200 no_margins no_offset false "white"] emptyWorld).
Proof.
  refine (proj1 (gif_cdn_fallback_only_in_part000 platform_gif_on_cdn image_400 rect_200
            no_margins no_offset false "white" auto emptyWorld _ 0%nat
            (base_canvas rect_200 no_margins no_offset false "white")
            _ sample_gifenc _ _ _ _ [0; 0; 0; 0]%Z [[0; 0; 0; 0]%Z] [0; 0; 0; 0]%Z _
            _ _ _ _ _ _ _ _ _ _ _ _ _ _)).
  - vm_compute. reflexivity.
  - vm_compute. reflexivity.
  - reflexivity.
  - reflexivity.
  - left. reflexivity.
  - reflexivity.
  - reflexivity.
  - reflexivity.
  - reflexivity.
  - reflexivity.
  - reflexivity.
  - reflexivity.
  - reflexivity.
  - vm_compute. reflexivity.
Defined.

(** ** More on the grid history *)

(** X12. A push ends the redo branch: after [addToHistory], with the
    [isUndoRedo] ref clear, the pointer is on the last entry and a redo
    does nothing, however many undone entries there were.  While the ref
    is set a push is ignored altogether. *)
Theorem addToHistory_discards_redo (s : HistoryState) (st : AppState) :
  history_wf st →
  (isUndoRedo st = false →
     historyIndex (addToHistory s st)
       = (Z.of_nat (length (history (addToHistory s st))) - 1)%Z
     ∧ (length (history (addToHistory s st))
          ≤ Z.to_nat (historyIndex st + 1) + 1)%nat
     ∧ handleRedo (addToHistory s st) = addToHistory s st)
  ∧ (isUndoRedo st = true → addToHistory s st = st).
Proof.
  intros Hwf. split.
  - intros Hf. pose proof (addToHistory_pointer s st Hf Hwf) as Hp.
    split_and!.
    + lia.
    + destruct (decide (history_top st = Some s)) as [Ht|Ht].
      * rewrite addToHistory_dedupe by done. cbn [history setHistory].
        rewrite length_take. lia.
      * rewrite addToHistory_append by done.
        cbn [history setHistory setHistoryIndex].
        rewrite length_app, length_take. simpl. lia.
    + unfold handleRedo. rewrite decide_False by lia. done.
  - intros Hf. unfold addToHistory. by rewrite Hf.
Qed.

Lemma addToHistory_discards_redo_witness :
  let st := handleUndo (handleRowChange 2 (handleUpload image_400 initialState)) in
  let s := {| hs_rows := 4; hs_cols := 3;
              hs_rowPositions := generatePositions 4;
              hs_colPositions := generatePositions 3 |} in
  addToHistory s st = st
  ∧ handleRedo (addToHistory s (undoRedoTimeout st)) = addToHistory s (undoRedoTimeout st)
  ∧ handleRedo (undoRedoTimeout st) ≠ undoRedoTimeout st.
Proof.
  intros st s. split_and!.
  - refine (proj2 (addToHistory_discards_redo s st _) _).
    + unfold history_wf. vm_compute. split; [discriminate|reflexivity].
    + reflexivity.
  - refine (proj2 (proj2 (proj1 (addToHistory_discards_redo s (undoRedoTimeout st) _) _))).
    + unfold history_wf. vm_compute. split; [discriminate|reflexivity].
    + reflexivity.
  - vm_compute. discriminate.
Defined.

Lemma applySnapshot_snapshot (st : AppState) : applySnapshot (snapshot st) st = st.
Proof. by destruct st. Qed.

(** X13. Undo does nothing at the first entry (or with nothing recorded)
    and redo does nothing at the last one.  Away from those ends, on a
    grid the history has on top, undo followed by redo, and redo followed
    by undo, give back the whole state with the [isUndoRedo] ref set; the
    stack itself is never changed by either. *)
Theorem undo_redo_ends_and_round_trip (st : AppState) :
  history_wf st →
  (historyIndex st ≤ 0 → handleUndo st = st)%Z
  ∧ (historyIndex st = Z.of_nat (length (history st)) - 1 → handleRedo st = st)%Z
  ∧ history (handleUndo st) = history st
  ∧ history (handleRedo st) = history st
  ∧ (history_top st = Some (snapshot st) →
     (0 < historyIndex st →
        handleRedo (handleUndo st) = setIsUndoRedo true st)%Z
     ∧ (historyIndex st < Z.of_nat (length (history st)) - 1 →
        handleUndo (handleRedo st) = setIsUndoRedo true st)%Z).
Proof.
  intros Hwf. unfold history_wf in Hwf. split_and!.
  - intros Hi. unfold handleUndo. by rewrite decide_False by lia.
  - intros Hi. unfold handleRedo. by rewrite decide_False by lia.
  - unfold handleUndo. case_decide; [|done]. by destruct (history st !! _).
  - unfold handleRedo. case_decide; [|done]. by destruct (history st !! _).
  - unfold history_top. case_decide as H0; [|done]. intros Htop. split.
    + intros Hi. unfold handleUndo. rewrite decide_True by lia.
      destruct (lookup_lt_is_Some_2 (history st) (Z.to_nat (historyIndex st - 1)))
        as [prev Hprev]; [lia|].
      rewrite Hprev. unfold handleRedo.
      cbn [historyIndex history setHistoryIndex applySnapshot setColPositions
           setRowPositions setCols setRows setIsUndoRedo].
      rewrite decide_True by lia.
      replace (historyIndex st - 1 + 1)%Z with (historyIndex st) by lia.
      rewrite Htop. by destruct st.
    + intros Hi. unfold handleRedo. rewrite decide_True by lia.
      destruct (lookup_lt_is_Some_2 (history st) (Z.to_nat (historyIndex st + 1)))
        as [next Hnext]; [lia|].
      rewrite Hnext. unfold handleUndo.
      cbn [historyIndex history setHistoryIndex applySnapshot setColPositions
           setRowPositions setCols setRows setIsUndoRedo].
      rewrite decide_True by lia.
      replace (historyIndex st + 1 - 1)%Z with (historyIndex st) by lia.
      rewrite Htop. by destruct st.
Qed.

Lemma undo_redo_ends_and_round_trip_witness :
  handleUndo (handleUpload image_400 initialState) = handleUpload image_400 initialState
  ∧ handleRedo (handleUndo (handleRowChange 2 (handleUpload image_400 initialState)))
    = setIsUndoRedo true (handleRowChange 2 (handleUpload image_400 initialState)).
Proof.
  split.
  - refine (proj1 (undo_redo_ends_and_round_trip
                     (handleUpload image_400 initialState) _) _).
    + unfold history_wf. vm_compute. split; [discriminate|reflexivity].
    + vm_compute. discriminate.
  - refine (proj1 (proj2 (proj2 (proj2 (proj2
              (undo_redo_ends_and_round_trip
                 (handleRowChange 2 (handleUpload image_400 initialState)) _)))) _) _).
    + unfold history_wf. vm_compute. split; [discriminate|reflexivity].
    + vm_compute. reflexivity.
    + vm_compute. reflexivity.
Defined.

(** X14. [handleColChange] records the column count of before the change
    next to the new column lines, where [handleRowChange] records the new
    row count: after a change of the column count, undo and then redo
    bring back the new column lines with the old count in the [cols] hook;
    the same steps after a change of the row count bring back the new
    count. *)
Theorem handleColChange_records_old_count (n : Z) (st : AppState) :
  isUndoRedo st = false → history_wf st →
  history_top st = Some (snapshot st) →
  generatePositions n ≠ colPositions st → generatePositions n ≠ rowPositions st →
  (let st1 := handleColChange n st in
   cols st1 = n ∧ colPositions st1 = generatePositions n
   ∧ cols (handleRedo (handleUndo st1)) = cols st
   ∧ colPositions (handleRedo (handleUndo st1)) = generatePositions n)
  ∧ (let st1 := handleRowChange n st in
     rows st1 = n ∧ rowPositions st1 = generatePositions n
     ∧ rows (handleRedo (handleUndo st1)) = n
     ∧ rowPositions (handleRedo (handleUndo st1)) = generatePositions n).
Proof.
  intros Hf Hwf Htop Hc Hr. split.
  - intros st1. unfold st1, handleColChange.
    set (s := {| hs_rows := rows st; hs_cols := cols st;
                 hs_rowPositions := rowPositions st;
                 hs_colPositions := generatePositions n |}).
    set (st0 := setColPositions (generatePositions n) (setCols n st)).
    assert (snapshot st ≠ s) as Hne by (intros Heq; apply Hc; by injection Heq).
    destruct (addToHistory_undo_redo s st0 Hf Hwf) as (_ & _ & _ & Hundo).
    destruct (Hundo (snapshot st) Htop Hne) as (_ & _ & _ & Hredo & _).
    pose proof (snapshot_addToHistory s st0) as Hs.
    split_and!.
    + by apply (f_equal hs_cols) in Hs.
    + by apply (f_equal hs_colPositions) in Hs.
    + by apply (f_equal hs_cols) in Hredo.
    + by apply (f_equal hs_colPositions) in Hredo.
  - intros st1. unfold st1, handleRowChange.
    set (s := {| hs_rows := n; hs_cols := cols st;
                 hs_rowPositions := generatePositions n;
                 hs_colPositions := colPositions st |}).
    set (st0 := setRowPositions (generatePositions n) (setRows n st)).
    assert (snapshot st ≠ s) as Hne by (intros Heq; apply Hr; by injection Heq).
    destruct (addToHistory_undo_redo s st0 Hf Hwf) as (_ & _ & _ & Hundo).
    destruct (Hundo (snapshot st) Htop Hne) as (_ & _ & _ & Hredo & _).
    pose proof (snapshot_addToHistory s st0) as Hs.
    split_and!.
    + by apply (f_equal hs_rows) in Hs.
    + by apply (f_equal hs_rowPositions) in Hs.
    + by apply (f_equal hs_rows) in Hredo.
    + by apply (f_equal hs_rowPositions) in Hredo.
Qed.

Lemma handleColChange_records_old_count_witness :
  let st := setCols 4 (setRows 4 (handleUpload image_400 initialState)) in
  cols (handleColChange 2 st) = 2%Z
  ∧ cols (handleRedo (handleUndo (handleColChange 2 st))) = 4%Z
  ∧ length (colPositions (handleRedo (handleUndo (handleColChange 2 st)))) = 3%nat.
Proof.
  intros st.
  destruct (handleColChange_records_old_count 2 st) as [(H1 & H2 & H3 & H4) _].
  - reflexivity.
  - unfold history_wf. vm_compute. split; [discriminate|reflexivity].
  - vm_compute. reflexivity.
  - vm_compute. discriminate.
  - vm_compute. discriminate.
  - split_and!; [exact H1|exact H3|]. rewrite H4. reflexivity.
Defined.

(** X15. Loading an image resets the lines to the 4 by 4 default and the
    history to that single entry, so that neither undo nor redo does
    anything afterwards; the [rows] and [cols] hooks, the settings and the
    results of an earlier split are left as they were. *)
Theorem handleUpload_resets_grid_and_history (img : Image) (st : AppState) :
  let st' := handleUpload img st in
  imageElement st' = Some img
  ∧ rowPositions st' = Qc_of_Z <$> [0; 25; 50; 75; 100]%Z
  ∧ colPositions st' = Qc_of_Z <$> [0; 25; 50; 75; 100]%Z
  ∧ history st' = [{| hs_rows := 4; hs_cols := 4;
                      hs_rowPositions := rowPositions st';
                      hs_colPositions := colPositions st' |}]
  ∧ historyIndex st' = 0%Z
  ∧ handleUndo st' = st' ∧ handleRedo st' = st'
  ∧ rows st' = rows st ∧ cols st' = cols st ∧ results st' = results st
  ∧ isUndoRedo st' = isUndoRedo st.
Proof.
  intros st'. unfold st', handleUpload. rewrite generatePositions_4.
  by split_and!.
Qed.

(** ** The grid of part_000 over any sequence of events *)

Lemma generatePositions_ok (n : Z) : line_array_ok (generatePositions n).
Proof.
  split_and!.
  - destruct (decide (n < 1)%Z) as [Hn|Hn].
    + unfold generatePositions. by rewrite decide_True.
    + rewrite generatePositions_length by lia. lia.
  - apply generatePositions_non_decreasing.
  - apply generatePositions_percentages.
  - apply generatePositions_two_decimals.
Qed.

Lemma line_write_ok (l : list Qc) (i : nat) (v : Qc) :
  line_array_ok l →
  line_array_ok
    (sort_numeric
       (<[i := Number_toFixed2 (Math_max 0 (Math_min (Qc_of_Z 100) v))]> l)).
Proof.
  intros (Hlen & Hsorted & Hpct & Hdec). split_and!.
  - by rewrite sort_numeric_length, length_insert.
  - apply sort_numeric_non_decreasing.
  - apply sort_numeric_percentages, insert_percentages; [|done].
    apply Number_toFixed2_percentage, clamp_percentage.
  - rewrite sort_numeric_Permutation. apply Forall_insert; [done|].
    apply Number_toFixed2_two_decimals.
Qed.

Lemma addToHistory_grid_ok (s : HistoryState) (st : AppState) :
  snapshot_ok s → grid_ok st → grid_ok (addToHistory s st).
Proof.
  intros Hs (Hr & Hc & Hh). unfold grid_ok.
  rewrite rowPositions_addToHistory, colPositions_addToHistory.
  split_and!; [done..|]. by apply addToHistory_history_Forall.
Qed.

Lemma updateLinePosition_grid_ok (type : LineType) (index : nat) (v : Qc)
    (st st' : AppState) :
  Part000.updateLinePosition type index v st = Some st' →
  grid_ok st → grid_ok st'.
Proof.
  unfold Part000.updateLinePosition, array_set. intros Hrun (Hr & Hc & Hh).
  destruct type; case_decide; cbn [mbind option_bind] in Hrun; try done;
    injection Hrun as <-; split_and!; try done;
    cbn [rowPositions colPositions setRowPositions setColPositions];
    by apply line_write_ok.
Qed.

Lemma handleNudge_grid_ok (dir : Dir) (fast : bool) (line : LineType * nat)
    (render st st' : AppState) :
  Part000.handleNudge dir fast line render st = Some st' → grid_ok st → grid_ok st'.
Proof.
  unfold Part000.handleNudge. destruct (_ !! line.2); cbn [mbind option_bind]; [|done].
  apply updateLinePosition_grid_ok.
Qed.

Lemma handleUndo_grid_ok (st : AppState) : grid_ok st → grid_ok (handleUndo st).
Proof.
  intros (Hr & Hc & Hh). unfold handleUndo. case_decide; [|done].
  destruct (history st !! _) as [prev|] eqn:Hp; [|done].
  rewrite Forall_lookup in Hh. destruct (Hh _ _ Hp) as [Hpr Hpc].
  split_and!; [done..|]. by apply Forall_lookup.
Qed.

Lemma handleRedo_grid_ok (st : AppState) : grid_ok st → grid_ok (handleRedo st).
Proof.
  intros (Hr & Hc & Hh). unfold handleRedo. case_decide; [|done].
  destruct (history st !! _) as [next|] eqn:Hp; [|done].
  rewrite Forall_lookup in Hh. destruct (Hh _ _ Hp) as [Hpr Hpc].
  split_and!; [done..|]. by apply Forall_lookup.
Qed.

(** The moves of a drag, run one after the other. *)
Lemma moves_None (move : PointerEvent → AppState → option AppState)
    (moves : list PointerEvent) :
  foldl (λ acc ev, acc ≫= move ev) None moves = None.
Proof. induction moves as [|ev moves IH]; [done|]. apply IH. Qed.

Lemma moves_invariant (P : AppState → Prop)
    (move : PointerEvent → AppState → option AppState)
    (moves : list PointerEvent) (start st : AppState) :
  (∀ ev a b, move ev a = Some b → P a → P b) →
  foldl (λ acc ev, acc ≫= move ev) (Some start) moves = Some st →
  P start → P st.
Proof.
  intros Hmove. revert start. induction moves as [|ev moves IH]; intros start.
  - by intros [= <-].
  - cbn [foldl mbind option_bind].
    destruct (move ev start) as [st1|] eqn:H1.
    + intros Hrest Hstart. apply (IH st1 Hrest). by eapply Hmove.
    + by rewrite moves_None.
Qed.

Lemma Part000_handleMove_grid_ok (type : LineType) (index : nat) (rect : DOMRect)
    (ev : PointerEvent) (st st' : AppState) :
  Part000.handleMove type index rect ev st = Some st' →
  grid_ok st ∧ history_wf st → grid_ok st' ∧ history_wf st'.
Proof.
  unfold Part000.handleMove. intros Hrun [Hok Hwf].
  destruct (dragPct _ _ _); cbn [mbind option_bind] in Hrun; [|done].
  split; [by eapply updateLinePosition_grid_ok|].
  apply updateLinePosition_history in Hrun as [Hh Hi]. by eapply history_wf_same.
Qed.

Lemma part000_handle_grid_ok (e : GridEvent) (st st' : AppState) :
  part000_handle e st = Some st' →
  grid_ok st ∧ history_wf st → grid_ok st' ∧ history_wf st'.
Proof.
  intros Hrun [Hinv Hwf]. pose proof Hinv as (Hr & Hc & Hhist).
  destruct e as [| | | | | type index rect moves | | e render | | |];
    cbn [part000_handle] in Hrun; try injection Hrun as <-.
  - split; [|apply handleUpload_wf].
    split_and!; try apply generatePositions_ok.
    constructor; [|constructor]. split; apply generatePositions_ok.
  - split; [|by apply addToHistory_wf]. apply addToHistory_grid_ok.
    + split; [apply generatePositions_ok|done].
    + split_and!; [apply generatePositions_ok|done..].
  - split; [|by apply addToHistory_wf]. apply addToHistory_grid_ok.
    + split; [done|apply generatePositions_ok].
    + split_and!; [done|apply generatePositions_ok|done].
  - split; [|by apply addToHistory_wf]. apply addToHistory_grid_ok.
    + split; apply generatePositions_ok.
    + split_and!; [apply generatePositions_ok..|done].
  - done.
  - unfold Part000Drag.onLineDragStart in Hrun.
    destruct (foldl _ _ _) as [st1|] eqn:Hmoves; cbn [mbind option_bind] in Hrun; [|done].
    injection Hrun as <-.
    destruct (moves_invariant (λ a, grid_ok a ∧ history_wf a) _ _ _ _
                (Part000_handleMove_grid_ok type index rect) Hmoves (conj Hinv Hwf))
      as [Hok1 Hwf1].
    split; [|by apply addToHistory_wf].
    apply addToHistory_grid_ok; [|done]. destruct Hok1 as (? & ? & _). by split.
  - split; [by eapply handleNudge_grid_ok|].
    apply handleNudge_history in Hrun as [Hh Hi]. by eapply history_wf_same.
  - unfold Part000.handleKeyDown in Hrun.
    destruct (targetIsInput e); [by injection Hrun as <-|].
    destruct (ctrlOrMeta e && bool_decide (key e = KeyZ)).
    { injection Hrun as <-.
      destruct (shiftKey e);
        [split; [by apply handleRedo_grid_ok|by apply handleRedo_wf]
        |split; [by apply handleUndo_grid_ok|by apply handleUndo_wf]]. }
    destruct (selectedLine st) as [line|]; [|by injection Hrun as <-].
    destruct (bool_decide _); [|by injection Hrun as <-].
    destruct (Part000.dirMap (key e)); [|by injection Hrun as <-].
    split; [by eapply handleNudge_grid_ok|].
    apply handleNudge_history in Hrun as [Hh Hi]. by eapply history_wf_same.
  - split; [by apply handleUndo_grid_ok|by apply handleUndo_wf].
  - split; [by apply handleRedo_grid_ok|by apply handleRedo_wf].
  - done.
Qed.

(** A nudge stays inside the model exactly when the line exists in the
    array it reads and in the array it writes. *)
Lemma handleNudge_is_Some (dir : Dir) (fast : bool) (type : LineType) (i : nat)
    (render st : AppState) :
  is_Some (Part000.handleNudge dir fast (type, i) render st)
  ↔ (i < length (axis type render))%nat ∧ (i < length (axis type st))%nat.
Proof.
  split.
  - intros [st' Hrun]. unfold Part000.handleNudge in Hrun. cbn [fst snd] in Hrun.
    destruct type; cbn [axis];
      (destruct (_ !! i) as [v|] eqn:Hv; cbn [mbind option_bind] in Hrun; [|done]);
      (split; [by eapply lookup_lt_Some|]);
      unfold Part000.updateLinePosition, array_set in Hrun;
      by case_decide.
  - intros [Hr Hi]. destruct (lookup_lt_is_Some_2 _ _ Hr) as [v Hv].
    destruct (handleNudge_spec dir fast type i render st v Hv Hi) as (st' & Hrun & _).
    by eexists.
Qed.

Lemma handleMove_is_Some (type : LineType) (index : nat) (rect : DOMRect)
    (ev : PointerEvent) (st : AppState) :
  is_Some (Part000.handleMove type index rect ev st)
  ↔ (index < length (axis type st))%nat
    ∧ (if bool_decide (type = row) then rect_height rect else rect_width rect) ≠ 0.
Proof.
  split.
  - intros [st' Hrun]. unfold Part000.handleMove, dragPct in Hrun.
    case_decide as Hdim; [done|]. cbn [mbind option_bind] in Hrun.
    split; [|done].
    unfold Part000.updateLinePosition, array_set in Hrun.
    destruct type; cbn [axis]; by case_decide.
  - intros [Hi Hdim].
    destruct (handleMove_spec type index rect ev st Hi Hdim) as (pct & _ & Hrun & _).
    by eexists.
Qed.

Lemma key_nudges_true (e : KeyboardEvent) :
  key_nudges e = true →
  targetIsInput e = false
  ∧ ctrlOrMeta e && bool_decide (key e = KeyZ) = false
  ∧ bool_decide (key e ∈ [ArrowUp; ArrowDown; ArrowLeft; ArrowRight]) = true
  ∧ is_Some (Part000.dirMap (key e)).
Proof.
  unfold key_nudges. intros [[H1 H2]%andb_true_iff H3]%andb_true_iff.
  apply negb_true_iff in H1, H2. split_and!; [done..|].
  apply bool_decide_eq_true in H3.
  destruct (key e); try (by eexists); by apply (bool_decide_pack _) in H3.
Qed.

Lemma key_nudges_false (e : KeyboardEvent) (render st : AppState) :
  key_nudges e = false → Part000.handleKeyDown e render st =
    Some (if targetIsInput e then st
          else if ctrlOrMeta e && bool_decide (key e = KeyZ)
               then (if shiftKey e then handleRedo st else handleUndo st)
               else st).
Proof.
  unfold key_nudges, Part000.handleKeyDown. intros H.
  destruct (targetIsInput e); [done|].
  destruct (ctrlOrMeta e && bool_decide (key e = KeyZ)); [done|].
  cbn [negb andb] in H. rewrite H. by destruct (selectedLine st).
Qed.

(** The moves of a drag stay inside the model when the first one does. *)
Lemma Part000_moves_is_Some (type : LineType) (index : nat) (rect : DOMRect)
    (moves : list PointerEvent) (st : AppState) :
  (index < length (axis type st))%nat →
  (if bool_decide (type = row) then rect_height rect else rect_width rect) ≠ 0 →
  is_Some (foldl (λ acc ev, acc ≫= Part000.handleMove type index rect ev)
             (Some st) moves).
Proof.
  intros Hi Hdim. revert st Hi. induction moves as [|ev moves IH]; intros st Hi.
  - by eexists.
  - cbn [foldl mbind option_bind].
    destruct (handleMove_spec type index rect ev st Hi Hdim) as (pct & _ & -> & _).
    apply IH.
    destruct type; cbn [axis rowPositions colPositions setRowPositions setColPositions] in *;
      by rewrite sort_numeric_length, length_insert.
Qed.

Lemma Part000_drag_is_Some (type : LineType) (index : nat) (rect : DOMRect)
    (moves : list PointerEvent) (st : AppState) :
  is_Some (Part000Drag.onLineDragStart type index rect moves st)
  ↔ moves = []
    ∨ ((index < length (axis type st))%nat
       ∧ (if bool_decide (type = row) then rect_height rect else rect_width rect) ≠ 0).
Proof.
  unfold Part000Drag.onLineDragStart. split.
  - destruct moves as [|ev moves]; [by left|]. right.
    apply handleMove_is_Some with (ev := ev).
    cbn [foldl mbind option_bind] in H.
    destruct (Part000.handleMove type index rect ev st); [by eexists|].
    rewrite moves_None in H. by destruct H.
  - intros [->|[Hi Hdim]]; [by eexists|].
    destruct (Part000_moves_is_Some type index rect moves st Hi Hdim) as [st1 ->].
    by eexists.
Qed.

(** [event_in_range] is exactly the condition under which the handler
    stays inside the number model. *)
Lemma part000_handle_in_range (e : GridEvent) (st : AppState) :
  is_Some (part000_handle e st) ↔ event_in_range e st = true.
Proof.
  destruct e as [| | | | | type index rect moves | dir fast [type i] | e render | | |];
    cbn [part000_handle event_in_range]; try (split; [done|by eexists]).
  - rewrite Part000_drag_is_Some. destruct moves as [|ev moves].
    + split; [done|by left].
    + rewrite andb_true_iff, !bool_decide_eq_true. split; [by intros [?|?]|by right].
  - cbn [fst snd]. rewrite handleNudge_is_Some, bool_decide_eq_true. tauto.
  - destruct (selectedLine st) as [[type i]|] eqn:Hsel.
    + destruct (key_nudges e) eqn:Hk.
      * destruct (key_nudges_true e Hk) as (Hin & Hz & Ha & [dir Hdir]).
        unfold Part000.handleKeyDown. rewrite Hin, Hz, Hsel, Ha, Hdir.
        cbn [fst snd].
        rewrite handleNudge_is_Some, andb_true_iff, !bool_decide_eq_true. done.
      * rewrite key_nudges_false by done. split; [done|by eexists].
    + split; [done|]. intros _. unfold Part000.handleKeyDown. rewrite Hsel.
      destruct (targetIsInput e); [by eexists|].
      destruct (ctrlOrMeta e && bool_decide (key e = KeyZ)); by eexists.
Qed.

Lemma part000_run_in_range (events : list GridEvent) (st : AppState) :
  is_Some (part000_run events st) ↔ events_in_range events st = true.
Proof.
  revert st. induction events as [|e events IH]; intros st;
    cbn [part000_run events_in_range]; [split; [done|by eexists]|].
  rewrite andb_true_iff, <- part000_handle_in_range.
  destruct (part000_handle e st) as [st'|] eqn:He; cbn [mbind option_bind].
  - rewrite IH. split; [|tauto]. intros H. split; [by eexists|done].
  - split; [by intros [? ?]|by intros [[? ?] _]].
Qed.

Lemma part000_run_grid_ok (events : list GridEvent) (st st' : AppState) :
  part000_run events st = Some st' →
  grid_ok st → history_wf st → grid_ok st' ∧ history_wf st'.
Proof.
  revert st. induction events as [|e events IH]; intros st; cbn [part000_run].
  - by intros [= <-].
  - destruct (part000_handle e st) as [st1|] eqn:He; cbn [mbind option_bind]; [|done].
    intros Hrun Hok Hwf.
    destruct (part000_handle_grid_ok e st st1 He (conj Hok Hwf)) as [Hok1 Hwf1].
    by apply (IH st1 Hrun).
Qed.

(** Where part_000 leaves the model: the selection is kept when the row
    count shrinks, and a nudge of the line that no longer exists is out of
    range (the source writes [NaN] at index 4 of a two-line array). *)
Lemma part000_stale_selection_example :
  let events := [ev_select (Some (row, 4%nat)); ev_rowChange 1;
                 ev_nudge dir_down false (row, 4%nat)] in
  events_in_range (take 2 events) initialState = true
  ∧ events_in_range events initialState = false
  ∧ part000_run events initialState = None.
Proof. intros events. split_and!; vm_compute; reflexivity. Qed.

(** X16. In part_000, over any sequence of uploads, count changes, resets,
    selections, whole drags (pointer down, moves, release), nudges, key
    presses (whichever render their listener dates from), undos, redos and
    undo timers from the first render in which every drag that moves has a
    container of non-zero extent and every drag or nudge addresses a line
    that exists in the array it reads and in the array it writes: each
    line array, live or recorded in the history, has
    at least two lines, is in ascending order and holds percentages with
    two decimals; the history pointer is inside the stack or [-1]; the live
    lines are already in the order a split sorts them into, and a split has
    at least one cell to visit. *)
Theorem part000_grid_ok_after_events (events : list GridEvent) :
  events_in_range events initialState = true →
  ∃ st, part000_run events initialState = Some st
    ∧ grid_ok st ∧ history_wf st
    ∧ sort_numeric (rowPositions st) = rowPositions st
    ∧ sort_numeric (colPositions st) = colPositions st
    ∧ cells (rowPositions st) (colPositions st) ≠ [].
Proof.
  intros [st Hrun]%part000_run_in_range. exists st. split; [done|].
  assert (grid_ok st ∧ history_wf st) as [Hok Hwf].
  { apply (part000_run_grid_ok _ _ _ Hrun).
    - unfold initialState. cbn [grid_ok rowPositions colPositions history].
      rewrite <- generatePositions_4.
      split_and!; [apply generatePositions_ok..|apply Forall_nil_2].
    - unfold history_wf. simpl. lia. }
  assert (∀ l, line_array_ok l → sort_numeric l = l) as Hsort.
  { intros l (_ & Hs & _).
    assert (AntiSymm (=) Qcle) as Hanti by (intros a b; apply Qcle_antisym).
    apply (StronglySorted_unique Qcle).
    - apply (StronglySorted_merge_sort Qcle).
    - clear -Hs. induction l as [|a l IH]; constructor.
      + apply IH. intros i j x y Hij Hx Hy. by apply (Hs (S i) (S j)); [lia|..].
      + apply Forall_lookup. intros i x Hx. by apply (Hs 0%nat (S i)); [lia|..].
    - apply merge_sort_Permutation. }
  pose proof Hok as ((Hlr & _) & (Hlc & _) & _).
  split_and!; [done|done|apply Hsort, Hok..|].
  intros Hnil. apply (f_equal length) in Hnil. rewrite cells_length in Hnil.
  simpl in Hnil. nia.
Qed.

Lemma part000_grid_ok_after_events_witness :
  let arrow_down := {| targetIsInput := false; ctrlOrMeta := false;
                       shiftKey := false; key := ArrowDown |} in
  let render := handleRowChange 3 (handleUpload image_400 initialState) in
  ∃ st, part000_run
          [ev_upload image_400; ev_rowChange 3; ev_select (Some (row, 1%nat));
           ev_drag row 2 rect_400 [pointer_100_300];
           ev_nudge dir_down false (row, 1%nat); ev_key arrow_down render]
          initialState = Some st
      ∧ grid_ok st.
Proof.
  intros arrow_down render.
  destruct (part000_grid_ok_after_events
              [ev_upload image_400; ev_rowChange 3; ev_select (Some (row, 1%nat));
               ev_drag row 2 rect_400 [pointer_100_300];
               ev_nudge dir_down false (row, 1%nat); ev_key arrow_down render])
    as (st & Hrun & Hok & _).
  - vm_compute. reflexivity.
  - exists st. split; assumption.
Defined.

(** X17. In part_000 a nudge, from a button or an arrow key (whichever
    render the handler dates from), is not recorded: the history and its
    pointer stay as they were, so an undo right after a nudge shows the same
    grid as an undo without the nudge would have shown. *)
Theorem part000_nudge_is_not_recorded (dir : Dir) (fast : bool)
    (line : LineType * nat) (e : KeyboardEvent) (render st st' : AppState) :
  Part000.handleNudge dir fast line render st = Some st'
  ∨ (Part000.handleKeyDown e render st = Some st' ∧ targetIsInput e = false
     ∧ ctrlOrMeta e = false) →
  history st' = history st ∧ historyIndex st' = historyIndex st
  ∧ ((0 < historyIndex st)%Z → history_wf st →
     snapshot (handleUndo st') = snapshot (handleUndo st)).
Proof.
  intros Hrun.
  assert (history st' = history st ∧ historyIndex st' = historyIndex st) as [Hh Hi].
  { destruct Hrun as [Hrun|(Hrun & Hin & Hctrl)].
    - by eapply handleNudge_history.
    - unfold Part000.handleKeyDown in Hrun. rewrite Hin, Hctrl in Hrun.
      cbn [andb] in Hrun.
      destruct (selectedLine st) as [l|]; [|by injection Hrun as <-].
      destruct (bool_decide _); [|by injection Hrun as <-].
      destruct (Part000.dirMap (key e)); [|by injection Hrun as <-].
      by eapply handleNudge_history. }
  split_and!; [done..|]. intros Hpos Hwf. unfold history_wf in Hwf.
  unfold handleUndo. rewrite Hh, Hi, !decide_True by lia.
  destruct (lookup_lt_is_Some_2 (history st) (Z.to_nat (historyIndex st - 1)))
    as [prev Hprev]; [lia|].
  by rewrite Hprev.
Qed.

Lemma part000_nudge_is_not_recorded_witness :
  ∃ st', Part000.handleNudge dir_down false (row, 1%nat)
           (handleUpload image_400 initialState)
           (handleRowChange 2 (handleUpload image_400 initialState)) = Some st'
       ∧ rowPositions st' ≠ rowPositions (handleRowChange 2 (handleUpload image_400 initialState))
       ∧ snapshot (handleUndo st')
         = snapshot (handleUndo (handleRowChange 2 (handleUpload image_400 initialState))).
Proof.
  eexists. split; [vm_compute; reflexivity|]. split; [vm_compute; discriminate|].
  refine (proj2 (proj2 (part000_nudge_is_not_recorded dir_down false (row, 1%nat)
            {| targetIsInput := false; ctrlOrMeta := false; shiftKey := false;
               key := ArrowDown |}
            (handleUpload image_400 initialState)
            (handleRowChange 2 (handleUpload image_400 initialState)) _ _)) _ _).
  - left. vm_compute. reflexivity.
  - vm_compute. reflexivity.
  - unfold history_wf. vm_compute. split; [discriminate|reflexivity].
Defined.

(** ** The arrow keys of [src/App.tsx] keep the lines apart *)

Lemma Qfloor_half (k : Z) : Qfloor (inject_Z k + 1 / 2) = k.
Proof.
  apply Z.le_antisymm.
  - assert (Qfloor (inject_Z k + 1 / 2) < k + 1)%Z; [|lia].
    rewrite Zlt_Qlt. eapply Qle_lt_trans; [apply Qfloor_le|].
    rewrite inject_Z_plus. qc2q'. lra.
  - apply Qfloor_ge_Z. qc2q'. lra.
Qed.

Lemma Number_toFixed2_id (v : Qc) : two_decimals v → Number_toFixed2 v = v.
Proof.
  intros [k ->]. unfold Number_toFixed2. case_decide as Hs.
  - assert (this (Q2Qc (inject_Z k / 100)) * 100 + 1 / 2 == inject_Z k + 1 / 2)%Q as ->;
      [|by rewrite Qfloor_half].
    cbn [this Q2Qc]. rewrite Qred_correct. field.
  - assert (- this (Q2Qc (inject_Z k / 100)) * 100 + 1 / 2 == inject_Z (- k) + 1 / 2)%Q
      as ->.
    { rewrite inject_Z_opp. cbn [this Q2Qc]. rewrite Qred_correct. field. }
    rewrite Qfloor_half. apply Qc_is_canon. rewrite inject_Z_opp. qc2q'. field.
Qed.

Lemma two_decimals_plus (a b : Qc) :
  two_decimals a → two_decimals b → two_decimals (a + b).
Proof.
  intros [k ->] [m ->]. exists (k + m)%Z. apply Qc_is_canon.
  rewrite inject_Z_plus. qc2q'. field.
Qed.

Lemma two_decimals_minus (a b : Qc) :
  two_decimals a → two_decimals b → two_decimals (a - b).
Proof.
  intros [k ->] [m ->]. exists (k - m)%Z. apply Qc_is_canon.
  unfold Z.sub. rewrite inject_Z_plus, inject_Z_opp. qc2q'. field.
Qed.

Lemma two_decimals_Math_max (a b : Qc) :
  two_decimals a → two_decimals b → two_decimals (Math_max a b).
Proof. intros Ha Hb. unfold Math_max. by case_decide. Qed.

Lemma two_decimals_Math_min (a b : Qc) :
  two_decimals a → two_decimals b → two_decimals (Math_min a b).
Proof. intros Ha Hb. unfold Math_min. by case_decide. Qed.

Lemma two_decimals_consts :
  two_decimals (num 0.1) ∧ two_decimals (num 0.2) ∧ two_decimals 2
  ∧ two_decimals (- Qc_of_Z 10) ∧ two_decimals (Qc_of_Z 110).
Proof.
  split_and!.
  - exists 10%Z. apply Qc_is_canon. by vm_compute.
  - exists 20%Z. apply Qc_is_canon. by vm_compute.
  - exists 200%Z. apply Qc_is_canon. by vm_compute.
  - exists (-1000)%Z. apply Qc_is_canon. by vm_compute.
  - exists 11000%Z. apply Qc_is_canon. by vm_compute.
Qed.

Ltac qcnum := qc2q'; unfold inject_Z in *.

Lemma keyboard_ok_insert (arr : list Qc) (i : nat) (v nv : Qc) :
  keyboard_ok arr → arr !! i = Some v →
  two_decimals nv → keyboard_range nv →
  (∀ a, (0 < i)%nat → arr !! (i - 1)%nat = Some a → a + num 0.1 ≤ nv) →
  (∀ b, arr !! S i = Some b → nv + num 0.1 ≤ b) →
  keyboard_ok (<[i := nv]> arr).
Proof.
  intros (Hsp & Hdec & Hrange) Hv Hnv Hr Hprev Hnext.
  assert (i < length arr)%nat as Hi by (by eapply lookup_lt_Some).
  split_and!.
  - intros j a b Ha Hb.
    destruct (decide (j = i)) as [->|Hji].
    + rewrite list_lookup_insert_eq in Ha by done. injection Ha as <-.
      rewrite list_lookup_insert_ne in Hb by lia. by apply Hnext.
    + rewrite list_lookup_insert_ne in Ha by done.
      destruct (decide (S j = i)) as [<-|Hji'].
      * rewrite list_lookup_insert_eq in Hb by done. injection Hb as <-.
        apply Hprev; [lia|]. by replace (S j - 1)%nat with j by lia.
      * rewrite list_lookup_insert_ne in Hb by done. by eapply Hsp.
  - by apply Forall_insert.
  - by apply Forall_insert.
Qed.

Lemma nudgeArray_keyboard_ok (arr : list Qc) (i : nat) (k : Key) (step : Qc) :
  step = num 0.2 ∨ step = 2 → (i < length arr)%nat → keyboard_ok arr →
  ∃ arr' changed,
    AppTsx.nudgeArray arr i k step = Some (arr', changed)
    ∧ keyboard_ok arr' ∧ length arr' = length arr
    ∧ (∀ j, j ≠ i → arr' !! j = arr !! j)
    ∧ (changed = false → arr' = arr).
Proof.
  intros Hstep Hi Hok. pose proof Hok as (Hsp & Hdec & Hrange).
  destruct (lookup_lt_is_Some_2 arr i Hi) as [v Hv].
  destruct (neighbour_limit_is_Some arr i k Hi) as [limit Hl].
  rewrite (nudgeArray_spec arr i k step v limit Hv Hl).
  destruct (decide (_ ≠ v)) as [Hne|_]; [|by eexists _, _].
  eexists _, _. split; [done|].
  split_and!; [|by rewrite length_insert|by intros j Hj; rewrite list_lookup_insert_ne|done].
  pose proof two_decimals_consts as (D1 & D2 & D3 & D4 & D5).
  assert (two_decimals v) as Hdv by (rewrite Forall_lookup in Hdec; by eapply Hdec).
  assert (keyboard_range v) as [Hv1 Hv2] by (rewrite Forall_lookup in Hrange; by eapply Hrange).
  assert (two_decimals step) as Hds by (by destruct Hstep as [-> | ->]).
  assert (0 ≤ step) as Hs0 by (destruct Hstep as [-> | ->]; by vm_compute).
  unfold neighbour_limit in Hl.
  destruct (towards_start k).
  - (* towards the start: the limit is the line before, or -10 *)
    assert (two_decimals limit ∧ limit + num 0.1 ≤ v ∧ - num 9.9 ≤ limit + num 0.1
            ∧ (∀ a, (0 < i)%nat → arr !! (i - 1)%nat = Some a → a = limit))
      as (Hdl & Hlv & Hl9 & Hprev).
    { destruct (decide (0 < i)%nat) as [H0|H0].
      - split_and!.
        + rewrite Forall_lookup in Hdec. by eapply Hdec.
        + apply (Hsp (i - 1)%nat); [done|]. by replace (S (i - 1)) with i by lia.
        + rewrite Forall_lookup in Hrange. destruct (Hrange _ _ Hl) as [Hr1 _].
          revert Hr1. qcnum. intros. lra.
        + intros a _ Ha. congruence.
      - injection Hl as <-. split_and!; [done| |by vm_compute|intros; lia].
        revert Hv1. qcnum. intros. lra. }
    rewrite Number_toFixed2_id
      by (apply two_decimals_Math_max;
          [by apply two_decimals_plus|by apply two_decimals_minus]).
    pose proof (Math_max_ge_l (limit + num 0.1) (v - step)) as HM1.
    assert (Math_max (limit + num 0.1) (v - step) ≤ v) as HM2.
    { unfold Math_max. destruct (decide (_ ≤ _)); [|done]. revert Hs0. qcnum. intros. lra. }
    set (nv := Math_max (limit + num 0.1) (v - step)) in *.
    apply (keyboard_ok_insert arr i v nv Hok Hv).
    + by apply two_decimals_Math_max;
        [apply two_decimals_plus|apply two_decimals_minus].
    + split; [by etrans|by etrans].
    + intros a H0 Ha. by rewrite (Hprev a H0 Ha).
    + intros b Hb. pose proof (Hsp i v b Hv Hb) as Hvb.
      revert HM2 Hvb. generalize nv. intros nv' HM2 Hvb. qcnum. lra.
  - (* towards the end: the limit is the line after, or 110 *)
    assert (two_decimals limit ∧ v ≤ limit - num 0.1 ∧ limit - num 0.1 ≤ num 109.9
            ∧ (∀ b, arr !! S i = Some b → b = limit))
      as (Hdl & Hlv & Hl9 & Hnext).
    { destruct (decide (i < length arr - 1)%nat) as [H0|H0].
      - replace (i + 1)%nat with (S i) in Hl by lia. split_and!.
        + rewrite Forall_lookup in Hdec. by eapply Hdec.
        + pose proof (Hsp i v limit Hv Hl) as Hvl. revert Hvl. qcnum. intros. lra.
        + rewrite Forall_lookup in Hrange. destruct (Hrange _ _ Hl) as [_ Hr2].
          revert Hr2. qcnum. intros. lra.
        + intros b Hb. congruence.
      - injection Hl as <-. split_and!; [done| |by vm_compute|].
        + revert Hv2. qcnum. intros. lra.
        + intros b Hb. apply lookup_lt_Some in Hb. lia. }
    rewrite Number_toFixed2_id
      by (apply two_decimals_Math_min;
          [by apply two_decimals_minus|by apply two_decimals_plus]).
    pose proof (Math_min_le_l (limit - num 0.1) (v + step)) as HM1.
    assert (v ≤ Math_min (limit - num 0.1) (v + step)) as HM2.
    { unfold Math_min. destruct (decide (_ ≤ _)); [done|]. revert Hs0. qcnum. intros. lra. }
    set (nv := Math_min (limit - num 0.1) (v + step)) in *.
    apply (keyboard_ok_insert arr i v nv Hok Hv).
    + by apply two_decimals_Math_min;
        [apply two_decimals_minus|apply two_decimals_plus].
    + split; [by etrans|by etrans].
    + intros a H0 Ha.
      assert (a + num 0.1 ≤ v) as Hav.
      { apply (Hsp (i - 1)%nat); [done|]. by replace (S (i - 1)) with i by lia. }
      by etrans.
    + intros b Hb. rewrite (Hnext b Hb).
      revert HM1. generalize nv. intros nv' HM1. qcnum. lra.
Qed.

Lemma spaced_strictly_increasing (l : list Qc) : spaced l → strictly_increasing l.
Proof.
  intros Hsp i j a b Hij Ha Hb.
  revert b Hb. induction j as [|j IH]; intros b Hb; [lia|].
  destruct (lookup_lt_is_Some_2 l j) as [c Hc]; [apply lookup_lt_Some in Hb; lia|].
  pose proof (Hsp j c b Hc Hb) as Hcb.
  destruct (decide (i = j)) as [->|Hne].
  - assert (c = a) as -> by congruence. revert Hcb. qcnum. intros. lra.
  - assert (a < c) as Hac by (apply IH; [lia|done]).
    revert Hcb Hac. qcnum. intros. lra.
Qed.

(** X18. The arrow keys of [src/App.tsx], on lines that are at least 0.1
    apart, have two decimals and lie between -9.9 and 109.9 (as after an
    upload or a change of the row or column count): the selected line is
    the only one that moves, and the lines are again at least 0.1 apart,
    hence strictly ascending, with two decimals and in that range; no line
    is added or removed. *)
Theorem AppTsx_arrow_keys_keep_lines_apart (e : KeyboardEvent) (st : AppState)
    (type : LineType) (i : nat) :
  targetIsInput e = false →
  key e ∈ [ArrowUp; ArrowDown; ArrowLeft; ArrowRight] →
  selectedLine st = Some (type, i) →
  (i < length (axis type st))%nat →
  keyboard_ok (axis type st) →
  ∃ st', AppTsx.handleKeyDown e st = Some st'
    ∧ keyboard_ok (axis type st')
    ∧ strictly_increasing (axis type st')
    ∧ length (axis type st') = length (axis type st)
    ∧ (∀ j, j ≠ i → axis type st' !! j = axis type st !! j)
    ∧ other_axis type st' = other_axis type st.
Proof.
  intros Hin Hk Hsel Hi Hok.
  unfold AppTsx.handleKeyDown.
  rewrite Hin, (arrow_not_KeyZ _ Hk), andb_false_r, Hsel.
  rewrite (bool_decide_eq_true_2 _ Hk).
  set (step := if shiftKey e then 2 else num 0.2).
  assert (step = num 0.2 ∨ step = 2) as Hstep
    by (unfold step; destruct (shiftKey e); [by right|by left]).
  destruct (nudgeArray_keyboard_ok (axis type st) i (key e) step Hstep Hi Hok)
    as (arr' & changed & Hrun & Hok' & Hlen & Hsame & Hsame').
  destruct type; cbn [axis other_axis] in *; rewrite Hrun; cbn [mbind option_bind fst snd];
    (destruct changed; [|rewrite Hsame' in * by done]); eexists; (split; [done|]);
    rewrite ?rowPositions_addToHistory, ?colPositions_addToHistory;
    cbn [rowPositions colPositions setRowPositions setColPositions];
    (split_and!; [done|by apply spaced_strictly_increasing, Hok'|done..]).
Qed.

Lemma AppTsx_arrow_keys_keep_lines_apart_witness :
  ∃ st', AppTsx.handleKeyDown
           {| targetIsInput := false; ctrlOrMeta := false; shiftKey := true;
              key := ArrowUp |}
           (setSelectedLine (Some (row, 0%nat)) (handleUpload image_400 initialState))
         = Some st'
       ∧ strictly_increasing (rowPositions st')
       ∧ length (rowPositions st') = 5%nat.
Proof.
  destruct (AppTsx_arrow_keys_keep_lines_apart
              {| targetIsInput := false; ctrlOrMeta := false; shiftKey := true;
                 key := ArrowUp |}
              (setSelectedLine (Some (row, 0%nat)) (handleUpload image_400 initialState))
              row 0%nat)
    as (st' & Hrun & _ & Hinc & Hlen & _).
  - reflexivity.
  - apply (bool_decide_unpack _). vm_compute. reflexivity.
  - reflexivity.
  - vm_compute. lia.
  - cbn [axis]. split_and!.
    + intros j a b Ha Hb.
      destruct j as [|[|[|[|j]]]]; vm_compute in Ha, Hb;
        try discriminate Ha; try discriminate Hb;
        injection Ha as <-; injection Hb as <-; vm_compute; discriminate.
    + apply generatePositions_two_decimals.
    + apply (bool_decide_unpack _). vm_compute. reflexivity.
  - exists st'. split_and!; [exact Hrun|exact Hinc|exact Hlen].
Defined.

(** ** What a drag leaves in the history *)

Lemma AppTsx_handleUp_addToHistory (start st : AppState) :
  historyIndex st = historyIndex start →
  AppTsxDrag.handleUp start st = addToHistory (snapshot start) st.
Proof. intros Hi. unfold AppTsxDrag.handleUp, addToHistory, snapshot. by rewrite Hi. Qed.

Lemma AppTsx_handleMove_frame (type : LineType) (index : nat) (rect : DOMRect)
    (ev : PointerEvent) (st st' : AppState) :
  AppTsx.handleMove type index rect ev st = Some st' →
  history st' = history st ∧ historyIndex st' = historyIndex st
  ∧ isUndoRedo st' = isUndoRedo st ∧ rows st' = rows st ∧ cols st' = cols st.
Proof.
  unfold AppTsx.handleMove.
  destruct (dragPct _ _ _); cbn [mbind option_bind]; [|done].
  destruct type; destruct (array_set _ _ _); cbn [mbind option_bind]; try done;
    by intros [= <-].
Qed.

Lemma Part000_handleMove_frame (type : LineType) (index : nat) (rect : DOMRect)
    (ev : PointerEvent) (st st' : AppState) :
  Part000.handleMove type index rect ev st = Some st' →
  history st' = history st ∧ historyIndex st' = historyIndex st
  ∧ isUndoRedo st' = isUndoRedo st ∧ rows st' = rows st ∧ cols st' = cols st.
Proof.
  unfold Part000.handleMove, Part000.updateLinePosition.
  destruct (dragPct _ _ _); cbn [mbind option_bind]; [|done].
  destruct type; destruct (array_set _ _ _); cbn [mbind option_bind]; try done;
    by intros [= <-].
Qed.

Lemma moves_frame (move : PointerEvent → AppState → option AppState)
    (moves : list PointerEvent) (start st : AppState) :
  (∀ ev a b, move ev a = Some b →
     history b = history a ∧ historyIndex b = historyIndex a
     ∧ isUndoRedo b = isUndoRedo a ∧ rows b = rows a ∧ cols b = cols a) →
  foldl (λ acc ev, acc ≫= move ev) (Some start) moves = Some st →
  history st = history start ∧ historyIndex st = historyIndex start
  ∧ isUndoRedo st = isUndoRedo start ∧ rows st = rows start ∧ cols st = cols start.
Proof.
  intros Hmove. revert start. induction moves as [|ev moves IH]; intros start.
  - by intros [= <-].
  - cbn [foldl mbind option_bind].
    destruct (move ev start) as [st1|] eqn:H1.
    + intros Hrest. destruct (Hmove _ _ _ H1) as (<- & <- & <- & <- & <-).
      cbn [mbind option_bind] in Hrest. by apply IH.
    + cbn [mbind option_bind]. intros Hrest. exfalso. clear -Hrest.
      induction moves as [|ev' moves IH']; [done|]. by apply IH'.
Qed.

(** X19. On a grid the history has on top, a drag in [src/App.tsx] is not
    recorded when the pointer is released: [handleUp] pushes the grid of
    the moment the drag began, which is the entry already on top, so the
    stack keeps its entries up to the pointer and nothing else, and the
    moved lines are in no entry unless the drag moved nothing.  In
    part_000 the release records the lines as they are after the drag. *)
Theorem drag_release_records_start_grid (type : LineType) (index : nat)
    (rect : DOMRect) (moves : list PointerEvent) (start : AppState) :
  isUndoRedo start = false → history_wf start →
  history_top start = Some (snapshot start) →
  (∀ st', AppTsxDrag.onLineDragStart type index rect moves start = Some st' →
     history st' = take (Z.to_nat (historyIndex start + 1)) (history start)
     ∧ historyIndex st' = historyIndex start
     ∧ history_top st' = Some (snapshot start)
     ∧ (snapshot st' ≠ snapshot start → history_top st' ≠ Some (snapshot st')))
  ∧ (∀ st', Part000Drag.onLineDragStart type index rect moves start = Some st' →
       history_top st' = Some (snapshot st')).
Proof.
  intros Hf Hwf Htop. split.
  - intros st'. unfold AppTsxDrag.onLineDragStart.
    destruct (foldl _ _ _) as [st|] eqn:Hmoves; cbn [mbind option_bind]; [|done].
    intros [= <-].
    destruct (moves_frame (AppTsx.handleMove type index rect) moves start st
                (AppTsx_handleMove_frame type index rect) Hmoves)
      as (Hh & Hi & Hfl & Hr & Hc).
    rewrite AppTsx_handleUp_addToHistory by done.
    assert (history_top st = Some (snapshot start)) as Htop'
      by (unfold history_top in *; by rewrite Hh, Hi).
    assert (history_wf st) as Hwf' by (by eapply history_wf_same).
    rewrite addToHistory_dedupe by (done || congruence).
    cbn [history historyIndex setHistory]. rewrite Hh, Hi.
    assert (history_top (setHistory (take (Z.to_nat (historyIndex start + 1)) (history start)) st)
            = Some (snapshot start)) as Hres.
    { unfold history_top in *. cbn [history historyIndex setHistory]. rewrite Hi.
      case_decide as H0; [|done]. unfold history_wf in Hwf.
      by rewrite lookup_take_lt by lia. }
    split_and!; [done..|]. intros Hne. rewrite Hres. intros Heq.
    apply Hne. apply (inj Some) in Heq. by rewrite Heq.
  - intros st'. unfold Part000Drag.onLineDragStart.
    destruct (foldl _ _ _) as [st|] eqn:Hmoves; cbn [mbind option_bind]; [|done].
    intros [= <-].
    destruct (moves_frame (Part000.handleMove type index rect) moves start st
                (Part000_handleMove_frame type index rect) Hmoves)
      as (Hh & Hi & Hfl & Hr & Hc).
    unfold Part000.handleUp. rewrite snapshot_addToHistory.
    apply addToHistory_top; [congruence|by eapply history_wf_same].
Qed.

Lemma drag_release_records_start_grid_witness :
  let start := handleUpload image_400 initialState in
  ∃ st', AppTsxDrag.onLineDragStart row 1 rect_400 [pointer_100_300] start = Some st'
       ∧ rowPositions st' ≠ rowPositions start
       ∧ history st' = history start.
Proof.
  intros start. eexists. split; [vm_compute; reflexivity|].
  split; [vm_compute; discriminate|].
  refine (proj1 (proj1 (drag_release_records_start_grid row 1 rect_400 [pointer_100_300]
                          start _ _ _) _ _)).
  - reflexivity.
  - unfold history_wf. vm_compute. split; [discriminate|reflexivity].
  - vm_compute. reflexivity.
  - vm_compute. reflexivity.
Defined.

(** ** Stepping through the results *)

Lemma findIndex_unique (rs : list SplitResult) (k : nat) (res : SplitResult) :
  NoDup (sr_id <$> rs) → rs !! k = Some res →
  findIndex (sr_id res) rs = Z.of_nat k.
Proof.
  intros Hnd Hk. unfold findIndex.
  destruct (list_find _ rs) as [[i r]|] eqn:Hfind.
  - apply list_find_Some in Hfind as (Hi & Hid & _).
    f_equal. eapply (NoDup_lookup (sr_id <$> rs)); [done|..].
    + by rewrite list_lookup_fmap, Hi.
    + by rewrite list_lookup_fmap, Hk, Hid.
  - apply list_find_None in Hfind. rewrite Forall_lookup in Hfind.
    by destruct (Hfind k res Hk).
Qed.

Lemma findIndex_missing (id : Z) (rs : list SplitResult) :
  id ∉ sr_id <$> rs → findIndex id rs = (-1)%Z.
Proof.
  intros Hnot. unfold findIndex.
  destruct (list_find _ rs) as [[i r]|] eqn:Hfind; [|done].
  apply list_find_Some in Hfind as (Hi & Hid & _).
  destruct Hnot. apply list_elem_of_fmap. exists r. split; [done|].
  by eapply list_elem_of_lookup_2.
Qed.

(** X20. Stepping through results with distinct ids, from the result at
    position [k] (the dialog may hold an older copy of it): next moves to
    position [k + 1] and does nothing at the last result, previous moves to
    position [k - 1] and does nothing at the first, previous after next
    comes back to position [k], and [hasNext] and [hasPrev] tell exactly
    whether there is such a neighbour.  When the edited id is in no
    result, next jumps to the first result and previous does nothing. *)
Theorem edit_navigation (st : AppState) (rs : list SplitResult)
    (editing res : SplitResult) (k : nat) :
  results st = Some rs → editingResult st = Some editing →
  NoDup (sr_id <$> rs) →
  (rs !! k = Some res → sr_id editing = sr_id res →
     ((k + 1 < length rs)%nat →
        handleNextEdit st = setEditingResult (rs !! (k + 1)%nat) st
        ∧ editingResult (handlePrevEdit (handleNextEdit st)) = Some res)
     ∧ ((k + 1 = length rs)%nat → handleNextEdit st = st)
     ∧ ((0 < k)%nat → handlePrevEdit st = setEditingResult (rs !! (k - 1)%nat) st)
     ∧ (k = 0%nat → handlePrevEdit st = st)
     ∧ hasNext st = bool_decide (k + 1 < length rs)%nat
     ∧ hasPrev st = bool_decide (0 < k)%nat)
  ∧ (sr_id editing ∉ sr_id <$> rs →
     handlePrevEdit st = st
     ∧ handleNextEdit st = (if decide (rs = []) then st
                            else setEditingResult (rs !! 0%nat) st)).
Proof.
  intros Hrs Hed Hnd. split.
  - intros Hk Hid.
    pose proof (findIndex_unique rs k res Hnd Hk) as Hidx. rewrite <- Hid in Hidx.
    assert (k < length rs)%nat as Hlt by (by eapply lookup_lt_Some).
    split_and!.
    + intros Hnext.
      assert (handleNextEdit st = setEditingResult (rs !! (k + 1)%nat) st) as Hrun.
      { unfold handleNextEdit, nextEditTarget. rewrite Hed, Hrs. cbv zeta. rewrite Hidx.
        rewrite decide_True by lia. do 2 f_equal. lia. }
      split; [done|]. rewrite Hrun.
      destruct (lookup_lt_is_Some_2 rs (k + 1)) as [res' Hres']; [lia|].
      rewrite Hres'. unfold handlePrevEdit, prevEditTarget.
      cbn [editingResult results setEditingResult]. rewrite Hrs. cbv zeta.
      rewrite (findIndex_unique rs (k + 1) res' Hnd Hres').
      rewrite decide_True by lia. cbn [editingResult setEditingResult].
      rewrite <- Hk. f_equal. lia.
    + intros Hlast. unfold handleNextEdit, nextEditTarget. rewrite Hed, Hrs. cbv zeta.
      rewrite Hidx. by rewrite decide_False by lia.
    + intros Hpos. unfold handlePrevEdit, prevEditTarget. rewrite Hed, Hrs. cbv zeta.
      rewrite Hidx. rewrite decide_True by lia. do 2 f_equal. lia.
    + intros ->. unfold handlePrevEdit, prevEditTarget. rewrite Hed, Hrs. cbv zeta.
      rewrite Hidx. by rewrite decide_False by lia.
    + unfold hasNext. rewrite Hed, Hrs, Hidx. apply bool_decide_ext. lia.
    + unfold hasPrev. rewrite Hed, Hrs, Hidx. apply bool_decide_ext. lia.
  - intros Hnot. pose proof (findIndex_missing _ _ Hnot) as Hidx. split.
    + unfold handlePrevEdit, prevEditTarget. rewrite Hed, Hrs. cbv zeta.
      rewrite Hidx. by rewrite decide_False by lia.
    + unfold handleNextEdit, nextEditTarget. rewrite Hed, Hrs. cbv zeta. rewrite Hidx.
      destruct rs as [|r rs']; cbn [length].
      * by rewrite decide_False by lia.
      * by rewrite decide_True, decide_False by (done || lia).
Qed.

Lemma edit_navigation_witness :
  handlePrevEdit state_editing = setEditingResult (Some (sample_result 0)) state_editing
  ∧ handleNextEdit state_editing = state_editing.
Proof.
  destruct (edit_navigation state_editing [sample_result 0; sample_result 1]
              (sample_result 1) (sample_result 1) 1%nat) as [Hin _].
  - reflexivity.
  - reflexivity.
  - apply (bool_decide_unpack _). vm_compute. reflexivity.
  - destruct Hin as (_ & Hlast & Hprev & _); [reflexivity..|].
    split; [apply Hprev; lia|apply Hlast; reflexivity].
Defined.

(** ** The archive of [handleDownloadAll] *)

Lemma string_length_app (a b : string) :
  String.length (a +:+ b) = (String.length a + String.length b)%nat.
Proof.
  induction a as [|c a IH]; [done|].
  change (S (String.length (a +:+ b)) = S (String.length a + String.length b)).
  by rewrite IH.
Qed.

Lemma string_app_inj_suffix (a b s1 s2 : string) :
  String.length s1 = String.length s2 → a +:+ s1 = b +:+ s2 → a = b.
Proof.
  intros Hlen. revert b. induction a as [|c a IH]; intros [|d b] Heq.
  - done.
  - change (s1 = String d (b +:+ s2)) in Heq. rewrite Heq in Hlen.
    change (S (String.length (b +:+ s2)) = String.length s2) in Hlen.
    rewrite string_length_app in Hlen. lia.
  - change (String c (a +:+ s1) = s2) in Heq. rewrite <- Heq in Hlen.
    change (String.length s1 = S (String.length (a +:+ s1))) in Hlen.
    rewrite string_length_app in Hlen. lia.
  - change (String c (a +:+ s1) = String d (b +:+ s2)) in Heq.
    injection Heq as -> Heq. f_equal. by apply IH.
Qed.

Lemma fileName_inj (r1 r2 : SplitResult) :
  fileName r1 = fileName r2 → sr_id r1 = sr_id r2.
Proof.
  unfold fileName. intros Heq.
  apply (inj (String.append "split_")) in Heq.
  apply string_app_inj_suffix in Heq.
  - apply (inj pretty) in Heq. lia.
  - by destruct (sr_extension r1), (sr_extension r2).
Qed.

Lemma zip_files_fold (rs : list SplitResult) (zip : gmap string Blob) :
  NoDup (sr_id <$> rs) →
  (∀ r, r ∈ rs → zip !! fileName r = None) →
  let zip' := foldl (λ zip res, <[fileName res := sr_blob res]> zip) zip rs in
  base.size zip' = (base.size zip + length rs)%nat
  ∧ (∀ r, r ∈ rs → zip' !! fileName r = Some (sr_blob r))
  ∧ (∀ name, (∀ r, r ∈ rs → fileName r ≠ name) → zip' !! name = zip !! name).
Proof.
  revert zip. induction rs as [|r rs IH]; intros zip Hnd Hfresh.
  - cbn. split_and!; [lia|by intros r ?%elem_of_nil|done].
  - cbn [foldl fmap list_fmap] in *. apply NoDup_cons in Hnd as [Hr Hnd].
    assert (∀ r', r' ∈ rs → fileName r' ≠ fileName r) as Hne.
    { intros r' Hin Heq. apply Hr. apply fileName_inj in Heq. rewrite <- Heq.
      apply list_elem_of_fmap. by exists r'. }
    destruct (IH (<[fileName r := sr_blob r]> zip) Hnd) as (Hsize & Hall & Hrest).
    { intros r' Hin. rewrite lookup_insert_ne by (intros Heq; by eapply Hne).
      apply Hfresh. by right. }
    split_and!.
    + rewrite Hsize, map_size_insert_None by (apply Hfresh; by left). cbn. lia.
    + intros r' [->|Hin]%elem_of_cons; [|by apply Hall].
      rewrite Hrest by done. apply lookup_insert_eq.
    + intros name Hname. rewrite Hrest by (intros r' Hin; apply Hname; by right).
      apply lookup_insert_ne. apply Hname. by left.
Qed.

(** X21. For results with distinct ids the archive of [handleDownloadAll]
    holds one file per result: no two results get the same name
    [split_<id+1>.<extension>], and each name leads to the buffer of its
    result.  Without results nothing is archived. *)
Theorem handleDownloadAll_one_file_per_result (st : AppState) (rs : list SplitResult) :
  (results st = None → handleDownloadAll st = None)
  ∧ (results st = Some rs → NoDup (sr_id <$> rs) →
     ∃ zip, handleDownloadAll st = Some zip
       ∧ base.size zip = length rs
       ∧ (∀ r, r ∈ rs → zip !! fileName r = Some (sr_blob r))
       ∧ (∀ name, is_Some (zip !! name) → ∃ r, r ∈ rs ∧ name = fileName r)).
Proof.
  split.
  - intros Hrs. unfold handleDownloadAll. by rewrite Hrs.
  - intros Hrs Hnd. unfold handleDownloadAll. rewrite Hrs. cbn [mbind option_bind].
    eexists. split; [done|].
    destruct (zip_files_fold rs ∅ Hnd) as (Hsize & Hall & Hrest).
    { intros r _. apply lookup_empty. }
    split_and!.
    + by rewrite Hsize, map_size_empty.
    + done.
    + intros name [b Hb].
      destruct (decide (Exists (λ r, fileName r = name) rs)) as [Hex|Hno].
      * apply Exists_exists in Hex as (r & Hin & <-). by exists r.
      * rewrite Hrest, lookup_empty in Hb; [done|].
        intros r Hin Heq. apply Hno, Exists_exists. by exists r.
Qed.

Lemma handleDownloadAll_one_file_per_result_witness :
  ∃ zip, handleDownloadAll state_editing = Some zip
       ∧ base.size zip = 2%nat
       ∧ zip !! "split_2.png" = Some (sr_blob (sample_result 1)).
Proof.
  destruct (proj2 (handleDownloadAll_one_file_per_result state_editing
                     [sample_result 0; sample_result 1]))
    as (zip & Hrun & Hsize & Hall & _).
  - reflexivity.
  - apply (bool_decide_unpack _). vm_compute. reflexivity.
  - exists zip. split_and!; [exact Hrun|exact Hsize|].
    apply (Hall (sample_result 1)). right. left.
Defined.

(** ** The fine-tune dialog *)

Lemma alter_four {A} (f1 f2 f3 f4 : A → A) (i : nat) (l : list A) (a : A) :
  l !! i = Some a →
  alter f4 i (alter f3 i (alter f2 i (alter f1 i l))) = <[i := f4 (f3 (f2 (f1 a)))]> l.
Proof.
  intros Ha. apply list_eq. intros j. destruct (decide (j = i)) as [->|Hne].
  - rewrite !list_lookup_alter_eq, Ha.
    rewrite list_lookup_insert_eq by (by eapply lookup_lt_Some). reflexivity.
  - rewrite !list_lookup_alter_ne, list_lookup_insert_ne by done. done.
Qed.

(** The preview effect, run on a canvas that exists and has a context. *)
Lemma previewEffect_run (p : Platform) (canvasRef : nat)
    (m : SingleAdjustModal.ModalState) (wd : World) (c0 : Canvas) :
  canvases wd !! canvasRef = Some c0 → getContext_2d p canvasRef = true →
  let rect := SingleAdjustModal.m_rect m in
  let margins := SingleAdjustModal.m_margins m in
  let offset := SingleAdjustModal.m_offset m in
  let w0 := Math_max 1 (w rect + left margins + right margins) in
  let h0 := Math_max 1 (h rect + top margins + bottom margins) in
  let finalW := if SingleAdjustModal.m_isSquare m then Math_max w0 h0 else w0 in
  let finalH := if SingleAdjustModal.m_isSquare m then Math_max w0 h0 else h0 in
  SingleAdjustModal.previewEffect p canvasRef m wd =
    (Ok (),
     with_canvases
       (<[canvasRef :=
            {| width := canvas_dimension 300 finalW;
               height := canvas_dimension 150 finalH;
               ops := [background_op (SingleAdjustModal.m_bgColor m) finalW finalH;
                       drawImage (x rect) (y rect)
                         (Math_max 1 (w rect)) (Math_max 1 (h rect))
                         ((finalW - (w rect + left margins + right margins)) / 2
                          + left margins + ox offset)
                         ((finalH - (h rect + top margins + bottom margins)) / 2
                          + top margins + oy offset)
                         (Math_max 1 (w rect)) (Math_max 1 (h rect))] |}]>
          (canvases wd)) wd).
Proof.
  intros Hc Hctx rect margins offset w0 h0 finalW finalH.
  unfold SingleAdjustModal.previewEffect. rewrite Hctx. cbn [negb].
  fold rect margins offset. cbv zeta. fold w0 h0. fold finalW finalH.
  rewrite draw_background.
  unfold bind, set_width, set_height, draw, update_canvas.
  cbn [canvases objectURLs alerts console_error].
  unfold with_canvases. f_equal. f_equal.
  by rewrite (alter_four _ _ _ _ _ _ c0 Hc).
Qed.

(** X22. The preview of the fine-tune dialog shows the canvas that a save
    composes: for a crop of at least one pixel each way whose content box
    (crop plus margins) is at least one pixel each way, the canvas that
    the preview effect paints and the base canvas that [generateImageBlob]
    builds from the same settings have the same size and the same drawing
    calls. *)
Theorem preview_shows_saved_canvas (p : Platform) (image : Image)
    (m : SingleAdjustModal.ModalState) (canvasRef : nat)
    (outputSize : OutputSize) (wd : World) (c0 : Canvas) :
  let rect := SingleAdjustModal.m_rect m in
  let margins := SingleAdjustModal.m_margins m in
  canvases wd !! canvasRef = Some c0 → getContext_2d p canvasRef = true →
  getContext_2d p (length (canvases wd)) = true →
  1 ≤ w rect → 1 ≤ h rect →
  1 ≤ w rect + left margins + right margins →
  1 ≤ h rect + top margins + bottom margins →
  let wd1 := (SingleAdjustModal.previewEffect p canvasRef m wd).2 in
  let wd2 :=
    (composeCanvas p image rect margins (SingleAdjustModal.m_offset m)
       (SingleAdjustModal.m_isSquare m) (SingleAdjustModal.m_bgColor m)
       outputSize wd1).2 in
  ∃ c, canvases wd1 !! canvasRef = Some c
     ∧ canvases wd2 !! length (canvases wd) = Some c
     ∧ canvases wd2 !! canvasRef = Some c.
Proof.
  intros rect margins Hc Hctx Hctx' Hw Hh HW HH wd1 wd2.
  assert (canvasRef < length (canvases wd))%nat as Hlt by (by eapply lookup_lt_Some).
  subst wd1 wd2. rewrite (previewEffect_run p canvasRef m wd c0 Hc Hctx).
  cbn [snd]. fold rect margins.
  rewrite !(Math_max_r 1 (w rect)), !(Math_max_r 1 (h rect)),
    !(Math_max_r 1 (w rect + left margins + right margins)),
    !(Math_max_r 1 (h rect + top margins + bottom margins)) by done.
  set (pc := {| width := _; height := _; ops := _ |}).
  assert (pc = base_canvas rect margins (SingleAdjustModal.m_offset m)
                 (SingleAdjustModal.m_isSquare m) (SingleAdjustModal.m_bgColor m)) as Hpc.
  { unfold pc, base_canvas, canvasWidth_of, canvasHeight_of.
    by destruct (SingleAdjustModal.m_isSquare m). }
  rewrite composeCanvas_run. cbn [with_canvases canvases].
  rewrite length_insert, Hctx'.
  exists pc. split; [by apply list_lookup_insert_eq|].
  rewrite <- Hpc.
  destruct outputSize as [|n]; [|case_decide]; cbn [snd with_canvases canvases].
  - split.
    + rewrite lookup_app_r; rewrite length_insert; [|lia]. by rewrite Nat.sub_diag.
    + rewrite lookup_app_l by (by rewrite length_insert). by apply list_lookup_insert_eq.
  - split.
    + rewrite lookup_app_r; rewrite length_insert; [|lia]. by rewrite Nat.sub_diag.
    + rewrite lookup_app_l by (by rewrite length_insert). by apply list_lookup_insert_eq.
  - split.
    + rewrite lookup_app_r; rewrite length_insert; [|lia]. by rewrite Nat.sub_diag.
    + rewrite lookup_app_l by (by rewrite length_insert). by apply list_lookup_insert_eq.
Qed.

Lemma preview_shows_saved_canvas_witness :
  let wd := with_canvases [blank_canvas 1] emptyWorld in
  let m := SingleAdjustModal.mount sample_saved_result in
  ∃ c, canvases (SingleAdjustModal.previewEffect platform_without_gif 0 m wd).2 !! 0%nat
       = Some c
     ∧ width c = Qc_of_Z 207 ∧ height c = Qc_of_Z 207.
Proof.
  intros wd m.
  destruct (preview_shows_saved_canvas platform_without_gif image_400 m 0%nat auto wd
              (blank_canvas 1)) as (c & Hc & Hc' & _).
  - reflexivity.
  - reflexivity.
  - reflexivity.
  - vm_compute. discriminate.
  - vm_compute. discriminate.
  - vm_compute. discriminate.
  - vm_compute. discriminate.
  - exists c. split; [exact Hc|].
    vm_compute in Hc. injection Hc as <-. split; apply Qc_is_canon; reflexivity.
Defined.

(** X24. In [src/App.tsx] the arrow keys of the dialog do what the
    direction buttons do, with a step of 1, or 10 with Shift, in every
    state the dialog can be in: on a result of fixed output size the square
    setting is on when the dialog opens or is handed such a result, the
    checkbox cannot switch it off, and with it on (or on a result without
    fixed size) both controls move the same thing by the same amount. *)
Theorem modal_arrow_keys_match_buttons (result : SplitResult) (shift : bool)
    (dir : Dir) (m : SingleAdjustModal.ModalState) (checked : bool) (color : string)
    (val : Qc) :
  fixed_is_square result (SingleAdjustModal.mount result)
  ∧ fixed_is_square result (SingleAdjustModal.resultEffect result m)
  ∧ (fixed_is_square result m →
     fixed_is_square result (SingleAdjustModal.onSquareCheckbox result checked m)
     ∧ fixed_is_square result (SingleAdjustModal.handleBgChange color m)
     ∧ fixed_is_square result (SingleAdjustModal.handleDirectionMove dir val m)
     ∧ fixed_is_square result (SingleAdjustModal.handleKeyDown_arrows result shift dir m)
     ∧ SingleAdjustModal.handleKeyDown_arrows result shift dir m
       = SingleAdjustModal.handleDirectionMove dir
           (if shift then Qc_of_Z 10 else 1) m).
Proof.
  unfold fixed_is_square. split_and!.
  - intros Hf. unfold SingleAdjustModal.mount, SingleAdjustModal.resultEffect.
    cbv zeta. cbn [SingleAdjustModal.m_isSquare]. by rewrite Hf.
  - intros Hf. unfold SingleAdjustModal.resultEffect.
    cbv zeta. cbn [SingleAdjustModal.m_isSquare]. by rewrite Hf.
  - intros Hinv. split_and!.
    + intros Hf. unfold SingleAdjustModal.onSquareCheckbox. rewrite Hf. by apply Hinv.
    + done.
    + intros Hf. unfold SingleAdjustModal.handleDirectionMove.
      destruct (SingleAdjustModal.activeTab m); [by apply Hinv|].
      destruct (SingleAdjustModal.m_isSquare m) eqn:Hsq; [done|].
      by rewrite Hinv in Hsq.
    + intros Hf. unfold SingleAdjustModal.handleKeyDown_arrows.
      destruct (SingleAdjustModal.activeTab m); [by apply Hinv|].
      rewrite Hinv by done. cbn [orb]. by apply Hinv.
    + unfold SingleAdjustModal.handleKeyDown_arrows, SingleAdjustModal.handleDirectionMove.
      destruct (SingleAdjustModal.activeTab m); [done|].
      destruct (SingleAdjustModal.isFixedSize result) eqn:Hf.
      * by rewrite Hinv.
      * by rewrite orb_false_r.
Qed.

Lemma modal_arrow_keys_match_buttons_witness :
  let m := SingleAdjustModal.mount sample_saved_result in
  SingleAdjustModal.m_isSquare m = true
  ∧ SingleAdjustModal.handleKeyDown_arrows sample_saved_result true dir_left m
    = SingleAdjustModal.handleDirectionMove dir_left (Qc_of_Z 10) m.
Proof.
  intros m.
  destruct (modal_arrow_keys_match_buttons sample_saved_result true dir_left m
              false "white" 1) as (Hmount & _ & Hrest).
  split; [by apply Hmount|].
  destruct (Hrest Hmount) as (_ & _ & _ & _ & Hkeys). exact Hkeys.
Defined.

(** ** Saving from the dialog and opening it again *)

Lemma fmap_replace_unique (rs : list SplitResult) (k : nat) (r : SplitResult)
    (f : SplitResult → SplitResult) :
  NoDup (sr_id <$> rs) → rs !! k = Some r →
  (λ r', if decide (sr_id r' = sr_id r) then f r' else r') <$> rs = <[k := f r]> rs.
Proof.
  intros Hnd Hk. apply list_eq. intros j. rewrite list_lookup_fmap.
  destruct (decide (j = k)) as [->|Hne].
  - rewrite Hk, list_lookup_insert_eq by (by eapply lookup_lt_Some).
    cbn. by rewrite decide_True.
  - rewrite list_lookup_insert_ne by done.
    destruct (rs !! j) as [r'|] eqn:Hj; [|done]. cbn.
    rewrite decide_False; [done|]. intros Heq. apply Hne.
    eapply (NoDup_lookup (sr_id <$> rs)); [done|..].
    + by rewrite list_lookup_fmap, Hj.
    + by rewrite list_lookup_fmap, Hk, Heq.
Qed.

(** X25. Save and close in the fine-tune dialog, when the compositor
    delivers a buffer: the dialog closes, and the edited result, alone and
    at its position, is replaced by one with the same id, extension and
    output size that holds the new buffer and the settings of the dialog.
    Opening the dialog on that result again shows the same crop, margins
    and offset, the same background (unless it was the empty string), and
    the same square setting, or square on when the output size is fixed. *)
Theorem save_and_reopen
    (gen : Platform → Image → Rect → Margins → Offset → bool → string →
           OutputSize → Format → M (option Blob))
    (p : Platform) (srcImage : Image) (m : SingleAdjustModal.ModalState)
    (st : AppState) (wd wd1 : World) (rs : list SplitResult)
    (result : SplitResult) (k : nat) (blob : Blob) :
  results st = Some rs → editingResult st = Some result →
  NoDup (sr_id <$> rs) → rs !! k = Some result →
  gen p srcImage (SingleAdjustModal.m_rect m) (SingleAdjustModal.m_margins m)
    (SingleAdjustModal.m_offset m) (SingleAdjustModal.m_isSquare m)
    (SingleAdjustModal.m_bgColor m) (SingleAdjustModal.outputSize_or_auto result)
    (sr_extension result) wd = (Ok (Some blob), wd1) →
  ∃ m' st' wd' saved,
    SingleAdjustModal.handleSaveWithNavigation gen p srcImage result
      SingleAdjustModal.nav_close m st wd = (Ok (m', st'), wd')
    ∧ m' = SingleAdjustModal.setIsSaving false m
    ∧ st' = setEditingResult None (setResults (Some (<[k := saved]> rs)) st)
    ∧ canvases wd' = canvases wd1 ∧ alerts wd' = alerts wd1
    ∧ sr_id saved = sr_id result ∧ sr_extension saved = sr_extension result
    ∧ sr_outputSize saved = sr_outputSize result ∧ sr_blob saved = blob
    ∧ SingleAdjustModal.m_rect (SingleAdjustModal.mount saved) = SingleAdjustModal.m_rect m
    ∧ SingleAdjustModal.m_margins (SingleAdjustModal.mount saved)
      = SingleAdjustModal.m_margins m
    ∧ SingleAdjustModal.m_offset (SingleAdjustModal.mount saved)
      = SingleAdjustModal.m_offset m
    ∧ SingleAdjustModal.m_isSquare (SingleAdjustModal.mount saved)
      = (SingleAdjustModal.isFixedSize result || SingleAdjustModal.m_isSquare m)
    ∧ (SingleAdjustModal.m_bgColor m ≠ "" →
       SingleAdjustModal.m_bgColor (SingleAdjustModal.mount saved)
       = SingleAdjustModal.m_bgColor m).
Proof.
  intros Hrs Hed Hnd Hk Hgen.
  unfold SingleAdjustModal.handleSaveWithNavigation. unfold bind at 1. rewrite Hgen.
  unfold bind at 1. unfold handleSaveSingle. rewrite Hed, Hrs.
  unfold bind at 1. unfold createObjectURL at 1. cbv iota beta.
  rewrite (fmap_replace_unique rs k result _ Hnd Hk).
  unfold ret. eexists _, _, _, _. split; [reflexivity|].
  split; [by destruct m|]. split; [reflexivity|].
  cbn [canvases alerts]. split; [done|]. split; [done|].
  unfold spread, SingleAdjustModal.saveExtra.
  cbn [sr_id sr_extension sr_outputSize sr_blob ex_id ex_extension ex_outputSize ex_blob
       default from_option].
  split_and!; try done.
  intros Hbg. unfold SingleAdjustModal.mount, SingleAdjustModal.resultEffect,
    SingleAdjustModal.truthy. cbv zeta.
  cbn [SingleAdjustModal.m_bgColor sr_bgColor ex_bgColor from_option default].
  by rewrite decide_False.
Qed.

Lemma save_and_reopen_witness :
  ∃ m' st' wd',
    SingleAdjustModal.handleSaveWithNavigation AppTsx.generateImageBlob
      platform_without_gif image_400 (sample_result 1) SingleAdjustModal.nav_close
      (SingleAdjustModal.handleDirectionMove dir_left 1
         (SingleAdjustModal.mount (sample_result 1)))
      state_editing emptyWorld = (Ok (m', st'), wd')
    ∧ editingResult st' = None.
Proof.
  destruct (save_and_reopen AppTsx.generateImageBlob platform_without_gif image_400
              (SingleAdjustModal.handleDirectionMove dir_left 1
                 (SingleAdjustModal.mount (sample_result 1)))
              state_editing emptyWorld
              (AppTsx.generateImageBlob platform_without_gif image_400
                 {| x := - (1); y := 0; w := Qc_of_Z 200; h := Qc_of_Z 200 |}
                 no_margins no_offset false "white" auto png emptyWorld).2
              [sample_result 0; sample_result 1] (sample_result 1) 1%nat
              (PngBlob (base_canvas
                          {| x := - (1); y := 0; w := Qc_of_Z 200; h := Qc_of_Z 200 |}
                          no_margins no_offset false "white")))
    as (m' & st' & wd' & saved & Hrun & _ & Hst & _).
  - reflexivity.
  - reflexivity.
  - apply (bool_decide_unpack _). vm_compute. reflexivity.
  - reflexivity.
  - vm_compute. reflexivity.
  - exists m', st', wd'. split; [exact Hrun|]. rewrite Hst. reflexivity.
Defined.

(** ** Fitting the image to the preview pane *)

Lemma Qc_pos_ne_0 (n : Qc) : 0 < n → n ≠ 0.
Proof. intros Hn ->. by destruct (Qclt_not_eq _ _ Hn). Qed.

Lemma Qc_mul_div (a n : Qc) : n ≠ 0 → n * (a / n) = a.
Proof. intros Hn. field. exact Hn. Qed.

Lemma Qc_le_div (z a n : Qc) : 0 < n → n * z ≤ a → z ≤ a / n.
Proof.
  intros Hn Hle. apply (Qcmult_lt_0_le_reg_r _ _ n Hn).
  rewrite (Qcmult_comm (a / n)), (Qc_mul_div a n) by (by apply Qc_pos_ne_0).
  by rewrite Qcmult_comm.
Qed.

Lemma Qc_mul_le_div (z a n : Qc) : 0 < n → z ≤ a / n → n * z ≤ a.
Proof.
  intros Hn Hle. rewrite <- (Qc_mul_div a n) by (by apply Qc_pos_ne_0).
  rewrite !(Qcmult_comm n). apply Qcmult_le_compat_r; [done|by apply Qclt_le_weak].
Qed.

(** X26. [fitImageToScreen] of part_000, for an image of positive natural
    size: the zoom it sets is the largest scale, not above 1, at which the
    image fits the pane with the padding left free (32 pixels of width on
    a window narrower than 768 pixels, 64 otherwise, and 80 of height); it
    is not negative when the pane is at least as large as the padding, and
    the pan is reset.  Whatever the zoom, also one below 0.1 set by a fit,
    [handleZoom] brings it into the range from 0.1 to 5. *)
Theorem fitImageToScreen_largest_fitting_scale (rect : DOMRect) (i : Image)
    (innerWidth delta : Qc) (s : PreviewArea.PreviewState) :
  0 < naturalWidth i → 0 < naturalHeight i →
  let padX := if bool_decide (innerWidth < Qc_of_Z 768)
              then Qc_of_Z 32 else Qc_of_Z 64 in
  let padY := Qc_of_Z 80 in
  let s' := PreviewArea.fitImageToScreen (Some rect) (Some i) innerWidth s in
  let fits (z : Qc) :=
    z ≤ 1 ∧ naturalWidth i * z ≤ rect_width rect - padX
    ∧ naturalHeight i * z ≤ rect_height rect - padY in
  fits (PreviewArea.zoom s')
  ∧ (∀ z, fits z → z ≤ PreviewArea.zoom s')
  ∧ (padX ≤ rect_width rect → padY ≤ rect_height rect → 0 ≤ PreviewArea.zoom s')
  ∧ PreviewArea.pan s' = {| ox := 0; oy := 0 |}
  ∧ PreviewArea.imgDim s' = (naturalWidth i, naturalHeight i)
  ∧ num 0.1 ≤ PreviewArea.zoom (PreviewArea.handleZoom delta s')
  ∧ PreviewArea.zoom (PreviewArea.handleZoom delta s') ≤ Qc_of_Z 5.
Proof.
  intros Hw Hh padX padY s' fits.
  pose proof (Qc_pos_ne_0 _ Hw) as Hw0. pose proof (Qc_pos_ne_0 _ Hh) as Hh0.
  assert (PreviewArea.zoom s'
          = Math_min (Math_min ((rect_width rect - padX) / naturalWidth i)
                               ((rect_height rect - padY) / naturalHeight i)) 1) as Hz.
  { unfold s', PreviewArea.fitImageToScreen. rewrite decide_True by done.
    cbv zeta. cbn [PreviewArea.zoom]. unfold padX, padY.
    by destruct (bool_decide _). }
  set (scaleX := (rect_width rect - padX) / naturalWidth i) in *.
  set (scaleY := (rect_height rect - padY) / naturalHeight i) in *.
  pose proof (Math_min_le_l (Math_min scaleX scaleY) 1) as H1.
  pose proof (Math_min_le_r (Math_min scaleX scaleY) 1) as H2.
  pose proof (Math_min_le_l scaleX scaleY) as H3.
  pose proof (Math_min_le_r scaleX scaleY) as H4.
  split_and!.
  - rewrite Hz. unfold fits. split_and!.
    + done.
    + apply Qc_mul_le_div; [done|]. etrans; [exact H1|exact H3].
    + apply Qc_mul_le_div; [done|]. etrans; [exact H1|exact H4].
  - intros z (Hz1 & Hz2 & Hz3). rewrite Hz.
    apply Math_min_glb; [|done]. apply Math_min_glb; by apply Qc_le_div.
  - intros HpX HpY. rewrite Hz.
    assert (0 ≤ (1 : Qc)) as H01 by (by vm_compute).
    apply Math_min_glb; [|done]. apply Math_min_glb; apply Qc_le_div; try done.
    + rewrite Qcmult_0_r. revert HpX. generalize (rect_width rect) padX.
      intros a b Hab. qcnum. lra.
    + rewrite Qcmult_0_r. revert HpY. generalize (rect_height rect) padY.
      intros a b Hab. qcnum. lra.
  - unfold s', PreviewArea.fitImageToScreen. by rewrite decide_True by done.
  - unfold s', PreviewArea.fitImageToScreen. by rewrite decide_True by done.
  - apply Math_max_ge_l.
  - cbn [PreviewArea.handleZoom PreviewArea.zoom]. unfold Math_max.
    destruct (decide (_ ≤ _)); [apply Math_min_le_l|by vm_compute].
Qed.

Lemma fitImageToScreen_largest_fitting_scale_witness :
  PreviewArea.zoom
    (PreviewArea.fitImageToScreen (Some rect_1000_700)
       (Some {| naturalWidth := Qc_of_Z 2000; naturalHeight := Qc_of_Z 1000 |})
       (Qc_of_Z 1280)
       {| PreviewArea.zoom := 1; PreviewArea.pan := {| ox := 0; oy := 0 |};
          PreviewArea.imgDim := (0, 0) |}) ≤ 1.
Proof.
  refine (proj1 (proj1 (fitImageToScreen_largest_fitting_scale rect_1000_700
            {| naturalWidth := Qc_of_Z 2000; naturalHeight := Qc_of_Z 1000 |}
            (Qc_of_Z 1280) 0
            {| PreviewArea.zoom := 1; PreviewArea.pan := {| ox := 0; oy := 0 |};
               PreviewArea.imgDim := (0, 0) |} _ _))).
  - vm_compute. reflexivity.
  - vm_compute. reflexivity.
Defined.

(** ** Row and column counts from the sidebar *)

(** X27. Every count the sidebar passes on is at least 1, the current
    count being at least 1: the row input of [src/App.tsx] and the typed
    entry of part_000 turn an empty, zero or unreadable entry into 1 and
    pass a larger one on as it is, without cap, and the minus and plus
    buttons of part_000 move a count between 1 and 20 by at most one and
    keep it in that range.  With such a count [handleRowChange] leaves one
    line more than the count, the first at 0 and the last at 100, in
    ascending order (strictly up to a count of 10000). *)
Theorem sidebar_counts_are_positive (ev : CountInput) (parsed : option Z)
    (st : AppState) (n : Z) :
  n = AppTsx_countInput parsed
  ∨ (n = CompactNumberInput (rows st) 1 20 ev ∧ (1 ≤ rows st)%Z) →
  (1 ≤ n)%Z
  ∧ (n = CompactNumberInput (rows st) 1 20 ev → (1 ≤ rows st ≤ 20)%Z →
     ev = click_minus ∨ ev = click_plus → (n ≤ 20)%Z ∧ (Z.abs (n - rows st) ≤ 1)%Z)
  ∧ (∀ v, (1 ≤ v)%Z → AppTsx_countInput (Some v) = v
                       ∧ CompactNumberInput (rows st) 1 20 (typed (Some v)) = v)
  ∧ rows (handleRowChange n st) = n
  ∧ length (rowPositions (handleRowChange n st)) = Z.to_nat (n + 1)
  ∧ head (rowPositions (handleRowChange n st)) = Some 0
  ∧ last (rowPositions (handleRowChange n st)) = Some (Qc_of_Z 100)
  ∧ non_decreasing (rowPositions (handleRowChange n st))
  ∧ ((n ≤ 10000)%Z → strictly_increasing (rowPositions (handleRowChange n st))).
Proof.
  intros Hn.
  assert (1 ≤ n)%Z as H1.
  { destruct Hn as [-> | [-> Hr]].
    - unfold AppTsx_countInput. lia.
    - destruct ev; unfold CompactNumberInput; lia. }
  assert (rowPositions (handleRowChange n st) = generatePositions n) as Hrp
    by (unfold handleRowChange; by rewrite rowPositions_addToHistory).
  assert (rows (handleRowChange n st) = n) as Hrows.
  { unfold handleRowChange.
    pose proof (snapshot_addToHistory
                  {| hs_rows := n; hs_cols := cols st;
                     hs_rowPositions := generatePositions n;
                     hs_colPositions := colPositions st |}
                  (setRowPositions (generatePositions n) (setRows n st))) as Hs.
    by apply (f_equal hs_rows) in Hs. }
  rewrite Hrp. split_and!.
  - done.
  - intros -> Hr [-> | ->]; unfold CompactNumberInput; lia.
  - intros v Hv. unfold AppTsx_countInput, CompactNumberInput, parseInt_or.
    rewrite decide_False by lia. lia.
  - done.
  - apply generatePositions_length. lia.
  - apply generatePositions_head. lia.
  - apply generatePositions_last. lia.
  - apply generatePositions_non_decreasing.
  - intros Hle. apply generatePositions_strict. lia.
Qed.

Lemma sidebar_counts_are_positive_witness :
  length (rowPositions (handleRowChange (AppTsx_countInput (Some 0%Z)) state_2x2)) = 2%nat.
Proof.
  refine (proj1 (proj2 (proj2 (proj2 (proj2
            (sidebar_counts_are_positive click_plus (Some 0%Z) state_2x2
               (AppTsx_countInput (Some 0%Z)) _)))))).
  left. reflexivity.
Defined.

(** ** Saving and stepping on *)


